(** * Lighthouse monitoring: the job registry of the dashboard service and
      the audit endpoint of the engine service.

    The development embeds the two Node services of the repository,
    [gui/server.js] (the dashboard API with its process-wide map of cron
    jobs) and [lighthouse/server.js] (the audit engine endpoint), together
    with the relational schema they write to.  Stateful JavaScript becomes
    a small state-and-exception monad over an explicit process state;
    the libraries the services call ([node-cron], the WHATWG [URL] parser,
    Lighthouse itself, the PostgreSQL connection) are interfaces whose
    answers the statements quantify over. *)

From Stdlib Require Import ZArith QArith Qround Lia Ascii String.
From stdpp Require Import gmap strings list pretty.

Local Open Scope string_scope.
Local Open Scope list_scope.
Local Open Scope Z_scope.

(* ===================================================================== *)
(** ** JavaScript values and built-ins used by the two services *)
(* ===================================================================== *)

Module Js.

(** The result of [parseInt]: an integer or [NaN].  Both are legal keys of
    a [Map]; [Map] compares keys with SameValueZero, under which [NaN]
    equals itself. *)
Inductive jsint :=
| NaN
| Int (z : Z).

#[global] Instance jsint_eq_dec : EqDecision jsint.
Proof. solve_decision. Defined.

Definition jsint_to_option (k : jsint) : option Z :=
  match k with NaN => None | Int z => Some z end.

Definition jsint_of_option (o : option Z) : jsint :=
  match o with None => NaN | Some z => Int z end.

#[global] Instance jsint_countable : Countable jsint.
Proof.
  apply (inj_countable' jsint_to_option jsint_of_option).
  by intros [|z].
Defined.

(** An exception value: [err.message], and for errors raised by the
    PostgreSQL driver [err.code] and [err.constraint]. *)
Record error := Error {
  message : string;
  code : option string;
  constraint : option string
}.

(** [new Error(msg)]. *)
Definition new_Error (msg : string) : error := Error msg None None.

(** How a call ends: it returns or it throws. *)
Inductive outcome (A : Type) :=
| Return (a : A)
| Throw (e : error).
Arguments Return {A} a.
Arguments Throw {A} e.

(** A string field of a parsed JSON body or of a query string. *)
Inductive field :=
| Undefined
| Null
| Str (s : string).

#[global] Instance field_eq_dec : EqDecision field.
Proof. solve_decision. Defined.

(** [!v] is false exactly on truthy values; among the values of [field]
    only a non-empty string is truthy. *)
Definition truthy (v : field) : bool :=
  match v with
  | Str s => negb (String.eqb s "")
  | _ => false
  end.

(** A destructuring default [{ x = d }] applies to [undefined] only. *)
Definition with_default (d : string) (v : field) : field :=
  match v with Undefined => Str d | _ => v end.

(** The string a field is read as where the code uses it as one. *)
Definition to_string (v : field) : string :=
  match v with
  | Str s => s
  | Null => "null"
  | Undefined => "undefined"
  end.

(** The double quote character, for messages that quote their argument. *)
Definition dquote : string := String (Ascii.ascii_of_nat 34) EmptyString.

(** *** [parseInt(string)] with the default radix *)

Definition is_ws (c : ascii) : bool :=
  let n := Ascii.nat_of_ascii c in
  ((9 <=? n) && (n <=? 13) || (n =? 32))%nat.

Fixpoint skip_ws (s : string) : string :=
  match s with
  | String c s' => if is_ws c then skip_ws s' else s
  | EmptyString => s
  end.

Definition digit_val (c : ascii) : option Z :=
  let n := Z.of_nat (Ascii.nat_of_ascii c) in
  if (48 <=? n) && (n <=? 57) then Some (n - 48)
  else if (97 <=? n) && (n <=? 102) then Some (n - 87)
  else if (65 <=? n) && (n <=? 70) then Some (n - 55)
  else None.

(** The value of the longest prefix of radix-[r] digits, if there is one. *)
Fixpoint digits_prefix (r : Z) (s : string) (acc : option Z) : option Z :=
  match s with
  | String c s' =>
      match digit_val c with
      | Some d =>
          if d <? r then digits_prefix r s' (Some (r * default 0 acc + d))
          else acc
      | None => acc
      end
  | EmptyString => acc
  end.

Definition strip_sign (s : string) : Z * string :=
  match s with
  | String "-"%char s' => (-1, s')
  | String "+"%char s' => (1, s')
  | _ => (1, s)
  end.

Definition strip_hex (s : string) : Z * string :=
  match s with
  | String "0"%char (String "x"%char s') => (16, s')
  | String "0"%char (String "X"%char s') => (16, s')
  | _ => (10, s)
  end.

Definition parseInt (s : string) : jsint :=
  let '(sign, s1) := strip_sign (skip_ws s) in
  let '(radix, s2) := strip_hex s1 in
  match digits_prefix radix s2 None with
  | Some v => Int (sign * v)
  | None => NaN
  end.

(** *** Numbers as Lighthouse reports them

    A category score is a double; the model keeps its exact rational value
    and a separate [NaN].  [Math.round] rounds to the nearest integer, ties
    towards plus infinity. *)
Inductive number :=
| NotANumber
| Num (q : Q).

Definition Math_round (q : Q) : Z := Qfloor (q + (1 # 2)).

End Js.

Export Js.

(* ===================================================================== *)
(** ** Computations: state passing with exceptions *)
(* ===================================================================== *)

Module Eff.

Definition M (S A : Type) : Type := S -> S * outcome A.

Definition ret {S A} (a : A) : M S A := fun s => (s, Return a).

Definition throw {S A} (e : error) : M S A := fun s => (s, Throw e).

Definition bind {S A B} (m : M S A) (k : A -> M S B) : M S B := fun s =>
  match m s with
  | (s', Return a) => k a s'
  | (s', Throw e) => (s', Throw e)
  end.

(** [try { body } catch (err) { handler }] *)
Definition try_catch {S A} (body : M S A) (handler : error -> M S A) : M S A := fun s =>
  match body s with
  | (s', Return a) => (s', Return a)
  | (s', Throw e) => handler e s'
  end.

Definition gets {S A} (f : S -> A) : M S A := fun s => (s, Return (f s)).

Definition modify {S} (f : S -> S) : M S unit := fun s => (f s, Return tt).

(** An error of the store that carries no unique-violation code. *)
Definition store_error (msg : string) : error := Error msg None None.

(** A query the store may reject for a reason the schema does not decide
    (it is unreachable, a value is too long, a referenced row is gone):
    [Some msg] makes the driver throw an error with that message. *)
Definition rejected {S A} (fault : option string) (k : M S A) : M S A :=
  match fault with
  | Some msg => throw (store_error msg)
  | None => k
  end.

Module Notations.
Notation "x <- m ;; k" := (bind m (fun x => k))
  (at level 100, m at next level, right associativity).
Notation "m ;;; k" := (bind m (fun _ => k))
  (at level 100, right associativity).
End Notations.

End Eff.

Export Eff.
Export Eff.Notations.

(* ===================================================================== *)
(** ** Libraries and services outside the repository *)
(* ===================================================================== *)

(** What the two services ask of code they do not contain: whether
    [node-cron] accepts a schedule expression ([cron.validate]), whether the
    WHATWG parser accepts a string ([new URL(s)] returns instead of
    throwing), and how PostgreSQL reads the text of an [INTEGER] parameter
    ([None]: the statement is rejected with an input syntax error). *)
Class Libraries := {
  cron_validate : string -> bool;
  url_parses : string -> bool;
  int4_in : string -> option Z
}.

(* ===================================================================== *)
(** ** gui/server.js *)
(* ===================================================================== *)

Module Gui.

(** A task object returned by [cron.schedule]: the expression it fires
    under, the client its callback audits, and whether it is still
    scheduled ([task.stop()] clears the flag). *)
Record ScheduledTask := Task {
  expression : string;
  client : jsint;
  running : bool
}.

Definition stop (t : ScheduledTask) : ScheduledTask :=
  Task (expression t) (client t) false.

(** Lines written to the console by the registry functions. *)
Inductive log_line :=
| LogScheduled (clientId : jsint) (expr : string)
| WarnBadSchedule (id : Z) (msg : string)
| LogRestored (n : nat)
| ErrRestoreFailed (msg : string).

(** A row of [clients] (schema with the [platform] column and the two
    named unique constraints). *)
Record client_row := Client {
  c_id : Z;
  c_name : string;
  c_url : string;
  c_platform : string;
  c_schedule : option string;
  c_schedule_enabled : option bool
}.

#[global] Instance client_row_eq_dec : EqDecision client_row.
Proof. solve_decision. Defined.

(** The state of the dashboard process and of the store behind it.
    [tasks] holds every task object ever created, a task's handle being its
    index; [activeJobs] is the process-wide [Map] from client id to task. *)
Record state := State {
  activeJobs : gmap jsint nat;
  tasks : list ScheduledTask;
  console : list log_line;
  clients : list client_row;
  clients_id_seq : Z
}.

Definition set_activeJobs (f : gmap jsint nat -> gmap jsint nat) (s : state) : state :=
  State (f (activeJobs s)) (tasks s) (console s) (clients s) (clients_id_seq s).

Definition set_tasks (f : list ScheduledTask -> list ScheduledTask) (s : state) : state :=
  State (activeJobs s) (f (tasks s)) (console s) (clients s) (clients_id_seq s).

Definition set_console (f : list log_line -> list log_line) (s : state) : state :=
  State (activeJobs s) (tasks s) (f (console s)) (clients s) (clients_id_seq s).

Definition set_clients (f : list client_row -> list client_row) (s : state) : state :=
  State (activeJobs s) (tasks s) (console s) (f (clients s)) (clients_id_seq s).

Definition set_clients_id_seq (f : Z -> Z) (s : state) : state :=
  State (activeJobs s) (tasks s) (console s) (clients s) (f (clients_id_seq s)).

(** The state at boot: no job, no task, nothing printed. *)
Definition boot (rows : list client_row) (seq : Z) : state :=
  State ∅ [] [] rows seq.

Abbreviation M := (Eff.M state).

Definition console_log (l : log_line) : M unit :=
  modify (set_console (fun c => c ++ [l])).

(** *** The job registry *)

(** [existing.stop()] *)
Definition task_stop (task : nat) : M unit :=
  modify (set_tasks (alter stop task)).

(** [cron.schedule(expression, callback)]: a new task, scheduled at once. *)
Definition cron_schedule (expr : string) (clientId : jsint) : M nat :=
  task <- gets (fun s => length (tasks s)) ;;
  modify (set_tasks (fun ts => ts ++ [Task expr clientId true])) ;;;
  ret task.

Definition stopJob (clientId : jsint) : M unit :=
  existing <- gets (fun s => activeJobs s !! clientId) ;;
  match existing with
  | Some task =>
      task_stop task ;;;
      modify (set_activeJobs (delete clientId))
  | None => ret tt
  end.

Definition invalid_cron_message (expr : string) : string :=
  "Invalid cron expression: " +:+ dquote +:+ expr +:+ dquote.

Definition startJob `{Libraries} (clientId : jsint) (expr : string) : M unit :=
  stopJob clientId ;;;
  if negb (cron_validate expr) then throw (new_Error (invalid_cron_message expr))
  else
    task <- cron_schedule expr clientId ;;
    modify (set_activeJobs <[clientId := task]>) ;;;
    console_log (LogScheduled clientId expr).

(** [activeJobs.has(id)] *)
Definition isActive (s : state) (clientId : jsint) : bool :=
  bool_decide (is_Some (activeJobs s !! clientId)).

(** *** Queries of the dashboard against the store

    Every query takes the [fault] of [rejected]. *)

(** [SELECT id, schedule FROM clients WHERE schedule IS NOT NULL AND
    schedule_enabled = TRUE] *)
Definition enabled_schedule (r : client_row) : option (Z * string) :=
  match c_schedule r, c_schedule_enabled r with
  | Some e, Some true => Some (c_id r, e)
  | _, _ => None
  end.

Definition select_enabled_schedules (fault : option string) : M (list (Z * string)) :=
  rejected fault (gets (fun s => omap enabled_schedule (clients s))).

Definition unique_violation (name : string) : error :=
  Error ("duplicate key value violates unique constraint " +:+ dquote +:+ name +:+ dquote)
        (Some "23505") (Some name).

(** [INSERT INTO clients (name, url, platform) VALUES ($1, $2, $3)
    RETURNING *] under [clients_name_unique] and
    [clients_url_platform_unique]. *)
Definition insert_client (fault : option string) (name url platform : string) : M client_row :=
  rejected fault (
    rows <- gets clients ;;
    if existsb (fun r => String.eqb (c_name r) name) rows
    then throw (unique_violation "clients_name_unique")
    else if existsb (fun r => String.eqb (c_url r) url && String.eqb (c_platform r) platform) rows
    then throw (unique_violation "clients_url_platform_unique")
    else
      id <- gets clients_id_seq ;;
      let row := Client id name url platform None (Some false) in
      modify (set_clients_id_seq (fun n => n + 1)) ;;;
      modify (set_clients (fun rs => rs ++ [row])) ;;;
      ret row).

(** [DELETE FROM clients WHERE id = $1], the parameter sent as text. *)
Definition delete_client `{Libraries} (fault : option string) (id : string) : M unit :=
  rejected fault (
    match int4_in id with
    | None =>
        throw (Error ("invalid input syntax for type integer: " +:+ dquote +:+ id +:+ dquote)
                     (Some "22P02") None)
    | Some z => modify (set_clients (filter (fun r => c_id r ≠ z)))
    end).

(** *** Boot-time recovery *)

Fixpoint restore_rows `{Libraries} (rows : list (Z * string)) : M unit :=
  match rows with
  | [] => ret tt
  | (id, schedule) :: rest =>
      try_catch (startJob (Int id) schedule)
                (fun err => console_log (WarnBadSchedule id (message err))) ;;;
      restore_rows rest
  end.

Definition initSchedules `{Libraries} (fault : option string) : M unit :=
  try_catch (
    rows <- select_enabled_schedules fault ;;
    restore_rows rows ;;;
    console_log (LogRestored (length rows)))
  (fun err => console_log (ErrRestoreFailed (message err))).

(** *** Form factor *)

Definition resolveFormFactor (clientPlatform : string) (requestedFormFactor : option string) : string :=
  let requested := default "mobile" requestedFormFactor in
  if decide (clientPlatform = "mobile") then "mobile"
  else if decide (clientPlatform = "desktop") then "desktop"
  else requested.

(** *** HTTP handlers *)

Inductive body :=
| JsonError (msg : string)
| JsonClient (row : client_row)
| JsonSuccess.

Record response := Response {
  status : Z;
  json : body
}.

(** [new URL(url)] *)
Definition new_URL `{Libraries} (url : string) : M unit :=
  if url_parses url then ret tt
  else throw (Error "Invalid URL" (Some "ERR_INVALID_URL") None).

(** [["mobile", "desktop", "both"].includes(platform)] *)
Definition platform_listed (platform : field) : bool :=
  match platform with
  | Str p => bool_decide (p ∈ ["mobile"; "desktop"; "both"])
  | _ => false
  end.

Definition duplicate_name_message (name : string) : string :=
  "A client named " +:+ dquote +:+ name +:+ dquote
  +:+ " already exists. Please use a different name.".

Definition duplicate_url_message (platform : string) : string :=
  "A " +:+ platform
  +:+ " client for this URL already exists. You can still add it with a different platform.".

(** [POST /api/clients] with body [{name, url, platform}]. *)
Definition post_clients `{Libraries} (fault : option string) (name url platform0 : field) : M response :=
  let platform := with_default "both" platform0 in
  if negb (truthy name) || negb (truthy url)
  then ret (Response 400 (JsonError "name and url required"))
  else if negb (platform_listed platform)
  then ret (Response 400 (JsonError "platform must be mobile, desktop, or both"))
  else
    try_catch (
      new_URL (to_string url) ;;;
      row <- insert_client fault (to_string name) (to_string url) (to_string platform) ;;
      ret (Response 201 (JsonClient row)))
    (fun err =>
      if decide (code err = Some "23505") then
        if decide (constraint err = Some "clients_name_unique")
        then ret (Response 409 (JsonError (duplicate_name_message (to_string name))))
        else if decide (constraint err = Some "clients_url_platform_unique")
        then ret (Response 409 (JsonError (duplicate_url_message (to_string platform))))
        else ret (Response 409 (JsonError "Duplicate client"))
      else ret (Response 500 (JsonError (message err)))).

(** [DELETE /api/clients/:id] *)
Definition delete_clients_id `{Libraries} (fault : option string) (id : string) : M response :=
  try_catch (
    stopJob (parseInt id) ;;;
    delete_client fault id ;;;
    ret (Response 200 JsonSuccess))
  (fun err => ret (Response 500 (JsonError (message err)))).

End Gui.

(* ===================================================================== *)
(** ** lighthouse/server.js *)
(* ===================================================================== *)

Module Lighthouse.

(** One entry of [lhr.categories]; [score] is a number or [null]
    ([None]). *)
Record category := Category {
  score : option number
}.

(** The Lighthouse result: its categories by id, and the rest of the
    report, which the service only serialises. *)
Record lhr := Lhr {
  categories : gmap string category;
  details : string
}.

Record scores := Scores {
  performance : Z;
  accessibility : Z;
  best_practices : Z;
  seo : Z;
  pwa : Z
}.

(** A row of [audits].  The sub-metric columns and [audited_at] are left
    out: no statement of the service reads them, and it writes only the
    timestamp. *)
Record audit_row := Audit {
  a_id : Z;
  a_client_id : string;
  a_form_factor : string;
  a_performance : option Z;
  a_accessibility : option Z;
  a_best_practices : option Z;
  a_seo : option Z;
  a_pwa : option Z;
  a_report_json : option lhr;
  a_status : string;
  a_error_message : option string
}.

(** The store as the engine sees it.  [history] is not part of the store:
    it records, in order, the row and status of every statement that took
    effect, so that the transitions of a row can be counted. *)
Record state := State {
  audits : list audit_row;
  audits_id_seq : Z;
  history : list (Z * string)
}.

Abbreviation M := (Eff.M state).

Definition set_audits (f : list audit_row -> list audit_row) (s : state) : state :=
  State (f (audits s)) (audits_id_seq s) (history s).

Definition set_audits_id_seq (f : Z -> Z) (s : state) : state :=
  State (audits s) (f (audits_id_seq s)) (history s).

Definition record_write (id : Z) (st : string) : M unit :=
  modify (fun s => State (audits s) (audits_id_seq s) (history s ++ [(id, st)])).

(** What the store does with each of the four statements of the handler. *)
Record faults := Faults {
  insert_running_fault : option string;
  update_completed_fault : option string;
  insert_completed_fault : option string;
  update_failed_fault : option string
}.

Definition no_faults : faults := Faults None None None None.

Definition insert_row (row : Z -> audit_row) : M Z :=
  id <- gets audits_id_seq ;;
  modify (set_audits_id_seq (fun n => n + 1)) ;;;
  modify (set_audits (fun rs => rs ++ [row id])) ;;;
  record_write id (a_status (row id)) ;;;
  ret id.

Definition update_row (id : Z) (f : audit_row -> audit_row) (st : string) : M unit :=
  present <- gets (fun s => existsb (fun r => bool_decide (a_id r = id)) (audits s)) ;;
  modify (set_audits (fmap (fun r => if decide (a_id r = id) then f r else r))) ;;;
  if (present : bool) then record_write id st else ret tt.

(** [INSERT INTO audits (client_id, form_factor, status) VALUES ($1, $2,
    'running') RETURNING id] *)
Definition insert_running (fs : faults) (client_id formFactor : string) : M Z :=
  rejected (insert_running_fault fs) (
    insert_row (fun id =>
      Audit id client_id formFactor None None None None None None "running" None)).

(** [UPDATE audits SET performance=$1, ..., report_json=$6,
    status='completed', audited_at=NOW() WHERE id=$7] *)
Definition set_completed (sc : scores) (report : lhr) (r : audit_row) : audit_row :=
  Audit (a_id r) (a_client_id r) (a_form_factor r)
        (Some (performance sc)) (Some (accessibility sc)) (Some (best_practices sc))
        (Some (seo sc)) (Some (pwa sc)) (Some report) "completed" (a_error_message r).

Definition update_completed (fs : faults) (sc : scores) (report : lhr) (id : Z) : M unit :=
  rejected (update_completed_fault fs) (update_row id (set_completed sc report) "completed").

(** [INSERT INTO audits (client_id, form_factor, performance, ...,
    report_json, status) VALUES ($1, ..., $8, 'completed') RETURNING id] *)
Definition insert_completed (fs : faults) (client_id formFactor : string)
    (sc : scores) (report : lhr) : M Z :=
  rejected (insert_completed_fault fs) (
    insert_row (fun id =>
      Audit id client_id formFactor
            (Some (performance sc)) (Some (accessibility sc)) (Some (best_practices sc))
            (Some (seo sc)) (Some (pwa sc)) (Some report) "completed" None)).

(** [UPDATE audits SET status='failed', error_message=$1 WHERE id=$2] *)
Definition set_failed (msg : string) (r : audit_row) : audit_row :=
  Audit (a_id r) (a_client_id r) (a_form_factor r)
        (a_performance r) (a_accessibility r) (a_best_practices r)
        (a_seo r) (a_pwa r) (a_report_json r) "failed" (Some msg).

Definition update_failed (fs : faults) (msg : string) (id : Z) : M unit :=
  rejected (update_failed_fault fs) (update_row id (set_failed msg) "failed").

(** *** Score extraction *)

(** [v || 0] on a score: [undefined] (the category is absent), [null],
    [NaN] and [0] are falsy. *)
Definition or_zero (v : option number) : Q :=
  match v with
  | Some (Num q) => if Qeq_bool q 0 then 0 else q
  | _ => 0
  end.

(** [Math.round((categories[id]?.score || 0) * 100)] *)
Definition category_score (cats : gmap string category) (id : string) : Z :=
  Math_round (or_zero (cats !! id ≫= score) * 100).

Definition extract_scores (cats : gmap string category) : scores :=
  Scores (category_score cats "performance")
         (category_score cats "accessibility")
         (category_score cats "best-practices")
         (category_score cats "seo")
         (category_score cats "pwa").

(** *** [GET /audit] *)

Record request := Request {
  url : field;
  client_id : field;
  form_factor : field
}.

Inductive body :=
| JsonError (msg : string)
| JsonFailure (msg : string)
| JsonAudit (url formFactor : string) (sc : scores) (audit_id : option Z).

Record response := Response {
  status : Z;
  json : body
}.

(** [if (auditId)]: [null] and [0] are falsy. *)
Definition id_truthy (auditId : option Z) : option Z :=
  match auditId with
  | Some id => if decide (id = 0) then None else Some id
  | None => None
  end.

(** [await chromeLauncher.launch(...)] followed by [await lighthouse(...)]
    and [runnerResult.lhr]. *)
Definition run_engine (engine : outcome lhr) : M lhr := fun s => (s, engine).

(** Lines 117-127: the [running] record, when the request names a client;
    a rejected insert is logged and leaves [auditId] null. *)
Definition create_record (fs : faults) (req : request) (formFactor : string) : M (option Z) :=
  if truthy (client_id req)
  then try_catch (id <- insert_running fs (to_string (client_id req)) formFactor ;;
                  ret (Some id))
                 (fun _ => ret None)
  else ret None.

(** Lines 180-214: save scores and report. *)
Definition save_result (fs : faults) (req : request) (formFactor : string)
    (auditId : option Z) (sc : scores) (report : lhr) : M (option Z) :=
  match id_truthy auditId with
  | Some id =>
      update_completed fs sc report id ;;;
      ret auditId
  | None =>
      if truthy (client_id req)
      then id <- insert_completed fs (to_string (client_id req)) formFactor sc report ;;
           ret (Some id)
      else ret auditId
  end.

(** Lines 226-233: mark the record failed; a rejected update is dropped
    ([.catch(() => {})]). *)
Definition mark_failed (fs : faults) (auditId : option Z) (err : error) : M unit :=
  match id_truthy auditId with
  | Some id => try_catch (update_failed fs (message err) id) (fun _ => ret tt)
  | None => ret tt
  end.

(** The handler.  [engine] is what launching the browser and running
    Lighthouse come to: the result, or the error one of them throws.  The
    [finally] block only kills the browser; it touches neither the store
    nor the response. *)
Definition audit `{Libraries} (fs : faults) (engine : outcome lhr) (req : request) : M response :=
  let formFactor :=
    if decide (form_factor req = Str "desktop") then "desktop" else "mobile" in
  if negb (truthy (url req))
  then ret (Response 400 (JsonError "`url` query param is required"))
  else if negb (url_parses (to_string (url req)))
  then ret (Response 400 (JsonError "Invalid URL format"))
  else
    auditId <- create_record fs req formFactor ;;
    try_catch (
      report <- run_engine engine ;;
      let sc := extract_scores (categories report) in
      auditId' <- save_result fs req formFactor auditId sc report ;;
      ret (Response 200 (JsonAudit (to_string (url req)) formFactor sc auditId')))
    (fun err =>
      mark_failed fs auditId err ;;;
      ret (Response 500 (JsonFailure (message err)))).

End Lighthouse.

(* ===================================================================== *)
(** ** A concrete instance of the outside libraries

    Used where a statement is evaluated on concrete requests.  The three
    functions are small stand-ins that agree with the real libraries on
    the inputs used below: a schedule has five or six blank-separated
    fields of digits and [* / , -]; a URL starts with a scheme and a
    colon; an integer parameter is an optionally signed run of decimal
    digits within the range of [INTEGER]. *)
(* ===================================================================== *)

Module Sample.

Fixpoint split_fields (s cur : string) : list string :=
  match s with
  | EmptyString => [cur]
  | String c s' =>
      if Ascii.eqb c " " then cur :: split_fields s' ""
      else split_fields s' (cur +:+ String c "")
  end.

Definition cron_char (c : ascii) : bool :=
  let n := Z.of_nat (Ascii.nat_of_ascii c) in
  (48 <=? n) && (n <=? 57)
  || Ascii.eqb c "*" || Ascii.eqb c "/" || Ascii.eqb c "," || Ascii.eqb c "-".

Definition validate (expr : string) : bool :=
  let fields := filter (fun f => f ≠ "") (split_fields expr "") in
  bool_decide (length fields = 5%nat ∨ length fields = 6%nat)
  && forallb (fun f => forallb cron_char (list_ascii_of_string f)) fields.

Definition is_alpha (c : ascii) : bool :=
  let n := Z.of_nat (Ascii.nat_of_ascii c) in
  (97 <=? n) && (n <=? 122) || (65 <=? n) && (n <=? 90).

Definition scheme_char (c : ascii) : bool :=
  let n := Z.of_nat (Ascii.nat_of_ascii c) in
  is_alpha c || (48 <=? n) && (n <=? 57)
  || Ascii.eqb c "+" || Ascii.eqb c "-" || Ascii.eqb c ".".

Fixpoint scheme_rest (s : string) : bool :=
  match s with
  | EmptyString => false
  | String c s' =>
      if Ascii.eqb c ":" then true
      else if scheme_char c then scheme_rest s' else false
  end.

Definition has_scheme (s : string) : bool :=
  match s with
  | String c s' => is_alpha c && scheme_rest s'
  | EmptyString => false
  end.

Fixpoint decimal (s : string) (acc : Z) : option Z :=
  match s with
  | EmptyString => Some acc
  | String c s' =>
      let n := Z.of_nat (Ascii.nat_of_ascii c) in
      if (48 <=? n) && (n <=? 57) then decimal s' (10 * acc + (n - 48)) else None
  end.

Definition int4 (s : string) : option Z :=
  let '(sign, digits) := strip_sign s in
  match digits with
  | EmptyString => None
  | _ =>
      v ← decimal digits 0;
      if (sign * v <? 2 ^ 31) && (- 2 ^ 31 <=? sign * v) then Some (sign * v) else None
  end.

Definition libraries : Libraries := {|
  cron_validate := validate;
  url_parses := has_scheme;
  int4_in := int4
|}.

(** The three stored clients of the recovery example: a valid schedule, a
    malformed one, and none. *)
Definition stored : list Gui.client_row :=
  [ Gui.Client 1 "one" "https://one.example" "both" (Some "*/5 * * * *") (Some true);
    Gui.Client 2 "two" "https://two.example" "both" (Some "not-a-cron") (Some true);
    Gui.Client 3 "three" "https://three.example" "both" None (Some false) ].

(** Three stored clients whose expressions are all valid: a schedule
    switched on, one switched off, and none. *)
Definition registered : list Gui.client_row :=
  [ Gui.Client 1 "one" "https://one.example" "both" (Some "*/5 * * * *") (Some true);
    Gui.Client 2 "two" "https://two.example" "mobile" (Some "0 3 * * *") (Some false);
    Gui.Client 3 "three" "https://three.example" "desktop" None (Some false) ].

(** A result with a performance score of 0.9, a null accessibility score
    and no other category. *)
Definition report : Lighthouse.lhr :=
  Lighthouse.Lhr (<["performance" := Lighthouse.Category (Some (Num (9 # 10)))]>
         {["accessibility" := Lighthouse.Category None]})
      "lhr".

(** An empty store whose sequence stands at 1. *)
Definition fresh : Lighthouse.state := Lighthouse.State [] 1 [].

Definition with_client : Lighthouse.request :=
  Lighthouse.Request (Str "https://example.com") (Str "1") Undefined.

Definition without_client : Lighthouse.request :=
  Lighthouse.Request (Str "https://example.com") Undefined Undefined.

End Sample.

(* ===================================================================== *)
(** ** Vocabulary of the statements about the job registry *)
(* ===================================================================== *)

Module Registry.
Import Gui.

(** The timers of a client that still fire: tasks created for it and not
    stopped. *)
Definition live_timers (s : state) (id : jsint) : list ScheduledTask :=
  filter (fun t => client t = id ∧ running t = true) (tasks s).

(** The client has a registered job running under expression [e]. *)
Definition job (s : state) (id : jsint) (e : string) : Prop :=
  ∃ h, activeJobs s !! id = Some h ∧ tasks s !! h = Some (Task e id true).

(** The registry and the timers agree: every entry of [activeJobs] is a
    running task of that client, and every running task is the entry of
    its client. *)
Definition registry_ok (s : state) : Prop :=
  (∀ id h, activeJobs s !! id = Some h → ∃ e, tasks s !! h = Some (Task e id true)) ∧
  (∀ h t, tasks s !! h = Some t → running t = true → activeJobs s !! client t = Some h).

(** The calls that change the registry, and their effect in sequence. *)
Inductive op :=
| Start (id : jsint) (e : string)
| Stop (id : jsint).

Definition run_op `{Libraries} (o : op) : M unit :=
  match o with
  | Start id e => startJob id e
  | Stop id => stopJob id
  end.

Definition exec `{Libraries} (s : state) (ops : list op) : state :=
  foldl (fun s o => fst (run_op o s)) s ops.

(** The rows [initSchedules] fetches. *)
Definition candidates (s : state) : list (Z * string) :=
  omap enabled_schedule (clients s).

(** One iteration of the loop of [initSchedules]: the state after the
    [try] around [startJob] and its [catch]. *)
Definition restore_one `{Libraries} (s : state) (row : Z * string) : state :=
  fst (try_catch (startJob (Int row.1) row.2)
                 (fun err => console_log (WarnBadSchedule row.1 (message err))) s).

End Registry.

(* ===================================================================== *)
(** ** Vocabulary of the statements about audit runs *)
(* ===================================================================== *)

Module Runs.
Import Lighthouse.

(** The row the handler inserts at invocation time. *)
Definition running_row (id : Z) (client_id formFactor : string) : audit_row :=
  Audit id client_id formFactor None None None None None None "running" None.

(** The five score columns of a row. *)
Definition persisted_scores (r : audit_row) : list (option Z) :=
  [a_performance r; a_accessibility r; a_best_practices r; a_seo r; a_pwa r].

Definition scores_list (sc : scores) : list Z :=
  [performance sc; accessibility sc; best_practices sc; seo sc; pwa sc].

(** A score column holds an integer between 0 and 100. *)
Definition percent (v : option Z) : Prop :=
  ∃ z, v = Some z ∧ 0 <= z <= 100.

(** What Lighthouse promises of a result: a category's score is [null] or
    a number between 0 and 1. *)
Definition unit_scores (cats : gmap string category) : Prop :=
  ∀ id c q, cats !! id = Some c → score c = Some (Num q) → (0 <= q <= 1)%Q.

(** The form factor the handler audits under. *)
Definition form_factor_of (req : request) : string :=
  if decide (form_factor req = Str "desktop") then "desktop" else "mobile".

(** Every row of [s'] is a row of [s] or satisfies [G]: the rows a
    computation wrote all satisfy [G]. *)
Definition writes (G : audit_row → Prop) (s s' : state) : Prop :=
  ∀ row, row ∈ audits s' → row ∈ audits s ∨ G row.

(** What went wrong after the record was created, if anything did: the
    error of the engine, or the store's when it rejects the completing
    update. *)
Definition failure (engine : outcome lhr) (fs : faults) : option string :=
  match engine with
  | Throw err => Some (message err)
  | Return _ => update_completed_fault fs
  end.

(** The ids handed out so far are below the sequence, which starts at 1. *)
Definition store_ok (s : state) : Prop :=
  0 < audits_id_seq s ∧ ∀ r, r ∈ audits s → a_id r < audits_id_seq s.

End Runs.

(* ===================================================================== *)
(** ** gui/server.js: the schedule handlers *)
(* ===================================================================== *)

Module Schedules.
Import Gui.

(** The [enabled] member of a request body: absent, [null] or a boolean. *)
Inductive flag :=
| FlagUndefined
| FlagNull
| FlagBool (b : bool).

(** [{ enabled = true }]: the default stands in for [undefined] only; the
    result is what is bound to the [BOOLEAN] column, [None] being
    [NULL]. *)
Definition enabled_or_true (f : flag) : option bool :=
  match f with
  | FlagUndefined => Some true
  | FlagNull => None
  | FlagBool b => Some b
  end.

(** Truthiness of a [BOOLEAN] column value or parameter. *)
Definition on (v : option bool) : bool :=
  match v with
  | Some true => true
  | _ => false
  end.

Inductive payload :=
| Failure (msg : string)
| Success
| Scheduled (clientId : jsint) (expr : string) (enabled : option bool) (job_active : bool)
| Toggled (enabled job_active : bool).

Record reply := Reply {
  reply_status : Z;
  reply_json : payload
}.

(** A number bound to an [INTEGER] parameter: [NaN] is no integer, and an
    integer must fit 32 bits. *)
Definition pg_int4 (k : jsint) : outcome Z :=
  match k with
  | NaN =>
      Throw (Error ("invalid input syntax for type integer: " +:+ dquote +:+ "NaN" +:+ dquote)
                   (Some "22P02") None)
  | Int z =>
      if (- 2 ^ 31 <=? z) && (z <? 2 ^ 31) then Return z
      else Throw (Error ("value " +:+ dquote +:+ pretty z +:+ dquote
                         +:+ " is out of range for type integer")
                        (Some "22003") None)
  end.

(** The store can read the number as an id. *)
Definition binds (k : jsint) : bool :=
  match pg_int4 k with
  | Return _ => true
  | Throw _ => false
  end.

(** A statement [... WHERE id = $n] with a number for the id. *)
Definition where_id {A} (fault : option string) (k : jsint) (q : Z -> M A) : M A :=
  rejected fault (
    match pg_int4 k with
    | Return z => q z
    | Throw e => throw e
    end).

Definition update_rows (z : Z) (f : client_row -> client_row) : M unit :=
  modify (set_clients (fmap (fun r => if decide (c_id r = z) then f r else r))).

Definition with_schedule (schedule : option string) (enabled : option bool)
    (r : client_row) : client_row :=
  Client (c_id r) (c_name r) (c_url r) (c_platform r) schedule enabled.

(** [UPDATE clients SET schedule = $1, schedule_enabled = $2 WHERE id = $3] *)
Definition update_schedule (fault : option string) (expr : string)
    (enabled : option bool) (k : jsint) : M unit :=
  where_id fault k (fun z => update_rows z (with_schedule (Some expr) enabled)).

(** [UPDATE clients SET schedule = NULL, schedule_enabled = FALSE WHERE
    id = $1] *)
Definition clear_schedule (fault : option string) (k : jsint) : M unit :=
  where_id fault k (fun z => update_rows z (with_schedule None (Some false))).

(** [UPDATE clients SET schedule_enabled = $1 WHERE id = $2] *)
Definition update_enabled (fault : option string) (enabled : bool) (k : jsint) : M unit :=
  where_id fault k (fun z =>
    update_rows z (fun r => with_schedule (c_schedule r) (Some enabled) r)).

(** [SELECT schedule, schedule_enabled FROM clients WHERE id = $1] *)
Definition select_schedule (fault : option string) (k : jsint)
    : M (list (option string * option bool)) :=
  where_id fault k (fun z =>
    gets (fun s => (fun r => (c_schedule r, c_schedule_enabled r))
                     <$> filter (fun r => c_id r = z) (clients s))).

(** [PUT /api/clients/:id/schedule] with body [{expression, enabled}]. *)
Definition put_schedule `{Libraries} (fault : option string) (id : string)
    (expression : field) (enabled0 : flag) : M reply :=
  let clientId := parseInt id in
  let enabled := enabled_or_true enabled0 in
  if negb (truthy expression)
  then ret (Reply 400 (Failure "expression is required"))
  else if negb (cron_validate (to_string expression))
  then ret (Reply 400 (Failure (invalid_cron_message (to_string expression))))
  else
    try_catch (
      update_schedule fault (to_string expression) enabled clientId ;;;
      (if on enabled then startJob clientId (to_string expression)
       else stopJob clientId) ;;;
      job_active <- gets (fun s => isActive s clientId) ;;
      ret (Reply 200 (Scheduled clientId (to_string expression) enabled job_active)))
    (fun err => ret (Reply 500 (Failure (message err)))).

(** [DELETE /api/clients/:id/schedule] *)
Definition delete_schedule (fault : option string) (id : string) : M reply :=
  let clientId := parseInt id in
  try_catch (
    stopJob clientId ;;;
    clear_schedule fault clientId ;;;
    ret (Reply 200 Success))
  (fun err => ret (Reply 500 (Failure (message err)))).

(** [PATCH /api/clients/:id/schedule/toggle]; [fault1] is for the
    [SELECT], [fault2] for the [UPDATE]. *)
Definition toggle_schedule `{Libraries} (fault1 fault2 : option string) (id : string)
    : M reply :=
  let clientId := parseInt id in
  try_catch (
    rows <- select_schedule fault1 clientId ;;
    match rows with
    | [] => ret (Reply 404 (Failure "Client not found"))
    | (schedule, schedule_enabled) :: _ =>
        if negb (truthy (from_option Str Null schedule))
        then ret (Reply 400 (Failure "No schedule set"))
        else
          let newEnabled := negb (on schedule_enabled) in
          update_enabled fault2 newEnabled clientId ;;;
          (if newEnabled then startJob clientId (to_string (from_option Str Null schedule))
           else stopJob clientId) ;;;
          job_active <- gets (fun s => isActive s clientId) ;;
          ret (Reply 200 (Toggled newEnabled job_active))
    end)
  (fun err => ret (Reply 500 (Failure (message err)))).

End Schedules.

(* ===================================================================== *)
(** ** Vocabulary of the statements about registry and store together *)
(* ===================================================================== *)

Module Consistency.
Import Gui Registry Schedules.

(** A client whose stored schedule is switched on. *)
Definition scheduled (r : client_row) (e : string) : Prop :=
  c_schedule r = Some e ∧ c_schedule_enabled r = Some true.

(** Registry and store agree: the registry is consistent, client ids are
    unique and below the sequence, every stored expression is one the
    validator accepts, and the registered jobs are exactly the stored
    schedules that are switched on, each under its stored expression. *)
Definition consistent `{Libraries} (s : state) : Prop :=
  registry_ok s ∧
  NoDup (c_id <$> clients s) ∧
  (∀ r, r ∈ clients s → c_id r < clients_id_seq s) ∧
  (∀ r e, r ∈ clients s → c_schedule r = Some e → cron_validate e = true) ∧
  (∀ k, is_Some (activeJobs s !! k) →
     ∃ r e, r ∈ clients s ∧ k = Int (c_id r) ∧ scheduled r e ∧ job s k e) ∧
  (∀ r e, r ∈ clients s → scheduled r e → job s (Int (c_id r)) e).

(** The requests that change registry or store, each with what the store
    does to its statements. *)
Inductive call :=
| PostClient (fault : option string) (name url platform : field)
| DeleteClient (fault : option string) (id : string)
| PutSchedule (fault : option string) (id : string) (expression : field) (enabled : flag)
| DeleteSchedule (fault : option string) (id : string)
| ToggleSchedule (fault1 fault2 : option string) (id : string).

(** The state a request leaves. *)
Definition after `{Libraries} (c : call) (s : state) : state :=
  match c with
  | PostClient fault name url platform => fst (post_clients fault name url platform s)
  | DeleteClient fault id => fst (delete_clients_id fault id s)
  | PutSchedule fault id expression enabled => fst (put_schedule fault id expression enabled s)
  | DeleteSchedule fault id => fst (delete_schedule fault id s)
  | ToggleSchedule fault1 fault2 id => fst (toggle_schedule fault1 fault2 id s)
  end.

(** The requests under which the agreement is kept.  A schedule is
    switched on for a client that exists.  A deletion that reaches the
    store reads the id as the dashboard does; one that does not reach it
    (the store rejects the statement or cannot read the id) has no job
    under its key. *)
Definition admissible `{Libraries} (s : state) (c : call) : Prop :=
  match c with
  | PostClient _ _ _ _ => True
  | DeleteClient fault id =>
      match fault, int4_in id with
      | None, Some z => parseInt id = Int z
      | _, _ => isActive s (parseInt id) = false
      end
  | PutSchedule _ id _ enabled =>
      on (enabled_or_true enabled) = true →
      ∃ r, r ∈ clients s ∧ parseInt id = Int (c_id r)
  | DeleteSchedule fault id =>
      if bool_decide (fault = None) && binds (parseInt id) then True
      else isActive s (parseInt id) = false
  | ToggleSchedule _ _ _ => True
  end.

(** A run of requests, each admissible where it arrives. *)
Fixpoint run `{Libraries} (s : state) (cs : list call) : state :=
  match cs with
  | [] => s
  | c :: cs => run (after c s) cs
  end.

Fixpoint all_admissible `{Libraries} (s : state) (cs : list call) : Prop :=
  match cs with
  | [] => True
  | c :: cs => admissible s c ∧ all_admissible (after c s) cs
  end.

End Consistency.

(* ===================================================================== *)
(** ** A run of requests used in the examples *)
(* ===================================================================== *)

Module Scenario.

(** A run after recovery: client 2 is switched on, client 1 gets a new
    expression switched off, a fourth client is registered and client 3
    is deleted. *)
Definition requests : list Consistency.call :=
  [ Consistency.ToggleSchedule None None "2";
    Consistency.PutSchedule None "1" (Str "0 * * * *") (Schedules.FlagBool false);
    Consistency.PostClient None (Str "four") (Str "https://four.example") Undefined;
    Consistency.DeleteClient None "3" ].

End Scenario.

(* ===================================================================== *)
(** ** waitForDb (both services) *)
(* ===================================================================== *)

Module Boot.

Inductive line :=
| Connected
| Waiting (attempt retries : nat).

(** What the loop leaves behind: the queries sent, the time slept in
    milliseconds, and the lines printed. *)
Record state := State {
  queries : nat;
  slept : Z;
  printed : list line
}.

Abbreviation M := (Eff.M state).

(** [await pool.query("SELECT 1")]; [up i] says whether the query of
    iteration [i] is answered. *)
Definition query (up : nat -> bool) (i : nat) : M unit := fun s =>
  (State (S (queries s)) (slept s) (printed s),
   if up i then Return tt else Throw (new_Error "connect ECONNREFUSED")).

Definition console_log (l : line) : M unit :=
  modify (fun s => State (queries s) (slept s) (printed s ++ [l])).

(** [await new Promise((r) => setTimeout(r, delay))] *)
Definition sleep (delay : Z) : M unit :=
  modify (fun s => State (queries s) (slept s + delay) (printed s)).

(** The iterations [i], [i + 1], ... of the loop, [remaining] of them, and
    the [throw] after it. *)
Fixpoint wait_loop (up : nat -> bool) (retries : nat) (delay : Z)
    (remaining i : nat) : M unit :=
  match remaining with
  | O => throw (new_Error "Could not connect to database")
  | S remaining' =>
      ok <- try_catch (query up i ;;; console_log Connected ;;; ret true)
                      (fun _ => console_log (Waiting (i + 1) retries) ;;;
                                sleep delay ;;;
                                ret false) ;;
      if (ok : bool) then ret tt
      else wait_loop up retries delay remaining' (S i)
  end.

Definition waitForDb (up : nat -> bool) (retries : nat) (delay : Z) : M unit :=
  wait_loop up retries delay retries 0.

End Boot.

(* ===================================================================== *)
(** ** Vocabulary of the statements about the audits table as a whole *)
(* ===================================================================== *)

Module Shapes.
Import Lighthouse Runs.

(** The three shapes of a row: running, with nothing filled in; completed,
    with the five scores and the report; failed, with the error message
    only.  In each the form factor is mobile or desktop. *)
Definition well_shaped (r : audit_row) : Prop :=
  a_form_factor r ∈ ["mobile"; "desktop"] ∧
  ((a_status r = "running" ∧ Forall (fun v => v = None) (persisted_scores r) ∧
    a_report_json r = None ∧ a_error_message r = None) ∨
   (a_status r = "completed" ∧ Forall is_Some (persisted_scores r) ∧
    is_Some (a_report_json r) ∧ a_error_message r = None) ∨
   (a_status r = "failed" ∧ Forall (fun v => v = None) (persisted_scores r) ∧
    a_report_json r = None ∧ is_Some (a_error_message r))).

(** The table holds rows of these shapes only, under distinct ids below
    the sequence. *)
Definition audits_ok (s : state) : Prop :=
  store_ok s ∧
  NoDup (a_id <$> audits s) ∧
  ∀ r, r ∈ audits s → well_shaped r.

(** One invocation of the endpoint: what the store and the engine do, and
    the request. *)
Record invocation := Invocation {
  inv_faults : faults;
  inv_engine : outcome lhr;
  inv_request : request
}.

Fixpoint serve `{Libraries} (s : state) (calls : list invocation) : state :=
  match calls with
  | [] => s
  | i :: calls =>
      serve (fst (audit (inv_faults i) (inv_engine i) (inv_request i) s)) calls
  end.

(** [GET /api/audits/:id/report] of the dashboard, which reads the same
    table. *)
Inductive report_reply :=
| Report (report : lhr)
| NoReport (status : Z) (msg : string).

Definition get_report `{Libraries} (fault : option string) (id : string) : M report_reply :=
  try_catch (
    rows <- rejected fault (
      match int4_in id with
      | None =>
          throw (Error ("invalid input syntax for type integer: " +:+ dquote +:+ id +:+ dquote)
                       (Some "22P02") None)
      | Some z => gets (fun s => a_report_json <$> filter (fun r => a_id r = z) (audits s))
      end) ;;
    match rows with
    | [] => ret (NoReport 404 "Audit not found")
    | None :: _ => ret (NoReport 404 "No report saved for this audit")
    | Some report :: _ => ret (Report report)
    end)
  (fun err => ret (NoReport 500 (message err))).

End Shapes.

(* ===================================================================== *)
(** ** lighthouse/server.js: the browser and its configuration *)
(* ===================================================================== *)

Module Browser.
Import Lighthouse.

Record throttling := Throttling {
  rttMs : Q;
  throughputKbps : Q;
  cpuSlowdownMultiplier : Q;
  requestLatencyMs : Q;
  downloadThroughputKbps : Q;
  uploadThroughputKbps : Q
}.

Record screenEmulation := ScreenEmulation {
  mobile : bool;
  width : Z;
  height : Z;
  deviceScaleFactor : Q;
  disabled : bool
}.

Record config := Config {
  formFactor : string;
  throttling_of : throttling;
  screenEmulation_of : screenEmulation;
  emulatedUserAgent : string
}.

Definition getLighthouseConfig (formFactor : string) : config :=
  if decide (formFactor = "desktop") then
    Config "desktop"
      (Throttling 40 10240 1 0 0 0)
      (ScreenEmulation false 1350 940 1 false)
      ("Mozilla/5.0 (Macintosh; Intel Mac OS X 10_15_7) AppleWebKit/537.36 "
       +:+ "(KHTML, like Gecko) Chrome/120.0.0.0 Safari/537.36")
  else
    Config "mobile"
      (Throttling 150 (16384 # 10) 4 (5625 # 10) (147456 # 100) 675)
      (ScreenEmulation true 360 640 (2625 # 1000) false)
      ("Mozilla/5.0 (Linux; Android 11; moto g power (2022)) AppleWebKit/537.36 "
       +:+ "(KHTML, like Gecko) Chrome/120.0.0.0 Mobile Safari/537.36").

(** The engine process: the store, the browsers launched so far (a
    browser's handle is its number), the handles [kill] was called on, and
    the handler's variable [chrome]. *)
Record process := Process {
  store : Lighthouse.state;
  launched : nat;
  killed : list nat;
  chrome : option nat
}.

Abbreviation M := (Eff.M process).

(** What the machine does during one invocation: whether the launch
    fails, and what importing and running Lighthouse come to for a given
    url, browser and configuration. *)
Record environment := Environment {
  launch_fault : option string;
  run : string -> nat -> config -> outcome lhr
}.

(** A computation on the store, run inside the process. *)
Definition on_store {A} (m : Lighthouse.M A) : M A := fun p =>
  (Process (fst (m (store p))) (launched p) (killed p) (chrome p), snd (m (store p))).

(** [try { body } finally { cleanup }] *)
Definition finally {A} (body : M A) (cleanup : M unit) : M A := fun p =>
  match cleanup (fst (body p)) with
  | (p', Return _) => (p', snd (body p))
  | (p', Throw e) => (p', Throw e)
  end.

Definition set_chrome (c : option nat) : M unit :=
  modify (fun p => Process (store p) (launched p) (killed p) c).

(** [await chromeLauncher.launch(...)] *)
Definition launch (env : environment) : M nat :=
  rejected (launch_fault env) (
    handle <- gets launched ;;
    modify (fun p => Process (store p) (S (launched p)) (killed p) (chrome p)) ;;;
    ret handle).

(** [await chrome.kill().catch(() => {})] *)
Definition kill (handle : nat) : M unit :=
  modify (fun p => Process (store p) (launched p) (killed p ++ [handle]) (chrome p)).

(** [GET /audit], with the browser. *)
Definition audit `{Libraries} (env : environment) (fs : faults) (req : request)
    : M response :=
  let formFactor :=
    if decide (form_factor req = Str "desktop") then "desktop" else "mobile" in
  if negb (truthy (url req))
  then ret (Response 400 (JsonError "`url` query param is required"))
  else if negb (url_parses (to_string (url req)))
  then ret (Response 400 (JsonError "Invalid URL format"))
  else
    set_chrome None ;;;
    auditId <- on_store (create_record fs req formFactor) ;;
    finally
      (try_catch (
         handle <- launch env ;;
         set_chrome (Some handle) ;;;
         let lighthouseConfig := getLighthouseConfig formFactor in
         report <- (fun p => (p, run env (to_string (url req)) handle lighthouseConfig)) ;;
         let sc := extract_scores (categories report) in
         auditId' <- on_store (save_result fs req formFactor auditId sc report) ;;
         ret (Response 200 (JsonAudit (to_string (url req)) formFactor sc auditId')))
       (fun err =>
         on_store (mark_failed fs auditId err) ;;;
         ret (Response 500 (JsonFailure (message err)))))
      (c <- gets chrome ;;
       match c with
       | Some handle => kill handle
       | None => ret tt
       end).

(** The outcome of the engine as the handler without the browser sees
    it. *)
Definition engine_outcome (env : environment) (req : request) (handle : nat)
    : outcome lhr :=
  match launch_fault env with
  | Some msg => Throw (store_error msg)
  | None =>
      run env (to_string (url req)) handle
          (getLighthouseConfig (Runs.form_factor_of req))
  end.

(** The browsers still running: launched and not killed. *)
Definition live (p : process) : list nat :=
  filter (fun h => h ∉ killed p) (seq 0 (launched p)).

End Browser.

(* ===================================================================== *)
(** ** The dashboard asks the engine for an audit *)
(* ===================================================================== *)

Module Dispatch.
Import Gui Schedules.

(** Lines the timer callback writes to the console. *)
Inductive line :=
| LogFiring (clientId : jsint)
| ErrScheduledFailed (clientId : jsint) (msg : string).

(** The two services and the store they share: the dashboard with the
    [clients] table, the [audits] table of the engine, the requests the
    engine has received and the lines of the callback. *)
Record system := System {
  dashboard : Gui.state;
  engine : Lighthouse.state;
  requests : list Lighthouse.request;
  printed : list line
}.

Abbreviation M := (Eff.M system).

Definition on_dashboard {A} (m : Gui.M A) : M A := fun p =>
  (System (fst (m (dashboard p))) (engine p) (requests p) (printed p),
   snd (m (dashboard p))).

Definition on_engine {A} (m : Lighthouse.M A) : M A := fun p =>
  (System (dashboard p) (fst (m (engine p))) (requests p) (printed p),
   snd (m (engine p))).

Definition console (l : line) : M unit :=
  modify (fun p => System (dashboard p) (engine p) (requests p) (printed p ++ [l])).

(** What happens between the services during one [fetch]: the request may
    never arrive ([refused]); when it arrives the engine serves it, with
    what its store and Lighthouse do; the answer may never come back or
    not be JSON ([lost]). *)
Record link := Link {
  refused : option string;
  store_faults : Lighthouse.faults;
  lighthouse : outcome Lighthouse.lhr;
  lost : option string
}.

(** A number in a template literal. *)
Definition number_to_string (k : jsint) : string :=
  match k with
  | NaN => "NaN"
  | Int z => pretty z
  end.

(** The query of
    [`${LIGHTHOUSE_URL}/audit?url=${encodeURIComponent(url)}&client_id=${clientId}&form_factor=${formFactor}`]
    as the engine reads it: the url is protected by [encodeURIComponent];
    the id is a number and the form factor, at both call sites, [mobile]
    or [desktop]. *)
Definition endpoint_query (url : string) (clientId : jsint) (formFactor : string)
    : Lighthouse.request :=
  Lighthouse.Request (Str url) (Str (number_to_string clientId)) (Str formFactor).

(** [await fetch(endpoint, { timeout: 180000 })] followed by
    [await response.json()]. *)
Definition fetch `{Libraries} (l : link) (req : Lighthouse.request)
    : M Lighthouse.response :=
  rejected (refused l) (
    modify (fun p => System (dashboard p) (engine p) (requests p ++ [req]) (printed p)) ;;;
    response <- on_engine (Lighthouse.audit (store_faults l) (lighthouse l) req) ;;
    rejected (lost l) (ret response)).

(** [response.ok] *)
Definition response_ok (r : Lighthouse.response) : bool :=
  (200 <=? Lighthouse.status r) && (Lighthouse.status r <? 300).

(** [data.error] *)
Definition data_error (data : Lighthouse.body) : field :=
  match data with
  | Lighthouse.JsonError msg => Str msg
  | Lighthouse.JsonFailure msg => Str msg
  | Lighthouse.JsonAudit _ _ _ _ => Undefined
  end.

(** [v || d] *)
Definition or_string (v : field) (d : string) : string :=
  if truthy v then to_string v else d.

(** [SELECT * FROM clients WHERE id = $1] *)
Definition select_client (fault : option string) (k : jsint) : Gui.M (list client_row) :=
  where_id fault k (fun z => gets (fun s => filter (fun r => c_id r = z) (clients s))).

Definition runAuditForClient `{Libraries} (fault : option string) (l : link)
    (clientId : jsint) (requestedFormFactor : option string) : M Lighthouse.body :=
  rows <- on_dashboard (select_client fault clientId) ;;
  match rows with
  | [] => throw (new_Error "Client not found")
  | row :: _ =>
      let formFactor := resolveFormFactor (c_platform row) requestedFormFactor in
      response <- fetch l (endpoint_query (c_url row) clientId formFactor) ;;
      let data := Lighthouse.json response in
      if negb (response_ok response)
      then throw (new_Error (or_string (data_error data) "Audit failed"))
      else ret data
  end.

Inductive result :=
| Data (data : Lighthouse.body)
| Err (msg : string).

Record answer := Answer {
  answer_status : Z;
  answer_json : result
}.

(** [req.body?.form_factor === "desktop" ? "desktop" : "mobile"] *)
Definition requested_of (form_factor : field) : string :=
  if decide (form_factor = Str "desktop") then "desktop" else "mobile".

(** [POST /api/clients/:id/audit] with body [{form_factor}]. *)
Definition post_audit `{Libraries} (fault : option string) (l : link) (id : string)
    (form_factor : field) : M answer :=
  let requestedFF := requested_of form_factor in
  try_catch (
    data <- runAuditForClient fault l (parseInt id) (Some requestedFF) ;;
    ret (Answer 200 (Data data)))
  (fun err => ret (Answer 500 (Err (message err)))).

(** The callback [startJob] hands to [cron.schedule]. *)
Definition callback `{Libraries} (fault : option string) (l : link) (clientId : jsint)
    : M unit :=
  console (LogFiring clientId) ;;;
  try_catch (
    runAuditForClient fault l clientId None ;;;
    ret tt)
  (fun err => console (ErrScheduledFailed clientId (message err))).

(** The timer of task [h] comes due: a task still scheduled runs its
    callback, a stopped one does not. *)
Definition tick `{Libraries} (fault : option string) (l : link) (h : nat) : M unit :=
  t <- gets (fun p => tasks (dashboard p) !! h) ;;
  match t with
  | Some t => if running t then callback fault l (client t) else ret tt
  | None => ret tt
  end.

End Dispatch.

(* ===================================================================== *)
(** ** The list of schedules *)
(* ===================================================================== *)

Module Listing.
Import Gui.

(** The answer of [GET /api/schedules]: the rows, each with its
    [job_active], or an error. *)
Inductive listing :=
| Rows (rows : list (client_row * bool))
| Failed (status : Z) (msg : string).

(** [SELECT id, name, url, platform, schedule, schedule_enabled FROM
    clients WHERE schedule IS NOT NULL ORDER BY name]; [sort] is the order
    of the store's collation on names. *)
Definition select_schedules (sort : list client_row -> list client_row)
    (fault : option string) : M (list client_row) :=
  rejected fault (
    gets (fun s => sort (filter (fun r => is_Some (c_schedule r)) (clients s)))).

(** [GET /api/schedules] *)
Definition get_schedules (sort : list client_row -> list client_row)
    (fault : option string) : M listing :=
  try_catch (
    rows <- select_schedules sort fault ;;
    s <- gets (fun s => s) ;;
    ret (Rows ((fun r => (r, isActive s (Int (c_id r)))) <$> rows)))
  (fun err => ret (Failed 500 (message err))).

End Listing.

(* ===================================================================== *)
(** ** Start-up of the two services *)
(* ===================================================================== *)

Module Startup.

(** A service at start-up: the wait for the store, the state of the
    service itself, and whether it listens. *)
Record process (S : Type) := Process {
  db : Boot.state;
  service : S;
  listening : bool
}.
Arguments Process {S}.
Arguments db {S}.
Arguments service {S}.
Arguments listening {S}.






End Startup.

(* ===================================================================== *)
(** ** The job registry: one timer per client *)
(* ===================================================================== *)

Section RegistryFacts.
Import Gui Registry.
Context `{L : Libraries}.

Lemma stopJob_eq id s :
  stopJob id s =
  (match activeJobs s !! id with
   | Some h => State (delete id (activeJobs s)) (alter stop h (tasks s))
                     (console s) (clients s) (clients_id_seq s)
   | None => s
   end, Return tt).
Proof.
  unfold stopJob, bind, gets; simpl.
  destruct (activeJobs s !! id); reflexivity.
Qed.

Lemma startJob_eq id e s :
  startJob id e s =
  let s1 := fst (stopJob id s) in
  if cron_validate e
  then (State (<[id := length (tasks s1)]> (activeJobs s1))
              (tasks s1 ++ [Task e id true])
              (console s1 ++ [LogScheduled id e])
              (clients s1) (clients_id_seq s1), Return tt)
  else (s1, Throw (new_Error (invalid_cron_message e))).
Proof.
  unfold startJob, bind. rewrite stopJob_eq. simpl.
  destruct (cron_validate e); reflexivity.
Qed.

Lemma stopJob_returns id s : snd (stopJob id s) = Return tt.
Proof. by rewrite stopJob_eq. Qed.

Lemma stopJob_lookup id id' s :
  activeJobs (fst (stopJob id s)) !! id' =
  if decide (id = id') then None else activeJobs s !! id'.
Proof.
  rewrite stopJob_eq; simpl.
  destruct (activeJobs s !! id) eqn:E; simpl.
  - rewrite lookup_delete. by repeat case_decide.
  - case_decide; congruence.
Qed.

Lemma stopJob_inactive id s : isActive (fst (stopJob id s)) id = false.
Proof.
  unfold isActive. rewrite stopJob_lookup, decide_True by done.
  apply bool_decide_eq_false. by intros [? ?].
Qed.

Lemma stopJob_ok id s : registry_ok s → registry_ok (fst (stopJob id s)).
Proof.
  intros [Hreg Hrun]. rewrite stopJob_eq; simpl.
  destruct (activeJobs s !! id) as [h0|] eqn:E; [|by split].
  destruct (Hreg _ _ E) as [e0 He0].
  split; simpl.
  - intros id' h [Hne Hl]%lookup_delete_Some.
    destruct (Hreg _ _ Hl) as [e He]. exists e.
    rewrite list_lookup_alter_ne; [done|].
    intros ->. congruence.
  - intros h t Ht Hr.
    destruct (decide (h0 = h)) as [->|Hne].
    + rewrite list_lookup_alter_eq, He0 in Ht. by simplify_eq/=.
    + rewrite list_lookup_alter_ne in Ht by done.
      specialize (Hrun _ _ Ht Hr).
      rewrite lookup_delete_ne; [done|].
      intros Heq. congruence.
Qed.

Lemma startJob_ok id e s : registry_ok s → registry_ok (fst (startJob id e s)).
Proof.
  intros Hok. rewrite startJob_eq; simpl.
  pose proof (stopJob_ok id s Hok) as [Hreg Hrun].
  pose proof (stopJob_lookup id id s) as Hnone. rewrite decide_True in Hnone by done.
  destruct (cron_validate e); simpl; [|by split].
  set (s1 := fst (stopJob id s)) in *.
  split; simpl.
  - intros id' h [[<- <-]|[Hne Hl]]%lookup_insert_Some.
    + exists e. by rewrite list_lookup_middle.
    + destruct (Hreg _ _ Hl) as [e' He']. exists e'.
      rewrite lookup_app_l; [done|]. by eapply lookup_lt_Some.
  - intros h t [[Hlt Ht]|[-> <-]]%lookup_snoc_Some Hr; simpl.
    + specialize (Hrun _ _ Ht Hr).
      rewrite lookup_insert_ne; [done|]. intros Heq. congruence.
    + by rewrite lookup_insert_eq.
Qed.

Lemma boot_ok rows seq : registry_ok (boot rows seq).
Proof. split; simpl; intros *; [by rewrite lookup_empty|done]. Qed.

Lemma run_op_ok o s : registry_ok s → registry_ok (fst (run_op o s)).
Proof. destruct o; simpl; auto using startJob_ok, stopJob_ok. Qed.

Lemma exec_ok ops s : registry_ok s → registry_ok (exec s ops).
Proof.
  revert s. induction ops as [|o ops IH]; intros s Hok; [done|].
  simpl. apply IH. by apply run_op_ok.
Qed.

Lemma filter_none {A} (P : A → Prop) `{∀ x, Decision (P x)} (l : list A) :
  (∀ x, x ∈ l → ¬ P x) → filter P l = [].
Proof.
  induction l as [|x l IH]; intros Hno; [done|].
  rewrite filter_cons_False by (apply Hno; left).
  apply IH. intros y Hy. apply Hno. by right.
Qed.

(** A list in which a property holds at one position at most keeps at most
    one element under the filter. *)
Lemma filter_at_most_one {A} (P : A → Prop) `{∀ x, Decision (P x)} (l : list A) :
  (∀ i j x y, l !! i = Some x → l !! j = Some y → P x → P y → i = j) →
  (length (filter P l) ≤ 1)%nat.
Proof.
  induction l as [|x l IH]; intros Huniq; simpl; [lia|].
  rewrite filter_cons. case_decide as Hx.
  - assert (filter P l = []) as ->; [|simpl; lia].
    apply filter_none. intros y [j Hj]%list_elem_of_lookup Hy.
    by specialize (Huniq 0%nat (S j) x y eq_refl Hj Hx Hy).
  - apply IH. intros i j a b Hi Hj Ha Hb.
    by specialize (Huniq (S i) (S j) a b Hi Hj Ha Hb); simplify_eq.
Qed.

Lemma live_timers_at_most_one s id :
  registry_ok s → (length (live_timers s id) ≤ 1)%nat.
Proof.
  intros [_ Hrun]. apply filter_at_most_one.
  intros i j x y Hi Hj [Hcx Hrx] [Hcy Hry].
  pose proof (Hrun _ _ Hi Hrx) as H1. pose proof (Hrun _ _ Hj Hry) as H2.
  rewrite Hcx in H1. rewrite Hcy in H2. congruence.
Qed.

Lemma live_timers_inactive s id :
  registry_ok s → activeJobs s !! id = None → live_timers s id = [].
Proof.
  intros [_ Hrun] Hnone. apply filter_none.
  intros t [h Ht]%list_elem_of_lookup [Hc Hr].
  specialize (Hrun _ _ Ht Hr). congruence.
Qed.

Lemma startJob_valid_live id e s :
  registry_ok s → cron_validate e = true →
  live_timers (fst (startJob id e s)) id = [Task e id true].
Proof.
  intros Hok Hv. rewrite startJob_eq; simpl. rewrite Hv; simpl.
  unfold live_timers; simpl. rewrite filter_app.
  fold (live_timers (fst (stopJob id s)) id).
  rewrite live_timers_inactive.
  - by rewrite filter_cons_True.
  - by apply stopJob_ok.
  - by rewrite stopJob_lookup, decide_True.
Qed.

Lemma startJob_valid_job id e s :
  cron_validate e = true → job (fst (startJob id e s)) id e.
Proof.
  intros Hv. rewrite startJob_eq; simpl. rewrite Hv; simpl.
  eexists. split; simpl; [by rewrite lookup_insert_eq|].
  by rewrite list_lookup_middle.
Qed.

Lemma startJob_valid_returns id e s :
  cron_validate e = true → snd (startJob id e s) = Return tt.
Proof. intros Hv. rewrite startJob_eq; simpl. by rewrite Hv. Qed.

Lemma filter_alter_irrelevant {A} (P : A → Prop) `{∀ x, Decision (P x)}
    (f : A → A) (l : list A) (i : nat) :
  (∀ x, l !! i = Some x → ¬ P x ∧ ¬ P (f x)) →
  filter P (alter f i l) = filter P l.
Proof.
  revert i. induction l as [|x l IH]; intros [|i] Hi; try done.
  - destruct (Hi x eq_refl) as [Hx Hfx].
    change (alter f 0%nat (x :: l)) with (f x :: l).
    by rewrite !filter_cons, !decide_False.
  - change (alter f (S i) (x :: l)) with (x :: alter f i l).
    rewrite !filter_cons, IH; [done|]. intros y Hy. by apply Hi.
Qed.

Lemma stopJob_live_other id id' s :
  registry_ok s → id' ≠ id →
  live_timers (fst (stopJob id s)) id' = live_timers s id'.
Proof.
  intros [Hreg _] Hne. rewrite stopJob_eq; simpl.
  destruct (activeJobs s !! id) as [h0|] eqn:E; [|done].
  unfold live_timers; simpl. apply filter_alter_irrelevant.
  destruct (Hreg _ _ E) as [e0 He0]. intros t Ht.
  rewrite He0 in Ht. simplify_eq/=. split; intros [? ?]; congruence.
Qed.

Lemma stopJob_unchanged id s : isActive s id = false → fst (stopJob id s) = s.
Proof.
  unfold isActive. intros Hn%bool_decide_eq_false. rewrite stopJob_eq; simpl.
  destruct (activeJobs s !! id) eqn:E; [|done]. destruct Hn; eauto.
Qed.

Lemma stopJob_frame id s :
  length (tasks (fst (stopJob id s))) = length (tasks s) ∧
  console (fst (stopJob id s)) = console s ∧
  clients (fst (stopJob id s)) = clients s ∧
  clients_id_seq (fst (stopJob id s)) = clients_id_seq s.
Proof.
  rewrite stopJob_eq; simpl.
  destruct (activeJobs s !! id); simpl; [|done].
  by rewrite length_alter.
Qed.

(** X1.  [stopJob] leaves the client inactive, and a second call changes
    nothing. *)
Theorem stopJob_idempotent (id : jsint) (s : state) :
  isActive (fst (stopJob id s)) id = false ∧
  stopJob id (fst (stopJob id s)) = (fst (stopJob id s), Return tt).
Proof.
  split; [apply stopJob_inactive|].
  rewrite (stopJob_eq id (fst (stopJob id s))).
  by rewrite stopJob_lookup, decide_True.
Qed.

(** C1.  In every state the registry can reach from boot through calls of
    [startJob] and [stopJob] (failing calls included), a client has at most
    one live timer.  Two starts in a row with valid expressions leave
    exactly one live timer for the client, the registered one, and it runs
    under the second expression: the first timer is stopped, and it is
    stopped before the second is installed. *)
Theorem registry_one_timer_per_client
    (rows : list client_row) (seq : Z) (ops : list op)
    (id : jsint) (e1 e2 : string) :
  cron_validate e1 = true → cron_validate e2 = true →
  let s := exec (boot rows seq) ops in
  let s1 := fst (startJob id e1 s) in
  let s2 := fst (startJob id e2 s1) in
  (∀ id', (length (live_timers s id') ≤ 1)%nat) ∧
  snd (startJob id e1 s) = Return tt ∧ snd (startJob id e2 s1) = Return tt ∧
  live_timers s2 id = [Task e2 id true] ∧
  job s2 id e2 ∧
  (∃ h1, activeJobs s1 !! id = Some h1 ∧
         tasks s1 !! h1 = Some (Task e1 id true) ∧
         tasks s2 !! h1 = Some (Task e1 id false)) ∧
  live_timers (fst (stopJob id s1)) id = [].
Proof.
  intros Hv1 Hv2 s s1 s2.
  assert (registry_ok s) as Hs by (apply exec_ok, boot_ok).
  assert (registry_ok s1) as Hs1 by by apply startJob_ok.
  split; [intros id'; by apply live_timers_at_most_one|].
  split; [by apply startJob_valid_returns|].
  split; [by apply startJob_valid_returns|].
  split; [by apply startJob_valid_live|].
  split; [by apply startJob_valid_job|].
  split.
  - destruct (startJob_valid_job id e1 s Hv1) as (h1 & Ha & Ht).
    fold s1 in Ha, Ht. exists h1. split; [done|]. split; [done|].
    subst s2. rewrite startJob_eq; simpl. rewrite Hv2; simpl.
    rewrite stopJob_eq; simpl. rewrite Ha; simpl.
    rewrite lookup_app_l by (rewrite length_alter; by eapply lookup_lt_Some).
    by rewrite list_lookup_alter_eq, Ht.
  - apply live_timers_inactive; [by apply stopJob_ok|].
    by rewrite stopJob_lookup, decide_True.
Qed.

(** C2, as the code has it.  [startJob] stops and discards the client's
    existing timer before it validates.  With a malformed expression it
    then throws and installs nothing: the client is left without an active
    timer, every other client keeps its entry and its timers, no task is
    created and nothing is logged; the state is unchanged only when the
    client had no timer. *)
Theorem startJob_invalid_after_stop (s : state) (id : jsint) (e : string) :
  cron_validate e = false →
  let s' := fst (startJob id e s) in
  startJob id e s = (fst (stopJob id s), Throw (new_Error (invalid_cron_message e))) ∧
  isActive s' id = false ∧
  (∀ id', id' ≠ id → activeJobs s' !! id' = activeJobs s !! id') ∧
  length (tasks s') = length (tasks s) ∧
  console s' = console s ∧
  clients s' = clients s ∧
  (isActive s id = false → s' = s) ∧
  (registry_ok s →
     live_timers s' id = [] ∧
     ∀ id', id' ≠ id → live_timers s' id' = live_timers s id').
Proof.
  intros Hv s'. subst s'. rewrite startJob_eq; simpl. rewrite Hv; simpl.
  destruct (stopJob_frame id s) as (Hlen & Hcon & Hcl & _).
  repeat split; try done.
  - apply stopJob_inactive.
  - intros id' Hne. by rewrite stopJob_lookup, decide_False.
  - apply stopJob_unchanged.
  - apply live_timers_inactive; [by apply stopJob_ok|].
    by rewrite stopJob_lookup, decide_True.
  - intros id' Hne. by apply stopJob_live_other.
Qed.

Lemma restore_one_eq s id e :
  restore_one s (id, e) =
  if cron_validate e then fst (startJob (Int id) e s)
  else set_console (fun c => c ++ [WarnBadSchedule id (invalid_cron_message e)])
                   (fst (stopJob (Int id) s)).
Proof.
  unfold restore_one, try_catch; simpl. rewrite startJob_eq; simpl.
  destruct (cron_validate e); reflexivity.
Qed.

Lemma restore_rows_eq rows s :
  restore_rows rows s = (foldl restore_one s rows, Return tt).
Proof.
  revert s. induction rows as [|[id e] rows IH]; intros s; [done|].
  simpl. unfold bind at 1. unfold restore_one at 2; simpl.
  destruct (try_catch _ _ s) as [s1 [[]|err]] eqn:E; simpl.
  - apply IH.
  - exfalso. unfold try_catch in E.
    destruct (startJob (Int id) e s) as [s2 [[]|err2]]; [done|].
    unfold console_log, modify in E. congruence.
Qed.

Lemma initSchedules_eq fault s :
  initSchedules fault s =
  (match fault with
   | Some msg => set_console (fun c => c ++ [ErrRestoreFailed msg]) s
   | None => set_console (fun c => c ++ [LogRestored (length (candidates s))])
                         (foldl restore_one s (candidates s))
   end, Return tt).
Proof.
  unfold initSchedules, try_catch, bind, select_enabled_schedules, rejected.
  destruct fault as [msg|]; [done|].
  unfold gets at 1. rewrite restore_rows_eq. reflexivity.
Qed.

Lemma set_console_ok f s : registry_ok s → registry_ok (set_console f s).
Proof. by intros [? ?]. Qed.

Lemma restore_one_ok s row : registry_ok s → registry_ok (restore_one s row).
Proof.
  destruct row as [id e]. intros Hok. rewrite restore_one_eq.
  destruct (cron_validate e); [by apply startJob_ok|].
  by apply set_console_ok, stopJob_ok.
Qed.

Lemma restore_all_ok rows s : registry_ok s → registry_ok (foldl restore_one s rows).
Proof.
  revert s. induction rows as [|row rows IH]; intros s Hok; [done|].
  simpl. by apply IH, restore_one_ok.
Qed.

(** A call for one client leaves the entries and timers of the others. *)
Lemma startJob_lookup_other id id' e s :
  id' ≠ id → activeJobs (fst (startJob id e s)) !! id' = activeJobs s !! id'.
Proof.
  intros Hne. rewrite startJob_eq; simpl.
  destruct (cron_validate e); simpl.
  - rewrite lookup_insert_ne by done. by rewrite stopJob_lookup, decide_False.
  - by rewrite stopJob_lookup, decide_False.
Qed.

Lemma startJob_live_other id id' e s :
  registry_ok s → id' ≠ id →
  live_timers (fst (startJob id e s)) id' = live_timers s id'.
Proof.
  intros Hok Hne. rewrite startJob_eq; simpl.
  destruct (cron_validate e); simpl; [|by apply stopJob_live_other].
  unfold live_timers; simpl. rewrite filter_app.
  fold (live_timers (fst (stopJob id s)) id'). rewrite stopJob_live_other by done.
  rewrite filter_cons_False; [by rewrite app_nil_r|]. simpl. intros [? ?]. congruence.
Qed.

Lemma restore_one_other s id e id' :
  registry_ok s → id' ≠ Int id →
  activeJobs (restore_one s (id, e)) !! id' = activeJobs s !! id' ∧
  live_timers (restore_one s (id, e)) id' = live_timers s id'.
Proof.
  intros Hok Hne. rewrite restore_one_eq.
  destruct (cron_validate e) eqn:Hv.
  - split; [by apply startJob_lookup_other|by apply startJob_live_other].
  - split; simpl.
    + by rewrite stopJob_lookup, decide_False.
    + by apply (stopJob_live_other (Int id) id' s).
Qed.

Lemma restore_all_other rows s id' :
  registry_ok s → (∀ id, id' = Int id → id ∉ rows.*1) →
  activeJobs (foldl restore_one s rows) !! id' = activeJobs s !! id' ∧
  live_timers (foldl restore_one s rows) id' = live_timers s id'.
Proof.
  revert s. induction rows as [|[id e] rows IH]; intros s Hok Hnot; [done|].
  simpl.
  assert (id' ≠ Int id) as Hne.
  { intros ->. apply (Hnot id eq_refl). simpl. left. }
  destruct (restore_one_other s id e id' Hok Hne) as [Ha Hl].
  destruct (IH (restore_one s (id, e))) as [Ha' Hl'].
  - by apply restore_one_ok.
  - intros z Hz Hin. apply (Hnot z Hz). simpl. by right.
  - split; congruence.
Qed.

Lemma console_restore_one s row :
  ∃ k, console (restore_one s row) = console s ++ k.
Proof.
  destruct row as [id e]. rewrite restore_one_eq.
  destruct (stopJob_frame (Int id) s) as (_ & Hc & _).
  destruct (cron_validate e) eqn:Hv.
  - rewrite startJob_eq; simpl. rewrite Hv; simpl. rewrite Hc. eauto.
  - simpl. rewrite Hc. eauto.
Qed.

Lemma console_restore_all rows s :
  ∃ k, console (foldl restore_one s rows) = console s ++ k.
Proof.
  revert s. induction rows as [|row rows IH]; intros s; simpl.
  - exists []. by rewrite app_nil_r.
  - destruct (console_restore_one s row) as [k1 H1].
    destruct (IH (restore_one s row)) as [k2 H2].
    exists (k1 ++ k2). by rewrite H2, H1, app_assoc.
Qed.

Lemma job_live s id e :
  registry_ok s → job s id e → live_timers s id = [Task e id true].
Proof.
  intros Hok (h & Ha & Ht).
  pose proof (live_timers_at_most_one s id Hok) as Hlen.
  assert (Task e id true ∈ live_timers s id) as Hin.
  { apply list_elem_of_filter. split; [done|]. by eapply list_elem_of_lookup_2. }
  destruct (live_timers s id) as [|t [|t' l]]; simpl in Hlen; try lia.
  - by apply elem_of_nil in Hin.
  - apply list_elem_of_singleton in Hin. by subst.
Qed.

(** What recovery does for one fetched row, when no other row names the
    same client. *)
Lemma restore_all_row rows s id e :
  registry_ok s → NoDup rows.*1 → (id, e) ∈ rows →
  let s' := foldl restore_one s rows in
  if cron_validate e
  then job s' (Int id) e
  else activeJobs s' !! Int id = None ∧
       WarnBadSchedule id (invalid_cron_message e) ∈ console s'.
Proof.
  revert s. induction rows as [|[id0 e0] rows IH]; intros s Hok Hnd Hin; simpl.
  { by apply elem_of_nil in Hin. }
  simpl in Hnd. apply NoDup_cons in Hnd as [Hfresh Hnd].
  apply elem_of_cons in Hin as [Heq|Hin].
  - simplify_eq.
    pose proof (restore_one_ok s (id0, e0) Hok) as Hok1.
    destruct (restore_all_other rows (restore_one s (id0, e0)) (Int id0) Hok1)
      as [Ha Hl].
    { intros z Hz. by simplify_eq. }
    destruct (console_restore_all rows (restore_one s (id0, e0))) as [k Hk].
    pose proof (restore_all_ok rows _ Hok1) as Hok'.
    rewrite restore_one_eq in Ha, Hl, Hk, Hok1, Hok' |- *.
    destruct (cron_validate e0) eqn:Hv.
    + pose proof (job_live _ _ _ Hok1 (startJob_valid_job (Int id0) e0 s Hv)) as Hone.
      rewrite Hone in Hl.
      assert (Task e0 (Int id0) true
                ∈ live_timers (foldl restore_one (fst (startJob (Int id0) e0 s)) rows)
                    (Int id0)) as Hin.
      { rewrite Hl. left. }
      apply list_elem_of_filter in Hin as [[_ Hr] [h Hh]%list_elem_of_lookup].
      destruct Hok' as [_ Hrun]. specialize (Hrun _ _ Hh Hr). simpl in Hrun.
      by exists h.
    + split.
      * rewrite Ha. simpl. by rewrite stopJob_lookup, decide_True.
      * rewrite Hk. simpl. apply elem_of_app. left. apply elem_of_app. right. left.
  - apply IH; [by apply restore_one_ok|done|done].
Qed.

Lemma candidates_ids (l : list client_row) id :
  id ∈ (omap enabled_schedule l).*1 → id ∈ c_id <$> l.
Proof.
  intros [[id' e] [-> [r [Hr He]]%list_elem_of_omap]]%list_elem_of_fmap.
  apply list_elem_of_fmap. exists r. split; [|done].
  unfold enabled_schedule in He.
  destruct (c_schedule r), (c_schedule_enabled r) as [[]|]; by simplify_eq.
Qed.

Lemma candidates_NoDup (l : list client_row) :
  NoDup (c_id <$> l) → NoDup (omap enabled_schedule l).*1.
Proof.
  induction l as [|r l IH]; simpl; [constructor|].
  intros [Hfresh Hnd]%NoDup_cons.
  destruct (enabled_schedule r) as [[id e]|] eqn:He; simpl; [|by apply IH].
  apply NoDup_cons. split; [|by apply IH].
  intros Hin%candidates_ids.
  unfold enabled_schedule in He.
  destruct (c_schedule r), (c_schedule_enabled r) as [[]|]; by simplify_eq.
Qed.

Lemma ids_determine_row (l : list client_row) r r' :
  NoDup (c_id <$> l) → r ∈ l → r' ∈ l → c_id r = c_id r' → r = r'.
Proof.
  induction l as [|x l IH]; simpl; intros Hnd Hr Hr' Heq.
  { by apply elem_of_nil in Hr. }
  apply NoDup_cons in Hnd as [Hfresh Hnd].
  apply elem_of_cons in Hr as [->|Hr]; apply elem_of_cons in Hr' as [->|Hr'].
  - done.
  - destruct Hfresh. rewrite Heq. by apply list_elem_of_fmap_2.
  - destruct Hfresh. rewrite <- Heq. by apply list_elem_of_fmap_2.
  - by apply IH.
Qed.

(** C5.  Recovery isolates the clients from one another.  Over any stored
    clients (ids unique, as the primary key makes them) and from any
    consistent registry: [initSchedules] returns without throwing, whether
    or not the store answers; when it answers, every enabled client with a
    valid expression has its job started under that expression, every
    enabled client with an invalid one is logged and left without a job,
    wherever it stands among the others, and a client with no schedule or
    with the flag off keeps the registry entry and timers it had. *)
Theorem initSchedules_isolates_failures (s : state) :
  registry_ok s → NoDup (c_id <$> clients s) →
  let s' := fst (initSchedules None s) in
  (∀ fault, snd (initSchedules fault s) = Return tt) ∧
  (∀ r e, r ∈ clients s → c_schedule r = Some e → c_schedule_enabled r = Some true →
     cron_validate e = true →
     job s' (Int (c_id r)) e ∧
     live_timers s' (Int (c_id r)) = [Task e (Int (c_id r)) true]) ∧
  (∀ r e, r ∈ clients s → c_schedule r = Some e → c_schedule_enabled r = Some true →
     cron_validate e = false →
     isActive s' (Int (c_id r)) = false ∧
     WarnBadSchedule (c_id r) (invalid_cron_message e) ∈ console s') ∧
  (∀ r, r ∈ clients s → c_schedule r = None ∨ c_schedule_enabled r ≠ Some true →
     activeJobs s' !! Int (c_id r) = activeJobs s !! Int (c_id r) ∧
     live_timers s' (Int (c_id r)) = live_timers s (Int (c_id r))).
Proof.
  intros Hok Hnd s'.
  assert (∀ r e, r ∈ clients s → c_schedule r = Some e →
            c_schedule_enabled r = Some true → (c_id r, e) ∈ candidates s) as Hcand.
  { intros r e Hr Hs He. apply list_elem_of_omap. exists r. split; [done|].
    unfold enabled_schedule. by rewrite Hs, He. }
  pose proof (candidates_NoDup _ Hnd) as Hnd'. fold (candidates s) in Hnd'.
  pose proof (restore_all_ok (candidates s) s Hok) as Hok'.
  subst s'. rewrite initSchedules_eq; simpl.
  split; [intros fault; by rewrite initSchedules_eq|].
  split; [|split].
  - intros r e Hr Hs He Hv.
    pose proof (restore_all_row _ s _ _ Hok Hnd' (Hcand r e Hr Hs He)) as Hrow.
    simpl in Hrow. rewrite Hv in Hrow.
    split; [done|]. by apply (job_live _ _ _ Hok').
  - intros r e Hr Hs He Hv.
    pose proof (restore_all_row _ s _ _ Hok Hnd' (Hcand r e Hr Hs He)) as Hrow.
    simpl in Hrow. rewrite Hv in Hrow. destruct Hrow as [Hnone Hlog].
    split.
    + unfold isActive; simpl. rewrite Hnone.
      apply bool_decide_eq_false. by intros [? ?].
    + apply elem_of_app. by left.
  - intros r Hr Hoff.
    apply (restore_all_other (candidates s) s (Int (c_id r)) Hok).
    intros z [= <-] [[id' e] [Hid [r' [Hr' He']]%list_elem_of_omap]]%list_elem_of_fmap.
    simpl in Hid. subst id'.
    assert (c_id r = c_id r') as Heq.
    { unfold enabled_schedule in He'.
      destruct (c_schedule r'), (c_schedule_enabled r') as [[]|]; by simplify_eq. }
    pose proof (ids_determine_row _ _ _ Hnd Hr Hr' Heq) as <-.
    unfold enabled_schedule in He'.
    destruct Hoff as [Hnull|Hflag].
    + by rewrite Hnull in He'.
    + destruct (c_schedule r), (c_schedule_enabled r) as [[]|]; by simplify_eq.
Qed.

End RegistryFacts.

Section RegistryExamples.
Import Sample.
#[local] Existing Instance Sample.libraries.

(** The invariant and the replacement on a registry that has seen a start
    for another expression and a stop for another client. *)
Lemma registry_one_timer_per_client_witness :
  Registry.live_timers
    (fst (Gui.startJob (Int 1) "0 3 * * *"
       (fst (Gui.startJob (Int 1) "*/5 * * * *"
          (Registry.exec (Gui.boot [] 1)
             [Registry.Start (Int 1) "0 * * * *"; Registry.Stop (Int 2)])))))
    (Int 1)
  = [Gui.Task "0 3 * * *" (Int 1) true].
Proof.
  exact (proj1 (proj2 (proj2 (proj2
    (registry_one_timer_per_client (L := Sample.libraries) [] 1
       [Registry.Start (Int 1) "0 * * * *"; Registry.Stop (Int 2)]
       (Int 1) "*/5 * * * *" "0 3 * * *" eq_refl eq_refl))))).
Defined.

(** C2 fails as stated: a start with a malformed expression on a client
    whose timer is active throws, and the timer is gone. *)
Lemma startJob_invalid_changes_registry :
  let s0 := fst (Gui.startJob (Int 1) "*/5 * * * *" (Gui.boot [] 1)) in
  let r := Gui.startJob (Int 1) "not-a-cron" s0 in
  Gui.isActive s0 (Int 1) = true ∧
  Registry.live_timers s0 (Int 1) = [Gui.Task "*/5 * * * *" (Int 1) true] ∧
  snd r = Throw (new_Error (Gui.invalid_cron_message "not-a-cron")) ∧
  Gui.isActive (fst r) (Int 1) = false ∧
  Registry.live_timers (fst r) (Int 1) = [].
Proof. vm_compute. repeat split; reflexivity. Qed.

(** The same start, read off the theorem: the client is inactive after
    the failed call. *)
Lemma startJob_invalid_after_stop_witness :
  Gui.isActive
    (fst (Gui.startJob (Int 1) "not-a-cron"
       (fst (Gui.startJob (Int 1) "*/5 * * * *" (Gui.boot [] 1)))))
    (Int 1) = false.
Proof.
  exact (proj1 (proj2
    (startJob_invalid_after_stop (L := Sample.libraries)
       (fst (Gui.startJob (Int 1) "*/5 * * * *" (Gui.boot [] 1)))
       (Int 1) "not-a-cron" eq_refl))).
Defined.

(** The recovery example: client 1 is restored, client 2 is skipped,
    client 3 is ignored, and the call returns. *)
Lemma initSchedules_isolates_failures_witness :
  let s' := fst (Gui.initSchedules None (Gui.boot stored 4)) in
  snd (Gui.initSchedules None (Gui.boot stored 4)) = Return tt ∧
  Registry.job s' (Int 1) "*/5 * * * *" ∧
  Gui.isActive s' (Int 2) = false ∧
  Gui.activeJobs s' !! Int 3 = None.
Proof.
  destruct (initSchedules_isolates_failures (L := Sample.libraries)
              (Gui.boot stored 4) (boot_ok stored 4))
    as (Hret & Hvalid & Hinvalid & Hoff).
  { compute_done. }
  split; [apply Hret|].
  split.
  { apply (Hvalid (Gui.Client 1 "one" "https://one.example" "both"
                     (Some "*/5 * * * *") (Some true)));
      [compute_done|reflexivity|reflexivity|reflexivity]. }
  split.
  { apply (Hinvalid (Gui.Client 2 "two" "https://two.example" "both"
                       (Some "not-a-cron") (Some true)) "not-a-cron");
      [compute_done|reflexivity|reflexivity|reflexivity]. }
  apply (Hoff (Gui.Client 3 "three" "https://three.example" "both" None (Some false)));
    [compute_done|by left].
Defined.

(** C6, what the code does.  The count [initSchedules] prints last is the
    number of rows it fetched, whatever became of them.  At the recovery
    example two rows are fetched and one job is started: the registry
    holds one job, and the line says two were restored. *)
Theorem initSchedules_counts_fetched_rows :
  (∀ (L : Libraries) (s : Gui.state),
     last (Gui.console (fst (@Gui.initSchedules L None s))) =
     Some (Gui.LogRestored (length (Registry.candidates s)))) ∧
  let s' := fst (Gui.initSchedules None (Gui.boot stored 4)) in
  Gui.console s' =
    [ Gui.LogScheduled (Int 1) "*/5 * * * *";
      Gui.WarnBadSchedule 2 (Gui.invalid_cron_message "not-a-cron");
      Gui.LogRestored 2 ] ∧
  size (Gui.activeJobs s') = 1%nat ∧
  Gui.isActive s' (Int 1) = true ∧
  Gui.isActive s' (Int 2) = false.
Proof.
  split.
  - intros L s. rewrite initSchedules_eq; simpl. apply last_snoc.
  - vm_compute. repeat split; reflexivity.
Qed.

End RegistryExamples.

(* ===================================================================== *)
(** ** The dashboard's handlers *)
(* ===================================================================== *)

Section GuiHandlers.
Import Gui Registry.
Context `{L : Libraries}.

(** C4.  [resolveFormFactor] is a function of its two arguments, defined
    on all of them.  For a platform among mobile, desktop and both: a
    platform of mobile or desktop is returned whatever is requested, also
    when nothing is; for both the result is the requested form factor
    (mobile when none is given); and the result is mobile or desktop
    whenever the requested form factor is. *)
Theorem resolveFormFactor_total (platform : string) (requested : option string) :
  platform ∈ ["mobile"; "desktop"; "both"] →
  (platform ∈ ["mobile"; "desktop"] → resolveFormFactor platform requested = platform) ∧
  (platform = "both" →
     resolveFormFactor platform requested = default "mobile" requested) ∧
  (default "mobile" requested ∈ ["mobile"; "desktop"] →
     resolveFormFactor platform requested ∈ ["mobile"; "desktop"]).
Proof.
  intros Hp. unfold resolveFormFactor.
  split; [|split].
  - intros Hp'. repeat case_decide; try done.
    apply elem_of_cons in Hp' as [?|Hp']; [done|].
    by apply list_elem_of_singleton in Hp'.
  - intros ->. by repeat case_decide.
  - intros Hf. repeat case_decide; [compute_done|compute_done|done].
Qed.

Lemma stopJob_registry id s :
  activeJobs (fst (stopJob id s)) = delete id (activeJobs s).
Proof.
  rewrite stopJob_eq; simpl.
  destruct (activeJobs s !! id) eqn:E; simpl; [done|].
  by rewrite delete_id.
Qed.

(** C10.  [DELETE /api/clients/:id] stops the job registered under
    [parseInt(id)] before it issues the delete: whatever the id, the
    registry and the store, the handler returns a response and the key is
    inactive afterwards, also when the delete is rejected.  When the store
    executes the delete the answer is 200 with [{success: true}], whether
    or not a row had that id; with no such row the table is unchanged. *)
Theorem delete_client_stops_job_first (fault : option string) (id : string) (s : state) :
  let r := delete_clients_id fault id s in
  (∃ resp, snd r = Return resp) ∧
  isActive (fst r) (parseInt id) = false ∧
  activeJobs (fst r) = delete (parseInt id) (activeJobs s) ∧
  (registry_ok s → live_timers (fst r) (parseInt id) = []) ∧
  (∀ z, fault = None → int4_in id = Some z →
     snd r = Return (Response 200 JsonSuccess) ∧
     clients (fst r) = filter (fun c => c_id c ≠ z) (clients s) ∧
     ((∀ c, c ∈ clients s → c_id c ≠ z) → clients (fst r) = clients s)).
Proof.
  intros r.
  assert (∃ s1 resp, r = (s1, Return resp) ∧
            activeJobs s1 = activeJobs (fst (stopJob (parseInt id) s)) ∧
            tasks s1 = tasks (fst (stopJob (parseInt id) s)) ∧
            ∀ z, fault = None → int4_in id = Some z →
              resp = Response 200 JsonSuccess ∧
              clients s1 = filter (fun c => c_id c ≠ z) (clients s))
    as (s1 & resp & Hr & Ha & Ht & Hok).
  { subst r. unfold delete_clients_id, try_catch, bind.
    pose proof (stopJob_returns (parseInt id) s) as Hret.
    destruct (stopJob_frame (parseInt id) s) as (_ & _ & Hcl & _).
    destruct (stopJob (parseInt id) s) as [s0 o]; simpl in *. subst o.
    unfold delete_client, rejected.
    destruct fault as [msg|]; simpl.
    { eexists _, _. repeat split; try done. }
    destruct (int4_in id) as [z|] eqn:Ez; simpl.
    - eexists _, _. repeat split; try done.
      simplify_eq/=. by rewrite Hcl.
    - eexists _, _. repeat split; try done. }
  rewrite Hr; simpl.
  split; [by eexists|].
  split.
  { unfold isActive. rewrite Ha, stopJob_lookup, decide_True by done.
    apply bool_decide_eq_false. by intros [? ?]. }
  split; [by rewrite Ha, stopJob_registry|].
  split.
  { intros Hreg. unfold live_timers. rewrite Ht.
    apply (live_timers_inactive (fst (stopJob (parseInt id) s))).
    - by apply stopJob_ok.
    - by rewrite stopJob_lookup, decide_True. }
  intros z Hf Hz. destruct (Hok z Hf Hz) as [-> Hcl].
  split; [done|]. split; [done|].
  intros Hnone. rewrite Hcl.
  clear -Hnone. induction (clients s) as [|c l IH]; [done|].
  rewrite filter_cons_True by (apply Hnone; left).
  f_equal. apply IH. intros c' Hc'. apply Hnone. by right.
Qed.

(** [POST /api/clients] on a body that passes the two checks of the
    handler: what is answered, and what is stored. *)
Lemma post_clients_eq (fault : option string) (n u : string) (platform : field)
    (p : string) (s : state) :
  n ≠ "" → u ≠ "" →
  with_default "both" platform = Str p → p ∈ ["mobile"; "desktop"; "both"] →
  post_clients fault (Str n) (Str u) platform s =
  if url_parses u then
    match fault with
    | Some msg => (s, Return (Response 500 (JsonError msg)))
    | None =>
        if existsb (fun r => String.eqb (c_name r) n) (clients s)
        then (s, Return (Response 409 (JsonError (duplicate_name_message n))))
        else if existsb (fun r => String.eqb (c_url r) u && String.eqb (c_platform r) p)
                        (clients s)
        then (s, Return (Response 409 (JsonError (duplicate_url_message p))))
        else
          let row := Client (clients_id_seq s) n u p None (Some false) in
          (State (activeJobs s) (tasks s) (console s) (clients s ++ [row])
                 (clients_id_seq s + 1),
           Return (Response 201 (JsonClient row)))
    end
  else (s, Return (Response 500 (JsonError "Invalid URL"))).
Proof.
  intros Hn Hu Hp Hin. unfold post_clients. rewrite Hp. simpl.
  rewrite (proj2 (String.eqb_neq n "")), (proj2 (String.eqb_neq u "")) by done.
  simpl. rewrite bool_decide_eq_true_2 by done. simpl.
  unfold try_catch, bind, new_URL.
  destruct (url_parses u); simpl; [|done].
  unfold insert_client, rejected. destruct fault as [msg|]; simpl; [done|].
  unfold bind, gets; simpl.
  destruct (existsb _ (clients s)); simpl; [done|].
  destruct (existsb _ (clients s)); simpl; done.
Qed.

(** C7, what the code does.  A body with a name, a url and a listed
    platform whose url the parser rejects is answered 500 with the
    parser's message, not 400, and nothing is stored: [new URL(url)]
    stands inside the [try] whose [catch] answers 500 to every error that
    is not a unique violation. *)
Theorem post_clients_invalid_url_is_500
    (fault : option string) (name url platform : field) (s : state) :
  truthy name = true → truthy url = true →
  platform_listed (with_default "both" platform) = true →
  url_parses (to_string url) = false →
  post_clients fault name url platform s =
  (s, Return (Response 500 (JsonError "Invalid URL"))).
Proof.
  intros Hn Hu Hp Hparse.
  destruct name as [| |n]; try done. destruct url as [| |u]; try done.
  simpl in Hn, Hu, Hparse.
  apply negb_true_iff, String.eqb_neq in Hn, Hu.
  destruct (with_default "both" platform) as [| |p] eqn:Ep; try done.
  simpl in Hp. apply bool_decide_eq_true in Hp.
  rewrite (post_clients_eq fault n u platform p s) by done.
  by rewrite Hparse.
Qed.

Lemma existsb_elem {A} (f : A → bool) (l : list A) :
  existsb f l = true ↔ ∃ x, x ∈ l ∧ f x = true.
Proof.
  induction l as [|a l IH]; simpl.
  - split; [done|]. intros (x & Hx & _). by apply elem_of_nil in Hx.
  - rewrite orb_true_iff, IH. split.
    + intros [Ha|(x & Hx & Hf)]; [exists a|exists x]; split; try done; [left|by right].
    + intros (x & [->|Hx]%elem_of_cons & Hf); [by left|right; eauto].
Qed.

(** X2.  [POST /api/clients] always answers.  It answers 400 exactly when
    the name or the url is missing or empty or the platform is not listed,
    and 409 exactly when the body passes these checks, the url parses, the
    store takes the insert, and a stored client has the same name or the
    same url and platform; unless it answers 201 it stores nothing. *)
Theorem post_clients_statuses
    (fault : option string) (name url platform : field) (s : state) :
  let r := post_clients fault name url platform s in
  let p := with_default "both" platform in
  ∃ resp, snd r = Return resp ∧
    (status resp = 400 ↔
       truthy name = false ∨ truthy url = false ∨ platform_listed p = false) ∧
    (status resp = 409 ↔
       truthy name = true ∧ truthy url = true ∧ platform_listed p = true ∧
       url_parses (to_string url) = true ∧ fault = None ∧
       ((∃ c, c ∈ clients s ∧ c_name c = to_string name) ∨
        (∃ c, c ∈ clients s ∧ c_url c = to_string url ∧ c_platform c = to_string p))) ∧
    (status resp ≠ 201 → fst r = s).
Proof.
  intros r p.
  assert (truthy name = false ∨ truthy url = false ∨ platform_listed p = false →
          r = (s, Return (Response 400 (JsonError "name and url required"))) ∨
          r = (s, Return (Response 400 (JsonError "platform must be mobile, desktop, or both"))))
    as Hbad.
  { subst r p. unfold post_clients.
    destruct (truthy name), (truthy url); simpl; auto.
    destruct (platform_listed _); simpl; auto.
    intros [?|[?|?]]; discriminate. }
  destruct (truthy name) eqn:Hn; [|destruct Hbad as [->| ->]; [by left|..];
    (eexists; split; [done|]; simpl; intuition congruence)].
  destruct (truthy url) eqn:Hu; [|destruct Hbad as [->| ->]; [auto|..];
    (eexists; split; [done|]; simpl; intuition congruence)].
  destruct (platform_listed p) eqn:Hp; [|destruct Hbad as [->| ->]; [auto|..];
    (eexists; split; [done|]; simpl; intuition congruence)].
  clear Hbad.
  destruct name as [| |n]; try done. destruct url as [| |u]; try done.
  simpl in Hn, Hu. apply negb_true_iff, String.eqb_neq in Hn, Hu.
  destruct p as [| |q] eqn:Ep; try done. subst p.
  simpl in Hp. apply bool_decide_eq_true in Hp.
  subst r. rewrite (post_clients_eq fault n u platform q s) by done. simpl.
  destruct (url_parses u) eqn:Hparse;
    [|eexists; split; [done|]; simpl; intuition congruence].
  destruct fault as [msg|];
    [eexists; split; [done|]; simpl; intuition congruence|].
  destruct (existsb (fun r => String.eqb (c_name r) n) (clients s)) eqn:Hname; simpl.
  { apply existsb_elem in Hname as (c & Hc & Heq%String.eqb_eq).
    eexists; split; [done|]; simpl.
    split; [intuition congruence|]. split; [|done].
    split; [intros _|done]. repeat split; try done. left. eauto. }
  destruct (existsb (fun r => String.eqb (c_url r) u && String.eqb (c_platform r) q)
                    (clients s)) eqn:Hpair; simpl.
  { apply existsb_elem in Hpair
      as (c & Hc & [Hcu%String.eqb_eq Hcp%String.eqb_eq]%andb_true_iff).
    eexists; split; [done|]; simpl.
    split; [intuition congruence|]. split; [|done].
    split; [intros _|done]. repeat split; try done. right. eauto. }
  eexists; split; [done|]; simpl.
  split; [intuition congruence|]. split; [|done].
  split; [done|].
  intros (_ & _ & _ & _ & _ & [(c & Hc & Heq)|(c & Hc & Hcu & Hcp)]); exfalso.
  - assert (existsb (fun r => String.eqb (c_name r) n) (clients s) = true)
      as Habs; [|congruence].
    apply existsb_elem. exists c. split; [done|]. by apply String.eqb_eq.
  - assert (existsb (fun r => String.eqb (c_url r) u && String.eqb (c_platform r) q)
                    (clients s) = true) as Habs; [|congruence].
    apply existsb_elem. exists c. split; [done|].
    apply andb_true_iff. split; by apply String.eqb_eq.
Qed.

End GuiHandlers.

Section GuiHandlerExamples.
#[local] Existing Instance Sample.libraries.

(** A mobile client asked for desktop is audited on mobile; a client on
    both is audited as asked. *)
Lemma resolveFormFactor_total_witness :
  Gui.resolveFormFactor "mobile" (Some "desktop") = "mobile" ∧
  Gui.resolveFormFactor "both" (Some "desktop") = "desktop".
Proof.
  split.
  - refine (proj1 (resolveFormFactor_total "mobile" (Some "desktop") _) _);
      compute_done.
  - refine (proj1 (proj2 (resolveFormFactor_total "both" (Some "desktop") _)) eq_refl);
      compute_done.
Defined.

(** Registering Acme under a string that is no URL. *)
Lemma post_clients_invalid_url_is_500_witness :
  Gui.post_clients None (Str "Acme") (Str "not a url") Undefined (Gui.boot [] 1) =
  (Gui.boot [] 1, Return (Gui.Response 500 (Gui.JsonError "Invalid URL"))).
Proof.
  exact (post_clients_invalid_url_is_500 (L := Sample.libraries)
           None (Str "Acme") (Str "not a url") Undefined (Gui.boot [] 1)
           eq_refl eq_refl eq_refl eq_refl).
Defined.

(** A delete for an id no stored client has, on a registry that holds a
    job under that key: 200, the job gone, the table as it was. *)
Lemma delete_client_stops_job_first_witness :
  let s := fst (Gui.startJob (Int 7) "*/5 * * * *" (Gui.boot Sample.stored 4)) in
  let r := Gui.delete_clients_id None "7" s in
  snd r = Return (Gui.Response 200 Gui.JsonSuccess) ∧
  Gui.isActive s (Int 7) = true ∧
  Gui.isActive (fst r) (Int 7) = false ∧
  Gui.clients (fst r) = Sample.stored.
Proof.
  pose proof (delete_client_stops_job_first (L := Sample.libraries) None "7"
                (fst (Gui.startJob (Int 7) "*/5 * * * *" (Gui.boot Sample.stored 4))))
    as (_ & Hinactive & _ & _ & Hdone).
  destruct (Hdone 7 eq_refl eq_refl) as (Hresp & _ & Hkept).
  split; [exact Hresp|]. split; [reflexivity|]. split; [exact Hinactive|].
  apply Hkept. intros c Hc.
  repeat (apply elem_of_cons in Hc as [->|Hc]; [done|]).
  by apply elem_of_nil in Hc.
Defined.

(** The registration example: Acme is stored on mobile; a second Acme is
    answered 409 for its name, the same url on desktop is stored, and the
    same url on mobile again is answered 409 for the pair. *)
Lemma post_clients_statuses_witness :
  let post name url platform s :=
    Gui.post_clients None (Str name) (Str url) (Str platform) s in
  let acme := Gui.Client 1 "Acme" "https://a.com" "mobile" None (Some false) in
  let desk := Gui.Client 2 "Acme desktop" "https://a.com" "desktop" None (Some false) in
  let s1 := fst (post "Acme" "https://a.com" "mobile" (Gui.boot [] 1)) in
  let s2 := fst (post "Acme desktop" "https://a.com" "desktop" s1) in
  Gui.clients s1 = [acme] ∧
  (∃ resp, snd (post "Acme" "https://b.com" "both" s1) = Return resp ∧
           Gui.status resp = 409) ∧
  Gui.clients s2 = [acme; desk] ∧
  snd (post "Acme again" "https://a.com" "mobile" s2) =
    Return (Gui.Response 409 (Gui.JsonError (Gui.duplicate_url_message "mobile"))).
Proof.
  intros post acme desk s1 s2.
  split; [reflexivity|]. split; [|split; reflexivity].
  destruct (post_clients_statuses (L := Sample.libraries) None
              (Str "Acme") (Str "https://b.com") (Str "both") s1)
    as (resp & Hresp & _ & H409 & _).
  exists resp. split; [exact Hresp|].
  apply H409. repeat split; try reflexivity.
  left. exists acme. split; [left|reflexivity].
Defined.

End GuiHandlerExamples.

(* ===================================================================== *)
(** ** The audit endpoint *)
(* ===================================================================== *)

Section Scores.
Import Lighthouse Runs.

Lemma or_zero_unit (v : option number) :
  (∀ q, v = Some (Num q) → (0 <= q <= 1)%Q) → (0 <= or_zero v <= 1)%Q.
Proof.
  intros Hv. unfold or_zero.
  destruct v as [[|q]|]; try done.
  destruct (Qeq_bool q 0); [done|]. by apply Hv.
Qed.

Lemma Math_round_percent (q : Q) :
  (0 <= q <= 1)%Q → 0 <= Math_round (q * 100) <= 100.
Proof.
  intros [Hlo Hhi]. unfold Math_round. split.
  - change 0 with (Qfloor (0 * 100 + (1 # 2))).
    apply Qfloor_resp_le, Qplus_le_compat; [|apply Qle_refl].
    by apply Qmult_le_compat_r.
  - change 100 with (Qfloor (1 * 100 + (1 # 2))).
    apply Qfloor_resp_le, Qplus_le_compat; [|apply Qle_refl].
    by apply Qmult_le_compat_r.
Qed.

Lemma category_score_percent cats id :
  unit_scores cats → 0 <= category_score cats id <= 100.
Proof.
  intros Hc. unfold category_score. apply Math_round_percent, or_zero_unit.
  intros q Hq. destruct (cats !! id) as [c|] eqn:E; [|done].
  simpl in Hq. by apply (Hc id c q).
Qed.

Lemma category_score_missing cats id :
  cats !! id = None ∨ (∃ c, cats !! id = Some c ∧ score c = None) →
  category_score cats id = 0.
Proof.
  unfold category_score. intros [->|(c & -> & Hs)]; simpl; [done|].
  by rewrite Hs.
Qed.

End Scores.

Section AuditRuns.
Import Lighthouse Runs.
Context `{L : Libraries}.

Lemma writes_refl G s : writes G s s.
Proof. intros row Hrow. by left. Qed.

Lemma writes_trans G s1 s2 s3 : writes G s1 s2 → writes G s2 s3 → writes G s1 s3.
Proof.
  intros H12 H23 row Hrow.
  destruct (H23 row Hrow) as [Hin|?]; [|by right]. by apply H12.
Qed.

Lemma bind_writes {A B} G (m : M A) (k : A → M B) s :
  writes G s (fst (m s)) →
  (∀ a s1, m s = (s1, Return a) → writes G s1 (fst (k a s1))) →
  writes G s (fst (bind m k s)).
Proof.
  intros Hm Hk. unfold bind. destruct (m s) as [s1 [a|e]] eqn:E; simpl in *.
  - eapply writes_trans; [done|]. by apply Hk.
  - done.
Qed.

Lemma try_catch_writes {A} G (body : M A) (h : error → M A) s :
  writes G s (fst (body s)) →
  (∀ e s1, body s = (s1, Throw e) → writes G s1 (fst (h e s1))) →
  writes G s (fst (try_catch body h s)).
Proof.
  intros Hm Hh. unfold try_catch. destruct (body s) as [s1 [a|e]] eqn:E; simpl in *.
  - done.
  - eapply writes_trans; [done|]. by apply Hh.
Qed.

Lemma rejected_writes {A} G fault (k : M A) s :
  writes G s (fst (k s)) → writes G s (fst (rejected fault k s)).
Proof. destruct fault; simpl; [intros _; apply writes_refl|done]. Qed.

Lemma insert_row_eq (row : Z → audit_row) s :
  insert_row row s =
  (State (audits s ++ [row (audits_id_seq s)]) (audits_id_seq s + 1)
         (history s ++ [(audits_id_seq s, a_status (row (audits_id_seq s)))]),
   Return (audits_id_seq s)).
Proof. reflexivity. Qed.

Lemma update_row_eq id f st s :
  update_row id f st s =
  (State ((fun r => if decide (a_id r = id) then f r else r) <$> audits s)
         (audits_id_seq s)
         (history s ++
            if existsb (fun r => bool_decide (a_id r = id)) (audits s)
            then [(id, st)] else []),
   Return tt).
Proof.
  unfold update_row, bind, gets, modify; simpl.
  destruct (existsb _ (audits s)); simpl; [done|].
  by rewrite app_nil_r.
Qed.

Lemma insert_row_writes G row s :
  G (row (audits_id_seq s)) → writes G s (fst (insert_row row s)).
Proof.
  intros HG r. rewrite insert_row_eq; simpl.
  intros [?|Hr%list_elem_of_singleton]%elem_of_app; [by left|right; by subst].
Qed.

Lemma update_row_writes G id f st s :
  (∀ r, G (f r)) → writes G s (fst (update_row id f st s)).
Proof.
  intros HG r. rewrite update_row_eq; simpl.
  intros (r0 & -> & Hr0)%list_elem_of_fmap.
  case_decide; [by right|by left].
Qed.

(** On a store whose ids are below the sequence, an update by the id just
    handed out touches the new row only. *)
Lemma update_new_row (l : list audit_row) id row f :
  (∀ r, r ∈ l → a_id r < id) → a_id row = id →
  (fun r => if decide (a_id r = id) then f r else r) <$> (l ++ [row]) = l ++ [f row] ∧
  existsb (fun r => bool_decide (a_id r = id)) (l ++ [row]) = true.
Proof.
  intros Hl Hrow. split.
  - rewrite fmap_app; simpl. rewrite decide_True by done. f_equal.
    clear -Hl. induction l as [|r l IH]; [done|]. simpl.
    rewrite decide_False.
    + f_equal. apply IH. intros r' Hr'. apply Hl. by right.
    + pose proof (Hl r (list_elem_of_here _ _)). lia.
  - rewrite existsb_app; simpl. rewrite bool_decide_eq_true_2 by done.
    by rewrite orb_true_r.
Qed.

Lemma Forall_percent_scores cats :
  unit_scores cats →
  Forall (fun z => 0 <= z <= 100) (scores_list (extract_scores cats)).
Proof.
  intros Hc. unfold scores_list, extract_scores; simpl.
  repeat (constructor; [by apply category_score_percent|]). constructor.
Qed.

Lemma completed_row_percent cats report r :
  unit_scores cats →
  Forall percent (persisted_scores (set_completed (extract_scores cats) report r)).
Proof.
  intros Hc. unfold persisted_scores, set_completed; simpl.
  repeat (constructor; [eexists; split; [done|]; by apply category_score_percent|]).
  constructor.
Qed.

Lemma create_record_writes G fs req ff s :
  G (running_row (audits_id_seq s) (to_string (client_id req)) ff) →
  writes G s (fst (create_record fs req ff s)).
Proof.
  intros HG. unfold create_record.
  destruct (truthy (client_id req)); [|apply writes_refl].
  apply try_catch_writes; [|intros; apply writes_refl].
  apply bind_writes; [|intros; apply writes_refl].
  unfold insert_running. apply rejected_writes. by apply insert_row_writes.
Qed.

Lemma mark_failed_writes G fs auditId err s :
  (∀ msg r, G (set_failed msg r)) →
  writes G s (fst (mark_failed fs auditId err s)).
Proof.
  intros HG. unfold mark_failed.
  destruct (id_truthy auditId); [|apply writes_refl].
  apply try_catch_writes; [|intros; apply writes_refl].
  unfold update_failed. apply rejected_writes. by apply update_row_writes.
Qed.

Lemma save_result_writes G fs req ff auditId sc report s :
  (∀ r, G (set_completed sc report r)) →
  writes G s (fst (save_result fs req ff auditId sc report s)).
Proof.
  intros HG. unfold save_result.
  destruct (id_truthy auditId).
  - apply bind_writes; [|intros; apply writes_refl].
    unfold update_completed. apply rejected_writes. by apply update_row_writes.
  - destruct (truthy (client_id req)); [|apply writes_refl].
    apply bind_writes; [|intros; apply writes_refl].
    unfold insert_completed. apply rejected_writes.
    apply insert_row_writes. apply (HG (Audit _ _ _ None None None None None None "" None)).
Qed.

(** The answer of the handler, by the outcome of the engine. *)
Lemma audit_response fs engine req s resp :
  snd (audit fs engine req s) = Return resp → status resp = 200 →
  ∃ report auditId,
    engine = Return report ∧
    resp = Response 200 (JsonAudit (to_string (url req)) (form_factor_of req)
                           (extract_scores (categories report)) auditId).
Proof.
  unfold audit. fold (form_factor_of req).
  destruct (truthy (url req)); simpl; [|by intros [= <-]].
  destruct (url_parses (to_string (url req))); simpl; [|by intros [= <-]].
  unfold bind at 1. destruct (create_record _ _ _ s) as [s1 [auditId|e]]; simpl; [|done].
  unfold try_catch, bind, run_engine.
  destruct engine as [report|err]; simpl.
  - destruct (save_result _ _ _ _ _ _ s1) as [s2 [aid|e]]; simpl.
    + intros [= <-] _. eauto.
    + destruct (mark_failed _ _ _ s2) as [s3 [[]|e']]; simpl; [by intros [= <-]|done].
  - destruct (mark_failed _ _ _ s1) as [s3 [[]|e']]; simpl; [by intros [= <-]|done].
Qed.

(** C9.  A category that is absent from the result, or whose score is
    [null], is scored 0.  When Lighthouse keeps its promise that a score
    is null or between 0 and 1, the five scores the handler extracts are
    integers between 0 and 100, every row it writes as completed holds
    them in its five score columns, none of them null, and a success
    response carries them. *)
Theorem audit_scores_are_percentages
    (fs : faults) (engine : outcome lhr) (req : request) (s : state) :
  (∀ report, engine = Return report → unit_scores (categories report)) →
  let r := audit fs engine req s in
  (∀ cats id,
     cats !! id = None ∨ (∃ c, cats !! id = Some c ∧ score c = None) →
     category_score cats id = 0) ∧
  (∀ report, engine = Return report →
     Forall (fun z => 0 <= z <= 100) (scores_list (extract_scores (categories report)))) ∧
  writes (fun row => a_status row = "completed" → Forall percent (persisted_scores row))
         s (fst r) ∧
  (∀ resp, snd r = Return resp → status resp = 200 →
     ∃ sc u ff auditId,
       resp = Response 200 (JsonAudit u ff sc auditId) ∧
       Forall (fun z => 0 <= z <= 100) (scores_list sc)).
Proof.
  intros Hunit r.
  split; [intros cats id; apply category_score_missing|].
  split; [intros report Hr; by apply Forall_percent_scores, Hunit|].
  split.
  - subst r. unfold audit.
    destruct (truthy (url req)); simpl; [|apply writes_refl].
    destruct (url_parses (to_string (url req))); simpl; [|apply writes_refl].
    apply bind_writes; [by apply create_record_writes|].
    intros auditId s1 _.
    apply try_catch_writes.
    + apply bind_writes; [apply writes_refl|].
      intros report s2 [= -> Heng].
      apply bind_writes; [|intros; apply writes_refl].
      apply save_result_writes. intros row _.
      by apply completed_row_percent, Hunit.
    + intros e s2 _. apply bind_writes; [|intros; apply writes_refl].
      by apply mark_failed_writes.
  - intros resp Hresp Hst.
    destruct (audit_response _ _ _ _ _ Hresp Hst) as (report & aid & Heng & ->).
    eexists _, _, _, _. split; [done|].
    by apply Forall_percent_scores, Hunit.
Qed.

Lemma mark_failed_returns fs auditId err s :
  snd (mark_failed fs auditId err s) = Return tt.
Proof.
  unfold mark_failed. destruct (id_truthy auditId); [|done].
  unfold try_catch, update_failed, rejected.
  destruct (update_failed_fault fs); [done|]. by rewrite update_row_eq.
Qed.

(** The handler, phase by phase. *)
Lemma audit_unfold fs engine req s :
  audit fs engine req s =
  if negb (truthy (url req))
  then (s, Return (Response 400 (JsonError "`url` query param is required")))
  else if negb (url_parses (to_string (url req)))
  then (s, Return (Response 400 (JsonError "Invalid URL format")))
  else
    let c := create_record fs req (form_factor_of req) s in
    match snd c with
    | Throw e => (fst c, Throw e)
    | Return auditId =>
        match engine with
        | Return report =>
            let sc := extract_scores (categories report) in
            let sv := save_result fs req (form_factor_of req) auditId sc report (fst c) in
            match snd sv with
            | Return auditId' =>
                (fst sv, Return (Response 200
                   (JsonAudit (to_string (url req)) (form_factor_of req) sc auditId')))
            | Throw err =>
                (fst (mark_failed fs auditId err (fst sv)),
                 Return (Response 500 (JsonFailure (message err))))
            end
        | Throw err =>
            (fst (mark_failed fs auditId err (fst c)),
             Return (Response 500 (JsonFailure (message err))))
        end
    end.
Proof.
  unfold audit. fold (form_factor_of req).
  destruct (truthy (url req)); simpl; [|done].
  destruct (url_parses (to_string (url req))); simpl; [|done].
  unfold bind at 1.
  destruct (create_record _ _ _ s) as [s1 [auditId|e]]; simpl; [|done].
  unfold try_catch, bind, run_engine.
  destruct engine as [report|err]; simpl.
  - destruct (save_result _ _ _ _ _ _ s1) as [s2 [aid|e]]; simpl; [done|].
    pose proof (mark_failed_returns fs auditId e s2) as Hm.
    destruct (mark_failed _ _ _ s2) as [s3 o]; simpl in *. by subst o.
  - pose proof (mark_failed_returns fs auditId err s1) as Hm.
    destruct (mark_failed _ _ _ s1) as [s3 o]; simpl in *. by subst o.
Qed.

(** C8, as the code has it.  Without a client id the handler writes
    nothing to the store, neither before the audit nor on completion: no
    record is created at invocation, none is saved with the result, and
    the store is the same after the call whatever the engine and the store
    do; a successful audit is still answered with its scores, under a null
    [audit_id]. *)
Theorem audit_without_client_writes_nothing
    (fs : faults) (engine : outcome lhr) (req : request) (s : state) :
  truthy (client_id req) = false →
  let r := audit fs engine req s in
  create_record fs req (form_factor_of req) s = (s, Return None) ∧
  (∀ sc report, save_result fs req (form_factor_of req) None sc report s = (s, Return None)) ∧
  fst r = s ∧
  (truthy (url req) = true → url_parses (to_string (url req)) = true →
   ∀ report, engine = Return report →
     snd r = Return (Response 200
               (JsonAudit (to_string (url req)) (form_factor_of req)
                          (extract_scores (categories report)) None))).
Proof.
  intros Hc r.
  assert (create_record fs req (form_factor_of req) s = (s, Return None)) as Hcreate.
  { unfold create_record. by rewrite Hc. }
  assert (∀ sc report,
            save_result fs req (form_factor_of req) None sc report s = (s, Return None))
    as Hsave.
  { intros sc report. unfold save_result; simpl. by rewrite Hc. }
  split; [done|]. split; [done|].
  subst r. rewrite audit_unfold.
  destruct (truthy (url req)); simpl; [|by split].
  destruct (url_parses (to_string (url req))); simpl; [|by split].
  rewrite Hcreate; simpl.
  destruct engine as [report|err]; simpl.
  - rewrite Hsave; simpl. split; [done|]. by intros _ _ report' [= <-].
  - split; [done|]. by intros _ _ report' [=].
Qed.

Lemma create_record_ok fs req ff s :
  truthy (client_id req) = true → insert_running_fault fs = None →
  create_record fs req ff s =
  (State (audits s ++ [running_row (audits_id_seq s) (to_string (client_id req)) ff])
         (audits_id_seq s + 1)
         (history s ++ [(audits_id_seq s, "running")]),
   Return (Some (audits_id_seq s))).
Proof.
  intros Hc Hf. unfold create_record, insert_running. rewrite Hc, Hf. reflexivity.
Qed.

Lemma update_after_insert s row f st :
  store_ok s → a_id row = audits_id_seq s →
  update_row (audits_id_seq s) f st
    (State (audits s ++ [row]) (audits_id_seq s + 1)
           (history s ++ [(audits_id_seq s, "running")])) =
  (State (audits s ++ [f row]) (audits_id_seq s + 1)
         (history s ++ [(audits_id_seq s, "running"); (audits_id_seq s, st)]),
   Return tt).
Proof.
  intros [_ Hids] Hrow. rewrite update_row_eq; simpl.
  destruct (update_new_row (audits s) (audits_id_seq s) row f Hids Hrow) as [-> ->].
  by rewrite <- app_assoc.
Qed.

(** C3, as the code has it.  For a request with a well-formed url and a
    client id whose [running] insert the store accepts, the row is created
    in status running before the audit starts, and the handler changes
    its status at most once afterwards: to completed, with the five scores
    and the report, when the engine returns and the store accepts the
    completing update; to failed, with the error message and the five
    scores still null, when the engine throws or the completing update is
    rejected and the store accepts the failure update; and not at all,
    the row staying running, when the store rejects the failure update. *)
Theorem audit_run_lifecycle
    (fs : faults) (engine : outcome lhr) (req : request) (s : state) :
  truthy (url req) = true → url_parses (to_string (url req)) = true →
  truthy (client_id req) = true →
  insert_running_fault fs = None →
  store_ok s →
  let id := audits_id_seq s in
  let row0 := running_row id (to_string (client_id req)) (form_factor_of req) in
  let r := audit fs engine req s in
  create_record fs req (form_factor_of req) s =
    (State (audits s ++ [row0]) (id + 1) (history s ++ [(id, "running")]),
     Return (Some id)) ∧
  ∃ row tr resp,
    snd r = Return resp ∧
    audits (fst r) = audits s ++ [row] ∧
    history (fst r) = history s ++ (id, "running") :: tr ∧
    ((∃ report,
        engine = Return report ∧ update_completed_fault fs = None ∧
        row = set_completed (extract_scores (categories report)) report row0 ∧
        tr = [(id, "completed")] ∧
        resp = Response 200 (JsonAudit (to_string (url req)) (form_factor_of req)
                               (extract_scores (categories report)) (Some id)) ∧
        a_status row = "completed" ∧
        Forall is_Some (persisted_scores row) ∧
        a_report_json row = Some report)
     ∨ (∃ msg,
        failure engine fs = Some msg ∧ update_failed_fault fs = None ∧
        row = set_failed msg row0 ∧
        tr = [(id, "failed")] ∧
        resp = Response 500 (JsonFailure msg) ∧
        a_status row = "failed" ∧
        a_error_message row = Some msg ∧
        Forall (fun v => v = None) (persisted_scores row))
     ∨ (∃ msg,
        failure engine fs = Some msg ∧ is_Some (update_failed_fault fs) ∧
        row = row0 ∧ tr = [] ∧
        resp = Response 500 (JsonFailure msg) ∧
        a_status row = "running")).
Proof.
  intros Hurl Hparse Hc Hins Hok id row0 r.
  pose proof (create_record_ok fs req (form_factor_of req) s Hc Hins) as Hcreate.
  split; [done|].
  assert (id_truthy (Some id) = Some id) as Hid.
  { unfold id_truthy. destruct Hok as [Hpos _]. rewrite decide_False; [done|].
    subst id. lia. }
  assert (∀ err, ∃ row tr,
            audits (fst (mark_failed fs (Some id) err
                     (State (audits s ++ [row0]) (id + 1) (history s ++ [(id, "running")]))))
              = audits s ++ [row] ∧
            history (fst (mark_failed fs (Some id) err
                     (State (audits s ++ [row0]) (id + 1) (history s ++ [(id, "running")]))))
              = history s ++ (id, "running") :: tr ∧
            ((update_failed_fault fs = None ∧ row = set_failed (message err) row0 ∧
              tr = [(id, "failed")])
             ∨ (is_Some (update_failed_fault fs) ∧ row = row0 ∧ tr = []))) as Hfail.
  { intros err. unfold mark_failed. rewrite Hid. unfold try_catch, update_failed.
    destruct (update_failed_fault fs) as [m|] eqn:Ef; simpl.
    - exists row0, []. split; [done|]. split; [done|]. right. eauto.
    - subst id. rewrite (update_after_insert s row0 _ "failed" Hok eq_refl); simpl.
      eexists _, _. split; [done|]. split; [done|by left]. }
  subst r. rewrite audit_unfold, Hurl, Hparse; simpl.
  rewrite Hcreate; simpl. fold id row0.
  destruct engine as [report|err]; simpl.
  - unfold save_result. rewrite Hid. unfold bind, update_completed.
    destruct (update_completed_fault fs) as [m|] eqn:Eu; simpl.
    + destruct (Hfail (store_error m)) as (row & tr & Ha & Hh & Hcase).
      exists row, tr, (Response 500 (JsonFailure m)).
      split; [done|]. split; [exact Ha|]. split; [exact Hh|].
      right. destruct Hcase as [(Hf & -> & ->)|(Hf & -> & ->)].
      * left. exists m. repeat split; try done.
        unfold persisted_scores; simpl. by repeat constructor.
      * right. exists m. by repeat split.
    + subst id. rewrite (update_after_insert s row0 _ "completed" Hok eq_refl); simpl.
      eexists _, _, _. split; [done|]. split; [done|]. split; [done|].
      left. exists report. repeat split; try done.
      unfold persisted_scores; simpl. by repeat constructor.
  - destruct (Hfail err) as (row & tr & Ha & Hh & Hcase).
    exists row, tr, (Response 500 (JsonFailure (message err))).
    split; [done|]. split; [exact Ha|]. split; [exact Hh|].
    right. destruct Hcase as [(Hf & -> & ->)|(Hf & -> & ->)].
    * left. exists (message err). repeat split; try done.
      unfold persisted_scores; simpl. by repeat constructor.
    * right. exists (message err). by repeat split.
Qed.

End AuditRuns.

Section AuditExamples.
Import Lighthouse Runs Sample.
#[local] Existing Instance Sample.libraries.

Lemma report_unit_scores : unit_scores (categories report).
Proof.
  intros id c q Hl Hs. unfold report in Hl; simpl in Hl.
  apply lookup_insert_Some in Hl as [[_ <-]|[_ Hl]].
  - simpl in Hs. injection Hs as <-. split; unfold Qle; simpl; lia.
  - apply lookup_singleton_Some in Hl as [_ <-]. discriminate.
Qed.

Lemma fresh_ok : store_ok fresh.
Proof. split; simpl; [lia|]. intros r Hr. by apply elem_of_nil in Hr. Qed.

(** C3 fails as stated in three ways.  A request that names a client but
    carries no url is answered 400 and creates no row.  When the engine
    throws and the store rejects the failure update, the row is left in
    status running.  When the store rejects the running insert and the
    audit succeeds, a row is inserted as completed without ever having
    been running. *)
Lemma audit_run_not_always_settled :
  audit no_faults (Return report) (Request Undefined (Str "1") Undefined) fresh =
    (fresh, Return (Response 400 (JsonError "`url` query param is required"))) ∧
  audits (fst (audit (Faults None None None (Some "connection terminated"))
                     (Throw (new_Error "navigation timeout")) with_client fresh)) =
    [running_row 1 "1" "mobile"] ∧
  history (fst (audit (Faults (Some "connection terminated") None None None)
                      (Return report) with_client fresh)) =
    [(1, "completed")].
Proof. vm_compute. repeat split; reflexivity. Qed.

(** An audit for client 1 on an empty store that the engine completes:
    the row is created as row 1 and ends completed. *)
Lemma audit_run_lifecycle_witness :
  ∃ row,
    audits (fst (audit no_faults (Return report) with_client fresh)) = [row] ∧
    history (fst (audit no_faults (Return report) with_client fresh)) =
      [(1, "running"); (1, "completed")] ∧
    a_status row = "completed" ∧
    persisted_scores row = [Some 90; Some 0; Some 0; Some 0; Some 0].
Proof.
  destruct (audit_run_lifecycle (L := Sample.libraries)
              no_faults (Return report) with_client fresh
              eq_refl eq_refl eq_refl eq_refl fresh_ok)
    as (_ & row & tr & resp & _ & Ha & Hh & Hcase).
  exists row. split; [exact Ha|].
  destruct Hcase as [(rep & [= <-] & _ & -> & -> & _)
                    |[(msg & Hf & _)|(msg & Hf & _)]]; [|discriminate..].
  split; [exact Hh|]. split; reflexivity.
Defined.

(** C8 fails as stated: a successful audit without a client id leaves the
    store empty, and is answered with its scores. *)
Lemma audit_without_client_records_nothing :
  let r := audit no_faults (Return report) without_client fresh in
  audits (fst r) = [] ∧
  history (fst r) = [] ∧
  snd r = Return (Response 200
            (JsonAudit "https://example.com" "mobile" (Scores 90 0 0 0 0) None)).
Proof. vm_compute. repeat split; reflexivity. Qed.

(** The same audit, read off the theorem: the store is as it was. *)
Lemma audit_without_client_writes_nothing_witness :
  fst (audit no_faults (Return report) without_client fresh) = fresh.
Proof.
  exact (proj1 (proj2 (proj2
    (audit_without_client_writes_nothing (L := Sample.libraries)
       no_faults (Return report) without_client fresh eq_refl)))).
Defined.

(** The scores of the example result, 90 and four zeros, are within
    range. *)
Lemma audit_scores_are_percentages_witness :
  Forall (fun z => 0 <= z <= 100) (scores_list (extract_scores (categories report))).
Proof.
  refine (proj1 (proj2
    (audit_scores_are_percentages (L := Sample.libraries)
       no_faults (Return report) with_client fresh _)) report eq_refl).
  intros report' [= <-]. exact report_unit_scores.
Defined.

End AuditExamples.

(* ===================================================================== *)
(** ** The schedule handlers *)
(* ===================================================================== *)

Section ScheduleHandlers.
Import Gui Registry Schedules Consistency.
Context `{L : Libraries}.

Lemma startJob_frame k e s :
  clients (fst (startJob k e s)) = clients s ∧
  clients_id_seq (fst (startJob k e s)) = clients_id_seq s.
Proof.
  rewrite startJob_eq; simpl.
  destruct (stopJob_frame k s) as (_ & _ & Hc & Hq).
  by destruct (cron_validate e).
Qed.

Lemma stopJob_set_clients f k s :
  stopJob k (set_clients f s) = (set_clients f (fst (stopJob k s)), Return tt).
Proof.
  rewrite !stopJob_eq; simpl. by destruct (activeJobs s !! k).
Qed.

Lemma startJob_set_clients f k e s :
  startJob k e (set_clients f s) =
  (set_clients f (fst (startJob k e s)), snd (startJob k e s)).
Proof.
  rewrite !startJob_eq; simpl. rewrite stopJob_set_clients; simpl.
  by destruct (cron_validate e).
Qed.

Lemma live_job s k e :
  registry_ok s → live_timers s k = [Task e k true] → job s k e.
Proof.
  intros [_ Hrun] Hl.
  assert (Task e k true ∈ live_timers s k) as Hin by (rewrite Hl; left).
  apply list_elem_of_filter in Hin as [[_ Hr] [h Hh]%list_elem_of_lookup].
  specialize (Hrun _ _ Hh Hr). by exists h.
Qed.

Lemma startJob_job_other s k k' e e' :
  registry_ok s → k ≠ k' → job s k e → job (fst (startJob k' e' s)) k e.
Proof.
  intros Hok Hne Hj. apply live_job; [by apply startJob_ok|].
  rewrite startJob_live_other by done. by apply job_live.
Qed.

Lemma stopJob_job_other s k k' e :
  registry_ok s → k ≠ k' → job s k e → job (fst (stopJob k' s)) k e.
Proof.
  intros Hok Hne Hj. apply live_job; [by apply stopJob_ok|].
  rewrite stopJob_live_other by done. by apply job_live.
Qed.

(** The rows an [UPDATE ... WHERE id = z] leaves. *)
Lemma update_rows_ids (z : Z) (f : client_row → client_row) (l : list client_row) :
  (∀ r, c_id (f r) = c_id r) →
  c_id <$> ((fun r => if decide (c_id r = z) then f r else r) <$> l) = c_id <$> l.
Proof.
  intros Hf. rewrite <- list_fmap_compose. apply list_fmap_ext.
  intros i r _. simpl. by case_decide.
Qed.

Lemma update_rows_elem (z : Z) (f : client_row → client_row) (l : list client_row) r' :
  r' ∈ (fun r => if decide (c_id r = z) then f r else r) <$> l ↔
  ∃ r, r ∈ l ∧ ((c_id r = z ∧ r' = f r) ∨ (c_id r ≠ z ∧ r' = r)).
Proof.
  rewrite list_elem_of_fmap. split.
  - intros (r & -> & Hr). exists r. split; [done|]. case_decide; auto.
  - intros (r & Hr & [[Hz ->]|[Hz ->]]); exists r; (split; [|done]);
      [by rewrite decide_True|by rewrite decide_False].
Qed.

Lemma update_rows_absent (z : Z) (f : client_row → client_row) (l : list client_row) :
  (∀ r, r ∈ l → c_id r ≠ z) →
  (fun r => if decide (c_id r = z) then f r else r) <$> l = l.
Proof.
  intros Hno. induction l as [|r l IH]; [done|]. simpl.
  rewrite decide_False by (apply Hno; left).
  f_equal. apply IH. intros r' Hr'. apply Hno. by right.
Qed.

Lemma consistent_start s z e (f : client_row → client_row) :
  consistent s → cron_validate e = true →
  (∃ r0, r0 ∈ clients s ∧ c_id r0 = z) →
  (∀ r, c_id (f r) = c_id r) →
  (∀ r, c_schedule (f r) = Some e ∧ c_schedule_enabled (f r) = Some true) →
  consistent (set_clients (fmap (fun r => if decide (c_id r = z) then f r else r))
                          (fst (startJob (Int z) e s))).
Proof.
  intros (Hreg & Hnd & Hlt & Hval & Hjobs & Hrows) Hv (r0 & Hr0 & Hz0) Hid Hf.
  destruct (startJob_frame (Int z) e s) as [Hc Hq].
  pose proof (startJob_ok (Int z) e s Hreg) as Hreg'.
  split; [exact Hreg'|]. simpl. rewrite Hc, Hq.
  split; [by rewrite update_rows_ids|].
  split.
  { intros r' (r & Hr & [[_ ->]|[_ ->]])%update_rows_elem; [rewrite Hid|]; by apply Hlt. }
  split.
  { intros r' e' (r & Hr & [[_ ->]|[_ ->]])%update_rows_elem He'.
    - destruct (Hf r) as [Hs _]. congruence.
    - by eapply Hval. }
  split.
  - intros k Hk. destruct (decide (k = Int z)) as [->|Hne].
    + exists (f r0), e. split; [|split; [by rewrite Hid, Hz0|split; [apply Hf|]]].
      * apply update_rows_elem. exists r0. split; [done|]. by left.
      * by apply startJob_valid_job.
    + change (is_Some (activeJobs (fst (startJob (Int z) e s)) !! k)) in Hk.
      rewrite startJob_lookup_other in Hk by done.
      destruct (Hjobs k Hk) as (r & e' & Hr & -> & Hsch & Hj).
      exists r, e'. split; [|split; [done|split; [done|]]].
      * apply update_rows_elem. exists r. split; [done|]. right. split; [|done]. congruence.
      * by apply startJob_job_other.
  - intros r' e' (r & Hr & [[Hz ->]|[Hz ->]])%update_rows_elem [Hs He].
    + destruct (Hf r) as [Hs' _]. rewrite Hid, Hz.
      assert (e' = e) as -> by congruence. by apply startJob_valid_job.
    + apply startJob_job_other; [done|congruence|]. by apply Hrows.
Qed.

Lemma consistent_stop s z (f : client_row → client_row) :
  consistent s →
  (∀ r, c_id (f r) = c_id r) →
  (∀ r e, ¬ scheduled (f r) e) →
  (∀ r e, r ∈ clients s → c_schedule (f r) = Some e → cron_validate e = true) →
  consistent (set_clients (fmap (fun r => if decide (c_id r = z) then f r else r))
                          (fst (stopJob (Int z) s))).
Proof.
  intros (Hreg & Hnd & Hlt & Hval & Hjobs & Hrows) Hid Hoff Hfv.
  destruct (stopJob_frame (Int z) s) as (_ & _ & Hc & Hq).
  pose proof (stopJob_ok (Int z) s Hreg) as Hreg'.
  split; [exact Hreg'|]. simpl. rewrite Hc, Hq.
  split; [by rewrite update_rows_ids|].
  split.
  { intros r' (r & Hr & [[_ ->]|[_ ->]])%update_rows_elem; [rewrite Hid|]; by apply Hlt. }
  split.
  { intros r' e' (r & Hr & [[_ ->]|[_ ->]])%update_rows_elem He'.
    - by eapply Hfv.
    - by eapply Hval. }
  split.
  - intros k Hk.
    change (is_Some (activeJobs (fst (stopJob (Int z) s)) !! k)) in Hk.
    rewrite stopJob_lookup in Hk. case_decide as Hne; [by destruct Hk|].
    destruct (Hjobs k Hk) as (r & e' & Hr & -> & Hsch & Hj).
    exists r, e'. split; [|split; [done|split; [done|]]].
    + apply update_rows_elem. exists r. split; [done|]. right. split; [|done]. congruence.
    + by apply stopJob_job_other.
  - intros r' e' (r & Hr & [[Hz ->]|[Hz ->]])%update_rows_elem Hsch.
    + by destruct (Hoff r e').
    + apply stopJob_job_other; [done|congruence|]. by apply Hrows.
Qed.

Lemma consistent_delete s z :
  consistent s →
  consistent (set_clients (filter (fun r => c_id r ≠ z)) (fst (stopJob (Int z) s))).
Proof.
  intros (Hreg & Hnd & Hlt & Hval & Hjobs & Hrows).
  destruct (stopJob_frame (Int z) s) as (_ & _ & Hc & Hq).
  pose proof (stopJob_ok (Int z) s Hreg) as Hreg'.
  split; [exact Hreg'|]. simpl. rewrite Hc, Hq.
  split.
  { clear -Hnd. induction (clients s) as [|r l IH]; [constructor|].
    simpl in Hnd. apply NoDup_cons in Hnd as [Hfresh Hnd].
    rewrite filter_cons. case_decide; [|by apply IH].
    simpl. apply NoDup_cons. split; [|by apply IH].
    intros (r' & Heq & [_ Hr']%list_elem_of_filter)%list_elem_of_fmap.
    apply Hfresh. rewrite Heq. by apply list_elem_of_fmap_2. }
  split; [intros r [_ Hr]%list_elem_of_filter; by apply Hlt|].
  split; [intros r e [_ Hr]%list_elem_of_filter; by apply Hval|].
  split.
  - intros k Hk.
    change (is_Some (activeJobs (fst (stopJob (Int z) s)) !! k)) in Hk.
    rewrite stopJob_lookup in Hk. case_decide as Hne; [by destruct Hk|].
    destruct (Hjobs k Hk) as (r & e' & Hr & -> & Hsch & Hj).
    exists r, e'. split; [|split; [done|split; [done|]]].
    + apply list_elem_of_filter. split; [congruence|done].
    + by apply stopJob_job_other.
  - intros r e [Hz Hr]%list_elem_of_filter Hsch.
    apply stopJob_job_other; [done|congruence|]. by apply Hrows.
Qed.

Lemma consistent_insert s n u p :
  consistent s →
  consistent (State (activeJobs s) (tasks s) (console s)
                    (clients s ++ [Client (clients_id_seq s) n u p None (Some false)])
                    (clients_id_seq s + 1)).
Proof.
  intros (Hreg & Hnd & Hlt & Hval & Hjobs & Hrows).
  split; [exact Hreg|]. simpl.
  split.
  { rewrite fmap_app. apply NoDup_app. split; [done|]. split; [|apply NoDup_singleton].
    intros z (r & -> & Hr)%list_elem_of_fmap Hin. simpl in Hin.
    apply list_elem_of_singleton in Hin. specialize (Hlt r Hr). lia. }
  split.
  { intros r [Hr|Hr%list_elem_of_singleton]%elem_of_app.
    - specialize (Hlt r Hr). lia.
    - subst r. simpl. lia. }
  split.
  { intros r e [Hr|Hr%list_elem_of_singleton]%elem_of_app He; [by eapply Hval|].
    by subst r. }
  split.
  - intros k Hk. destruct (Hjobs k Hk) as (r & e & Hr & -> & Hsch & Hj).
    exists r, e. split; [apply elem_of_app; by left|done].
  - intros r e [Hr|Hr%list_elem_of_singleton]%elem_of_app Hsch.
    + by apply (Hrows r e).
    + subst r. by destruct Hsch.
Qed.

(** A key without a row has no job. *)
Lemma consistent_no_row s k :
  consistent s → (∀ r, r ∈ clients s → k ≠ Int (c_id r)) → isActive s k = false.
Proof.
  intros (_ & _ & _ & _ & Hjobs & _) Hno. unfold isActive.
  apply bool_decide_eq_false. intros Hk.
  destruct (Hjobs k Hk) as (r & e & Hr & -> & _). by apply (Hno r).
Qed.

Lemma startJob_valid_active k e s :
  cron_validate e = true → isActive (fst (startJob k e s)) k = true.
Proof.
  intros Hv. destruct (startJob_valid_job k e s Hv) as (h & Hh & _).
  unfold isActive. apply bool_decide_eq_true. by exists h.
Qed.

(** [PUT /api/clients/:id/schedule] on an expression that passes its two
    checks. *)
Lemma put_schedule_eq fault id e enabled0 s :
  e ≠ "" → cron_validate e = true →
  put_schedule fault id (Str e) enabled0 s =
  match fault with
  | Some msg => (s, Return (Reply 500 (Failure msg)))
  | None =>
      match pg_int4 (parseInt id) with
      | Throw err => (s, Return (Reply 500 (Failure (message err))))
      | Return z =>
          (set_clients
             (fmap (fun r => if decide (c_id r = z)
                             then with_schedule (Some e) (enabled_or_true enabled0) r
                             else r))
             (fst (if on (enabled_or_true enabled0)
                   then startJob (parseInt id) e s
                   else stopJob (parseInt id) s)),
           Return (Reply 200 (Scheduled (parseInt id) e (enabled_or_true enabled0)
                                        (on (enabled_or_true enabled0)))))
      end
  end.
Proof.
  intros He Hv. unfold put_schedule. simpl.
  rewrite (proj2 (String.eqb_neq e "")) by done. simpl. rewrite Hv. simpl.
  unfold try_catch, bind at 1, update_schedule, where_id, rejected.
  destruct fault as [msg|]; [done|].
  destruct (pg_int4 (parseInt id)) as [z|err]; [|done].
  unfold update_rows, modify, bind; simpl.
  destruct (on (enabled_or_true enabled0)).
  - rewrite startJob_set_clients. rewrite (startJob_valid_returns _ _ _ Hv). simpl.
    unfold gets; simpl.
    change (isActive (set_clients _ (fst (startJob (parseInt id) e s))) (parseInt id))
      with (isActive (fst (startJob (parseInt id) e s)) (parseInt id)).
    by rewrite startJob_valid_active.
  - rewrite stopJob_set_clients. simpl. unfold gets; simpl.
    change (isActive (set_clients _ (fst (stopJob (parseInt id) s))) (parseInt id))
      with (isActive (fst (stopJob (parseInt id) s)) (parseInt id)).
    by rewrite stopJob_inactive.
Qed.

(** X3.  [PUT /api/clients/:id/schedule] always answers, and changes
    registry and store only when it answers 200.  It answers 400 exactly
    when the expression is missing, empty or rejected by the validator,
    and 500 exactly when the expression is accepted and the store rejects
    the update or cannot read the id as an integer; in both cases nothing
    has been stored and no job has been started or stopped. *)
Theorem put_schedule_all_or_nothing
    (fault : option string) (id : string) (expression : field) (enabled : flag)
    (s : state) :
  let r := put_schedule fault id expression enabled s in
  let accepted := truthy expression && cron_validate (to_string expression) in
  let stored := bool_decide (fault = None) && binds (parseInt id) in
  ∃ reply, snd r = Return reply ∧
    (reply_status reply = 400 ↔ accepted = false) ∧
    (reply_status reply = 500 ↔ accepted = true ∧ stored = false) ∧
    (reply_status reply = 200 ↔ accepted = true ∧ stored = true) ∧
    (reply_status reply ≠ 200 → fst r = s).
Proof.
  intros r accepted stored.
  destruct (truthy expression) eqn:Ht.
  2:{ subst r accepted. unfold put_schedule. rewrite Ht. simpl.
      eexists. split; [done|]. simpl. intuition congruence. }
  destruct (cron_validate (to_string expression)) eqn:Hv.
  2:{ subst r accepted. unfold put_schedule. rewrite Ht, Hv. simpl.
      eexists. split; [done|]. simpl. intuition congruence. }
  destruct expression as [| |e]; try done. simpl in Ht, Hv.
  apply negb_true_iff, String.eqb_neq in Ht.
  subst r accepted stored. rewrite (put_schedule_eq fault id e enabled s Ht Hv).
  simpl. unfold binds.
  destruct fault as [msg|]; simpl.
  { eexists. split; [done|]. simpl. intuition congruence. }
  destruct (pg_int4 (parseInt id)) as [z|err] eqn:Hz;
    (eexists; split; [done|]; simpl; intuition congruence).
Qed.

Lemma pg_int4_Int k z : pg_int4 k = Return z → k = Int z.
Proof.
  destruct k as [|z']; simpl; [done|]. case_match; [|done]. by intros [= ->].
Qed.

(** X4.  A [PUT] the store takes, with an accepted expression, answers 200
    and leaves the job of that key as the [enabled] member says: started
    under the new expression, the only live timer of the key, when it is
    true or absent; stopped when it is false or null.  Other keys keep
    their entries and timers, and the rows of that id carry the new
    schedule and flag.  No row need have the id: the store is then
    unchanged, and the job is registered all the same. *)
Theorem put_schedule_installs
    (id e : string) (enabled : flag) (s : state) (z : Z) :
  e ≠ "" → cron_validate e = true →
  pg_int4 (parseInt id) = Return z → registry_ok s →
  let r := put_schedule None id (Str e) enabled s in
  let k := parseInt id in
  let v := enabled_or_true enabled in
  snd r = Return (Reply 200 (Scheduled k e v (on v))) ∧
  isActive (fst r) k = on v ∧
  live_timers (fst r) k = (if on v then [Task e k true] else []) ∧
  (∀ k', k' ≠ k →
     activeJobs (fst r) !! k' = activeJobs s !! k' ∧
     live_timers (fst r) k' = live_timers s k') ∧
  clients (fst r) =
    (fun r => if decide (c_id r = z) then with_schedule (Some e) v r else r) <$> clients s ∧
  ((∀ r, r ∈ clients s → c_id r ≠ z) → clients (fst r) = clients s).
Proof.
  intros He Hv Hz Hreg r k v. subst r.
  rewrite (put_schedule_eq None id e enabled s He Hv), Hz. simpl. fold k v.
  split; [done|].
  assert (clients (fst (if on v then startJob k e s else stopJob k s)) = clients s) as Hc.
  { destruct (on v); [apply startJob_frame|apply stopJob_frame]. }
  destruct (on v) eqn:Hon.
  - split; [by apply startJob_valid_active|].
    split; [by apply startJob_valid_live|].
    split; [intros k' Hne; split; [by apply startJob_lookup_other
                                  |by apply startJob_live_other]|].
    rewrite Hc. split; [done|]. apply update_rows_absent.
  - split; [apply stopJob_inactive|].
    split.
    { apply (live_timers_inactive (fst (stopJob k s))); [by apply stopJob_ok|].
      by rewrite stopJob_lookup, decide_True. }
    split.
    { intros k' Hne. split; [|by apply stopJob_live_other].
      rewrite stopJob_lookup, decide_False; [done|congruence]. }
    rewrite Hc. split; [done|]. apply update_rows_absent.
Qed.

Lemma stopJob_idempotent_state k s :
  fst (stopJob k (fst (stopJob k s))) = fst (stopJob k s).
Proof. apply stopJob_unchanged, stopJob_inactive. Qed.

Lemma delete_schedule_eq fault id s :
  delete_schedule fault id s =
  match fault with
  | Some msg => (fst (stopJob (parseInt id) s), Return (Reply 500 (Failure msg)))
  | None =>
      match pg_int4 (parseInt id) with
      | Throw err =>
          (fst (stopJob (parseInt id) s), Return (Reply 500 (Failure (message err))))
      | Return z =>
          (set_clients
             (fmap (fun r => if decide (c_id r = z)
                             then with_schedule None (Some false) r else r))
             (fst (stopJob (parseInt id) s)),
           Return (Reply 200 Success))
      end
  end.
Proof.
  unfold delete_schedule, try_catch, bind. rewrite stopJob_eq; simpl.
  unfold clear_schedule, where_id, rejected.
  destruct fault as [msg|]; [done|].
  by destruct (pg_int4 (parseInt id)) as [z|err].
Qed.

(** X5.  [DELETE /api/clients/:id/schedule] stops the job of the key
    before it touches the store, so the key is inactive afterwards
    whatever the store does.  When the store takes the update the answer
    is 200, every row of that id has a null schedule with the flag off,
    and a second call answers 200 again and changes nothing. *)
Theorem delete_schedule_clears (fault : option string) (id : string) (s : state) :
  let r := delete_schedule fault id s in
  (∃ reply, snd r = Return reply) ∧
  isActive (fst r) (parseInt id) = false ∧
  (∀ z, fault = None → pg_int4 (parseInt id) = Return z →
     snd r = Return (Reply 200 Success) ∧
     (∀ row, row ∈ clients (fst r) → c_id row = z →
        c_schedule row = None ∧ c_schedule_enabled row = Some false) ∧
     delete_schedule None id (fst r) = (fst r, Return (Reply 200 Success))).
Proof.
  intros r. subst r. rewrite delete_schedule_eq.
  split; [destruct fault, (pg_int4 (parseInt id)); by eexists|].
  split.
  { destruct fault, (pg_int4 (parseInt id)); simpl; apply stopJob_inactive. }
  intros z -> Hz. rewrite Hz. simpl. split; [done|].
  destruct (stopJob_frame (parseInt id) s) as (_ & _ & Hc & _).
  split.
  { rewrite Hc. intros row (r0 & Hr0 & [[_ ->]|[Hne ->]])%update_rows_elem Hid; [done|].
    by destruct Hne. }
  rewrite delete_schedule_eq, Hz. rewrite stopJob_set_clients. simpl.
  f_equal. rewrite stopJob_idempotent_state.
  unfold set_clients; simpl. f_equal.
  rewrite <- list_fmap_compose. apply list_fmap_ext. intros i row _. simpl.
  destruct (decide (c_id row = z)) as [Hrow|Hrow]; simpl;
    [by rewrite decide_True|by rewrite decide_False].
Qed.

Lemma toggle_schedule_eq fault1 fault2 id s :
  toggle_schedule fault1 fault2 id s =
  match fault1 with
  | Some msg => (s, Return (Reply 500 (Failure msg)))
  | None =>
  match pg_int4 (parseInt id) with
  | Throw err => (s, Return (Reply 500 (Failure (message err))))
  | Return z =>
  match filter (fun r => c_id r = z) (clients s) with
  | [] => (s, Return (Reply 404 (Failure "Client not found")))
  | r0 :: _ =>
  match c_schedule r0 with
  | None => (s, Return (Reply 400 (Failure "No schedule set")))
  | Some e =>
  if String.eqb e "" then (s, Return (Reply 400 (Failure "No schedule set")))
  else
  match fault2 with
  | Some msg => (s, Return (Reply 500 (Failure msg)))
  | None =>
      let flip := fun r =>
        if decide (c_id r = z)
        then with_schedule (c_schedule r) (Some (negb (on (c_schedule_enabled r0)))) r
        else r in
      if negb (on (c_schedule_enabled r0))
      then (set_clients (fmap flip) (fst (startJob (parseInt id) e s)),
            match snd (startJob (parseInt id) e s) with
            | Return _ =>
                Return (Reply 200
                  (Toggled true (isActive (fst (startJob (parseInt id) e s)) (parseInt id))))
            | Throw err => Return (Reply 500 (Failure (message err)))
            end)
      else (set_clients (fmap flip) (fst (stopJob (parseInt id) s)),
            Return (Reply 200 (Toggled false false)))
  end end end end end.
Proof.
  unfold toggle_schedule, try_catch, bind at 1, select_schedule, where_id, rejected.
  destruct fault1 as [msg|]; [done|].
  destruct (pg_int4 (parseInt id)) as [z|err] eqn:Hz; [|done].
  unfold gets at 1. simpl.
  destruct (filter (fun r => c_id r = z) (clients s)) as [|r0 rest] eqn:Hf; [done|].
  simpl. destruct (c_schedule r0) as [e|] eqn:He; simpl; [|done].
  destruct (String.eqb e "") eqn:Hemp; simpl; [done|].
  unfold bind at 1, update_enabled, where_id, rejected.
  destruct fault2 as [msg|]; [done|]. rewrite Hz.
  unfold update_rows, modify; simpl.
  destruct (on (c_schedule_enabled r0)); simpl.
  - unfold bind. rewrite stopJob_set_clients. simpl. unfold gets; simpl.
    change (isActive (set_clients _ (fst (stopJob (parseInt id) s))) (parseInt id))
      with (isActive (fst (stopJob (parseInt id) s)) (parseInt id)).
    by rewrite stopJob_inactive.
  - unfold bind. rewrite startJob_set_clients. simpl.
    destruct (snd (startJob (parseInt id) e s)); reflexivity.
Qed.

Lemma filter_by_id (l : list client_row) (r0 : client_row) :
  NoDup (c_id <$> l) → r0 ∈ l → filter (fun r => c_id r = c_id r0) l = [r0].
Proof.
  induction l as [|r l IH]; intros Hnd Hin; [by apply elem_of_nil in Hin|].
  simpl in Hnd. apply NoDup_cons in Hnd as [Hfresh Hnd].
  rewrite filter_cons. apply elem_of_cons in Hin as [->|Hin].
  - rewrite decide_True by done. f_equal.
    apply filter_none. intros r' Hr Heq. apply Hfresh. rewrite <- Heq.
    by apply list_elem_of_fmap_2.
  - rewrite decide_False; [by apply IH|].
    intros Heq. apply Hfresh. rewrite Heq. by apply list_elem_of_fmap_2.
Qed.

(** X6.  [PATCH /api/clients/:id/schedule/toggle] answers 404 when the
    store holds no client of that id and 400 when the client has no
    schedule or an empty one, in both cases without a change.  On a
    client with a schedule, registry and store agreeing, it flips the
    flag, starts the job when the flag goes on and stops it when it goes
    off, reports the new flag as [enabled] and as [job_active], and keeps
    registry and store in agreement; a second toggle brings the activity
    of the key back to what it was. *)
Theorem toggle_schedule_flips (id : string) (s : state) (z : Z) :
  pg_int4 (parseInt id) = Return z →
  let r := toggle_schedule None None id s in
  let k := parseInt id in
  ((∀ row, row ∈ clients s → c_id row ≠ z) →
     r = (s, Return (Reply 404 (Failure "Client not found")))) ∧
  (∀ row, consistent s → row ∈ clients s → c_id row = z →
     c_schedule row = None ∨ c_schedule row = Some "" →
     r = (s, Return (Reply 400 (Failure "No schedule set")))) ∧
  (∀ row e, consistent s → row ∈ clients s → c_id row = z →
     c_schedule row = Some e → e ≠ "" →
     let b := negb (on (c_schedule_enabled row)) in
     snd r = Return (Reply 200 (Toggled b b)) ∧
     isActive (fst r) k = b ∧
     isActive s k = negb b ∧
     with_schedule (Some e) (Some b) row ∈ clients (fst r) ∧
     consistent (fst r) ∧
     snd (toggle_schedule None None id (fst r)) = Return (Reply 200 (Toggled (negb b) (negb b))) ∧
     isActive (fst (toggle_schedule None None id (fst r))) k = isActive s k).
Proof.
  intros Hz r k.
  pose proof (pg_int4_Int _ _ Hz) as Hk. fold k in Hk.
  assert (∀ s0 row e, consistent s0 → row ∈ clients s0 → c_id row = z →
            c_schedule row = Some e → e ≠ "" →
            let r0 := toggle_schedule None None id s0 in
            let b := negb (on (c_schedule_enabled row)) in
            snd r0 = Return (Reply 200 (Toggled b b)) ∧
            isActive (fst r0) k = b ∧
            isActive s0 k = negb b ∧
            with_schedule (Some e) (Some b) row ∈ clients (fst r0) ∧
            consistent (fst r0)) as Hflip.
  { intros s0 row e Hcons Hrow Hid He Hne r0 b. subst r0.
    rewrite toggle_schedule_eq, Hz. subst z.
    pose proof Hcons as (Hreg & Hnd & Hlt & Hval & Hjobs & Hrows).
    rewrite (filter_by_id _ row Hnd Hrow), He.
    rewrite (proj2 (String.eqb_neq e "")) by done.
    pose proof (Hval row e Hrow He) as Hv. fold k b.
    assert (isActive s0 k = negb b) as Hwas.
    { subst b. rewrite negb_involutive. unfold isActive.
      destruct (on (c_schedule_enabled row)) eqn:Hon.
      - apply bool_decide_eq_true.
        destruct (c_schedule_enabled row) as [[]|] eqn:Hen; try done.
        destruct (Hrows row e Hrow (conj He Hen)) as (h & Hh & _).
        rewrite Hk. by exists h.
      - apply bool_decide_eq_false. intros Hact.
        destruct (Hjobs k Hact) as (r' & e' & Hr' & Hk' & [_ Hen'] & _).
        assert (row = r') as <-.
        { apply (ids_determine_row (clients s0)); [done..|]. congruence. }
        by rewrite Hen' in Hon. }
    destruct b eqn:Hb.
    - rewrite (startJob_valid_returns k e s0 Hv). simpl.
      rewrite (startJob_valid_active k e s0 Hv).
      split; [done|]. split; [by apply startJob_valid_active|]. split; [done|].
      destruct (startJob_frame k e s0) as [Hc _].
      split.
      { rewrite Hc. apply update_rows_elem. exists row. split; [done|]. left.
        split; [done|]. by rewrite He. }
      rewrite Hk.
      assert (set_clients
                (fmap (fun r1 => if decide (c_id r1 = c_id row)
                                 then with_schedule (c_schedule r1) (Some true) r1 else r1))
                (fst (startJob (Int (c_id row)) e s0)) =
              set_clients
                (fmap (fun r1 => if decide (c_id r1 = c_id row)
                                 then with_schedule (Some e) (Some true) r1 else r1))
                (fst (startJob (Int (c_id row)) e s0))) as ->.
      { unfold set_clients. f_equal. rewrite <- Hk, Hc.
        apply list_fmap_ext. intros i r1 Hr1. simpl.
        case_decide as Hd; [|done].
        apply list_elem_of_lookup_2 in Hr1.
        assert (r1 = row) as -> by (by apply (ids_determine_row (clients s0))).
        by rewrite He. }
      apply (consistent_start s0 (c_id row) e
               (with_schedule (Some e) (Some true)) Hcons Hv); eauto.
    - simpl. split; [done|]. split; [apply stopJob_inactive|]. split; [done|].
      destruct (stopJob_frame k s0) as (_ & _ & Hc & _).
      split.
      { rewrite Hc. apply update_rows_elem. exists row. split; [done|]. left.
        split; [done|]. by rewrite He. }
      rewrite Hk.
      apply (consistent_stop s0 (c_id row)
               (fun r1 => with_schedule (c_schedule r1) (Some false) r1) Hcons).
      + done.
      + by intros r1 e1 [_ ?].
      + intros r1 e1 Hr1 He1. by eapply Hval. }
  split; [|split].
  - intros Hno. subst r. rewrite toggle_schedule_eq, Hz.
    by rewrite (filter_none _ (clients s)) by (intros row Hrow; by apply Hno).
  - intros row Hcons Hrow Hid Hs. subst r z.
    rewrite toggle_schedule_eq, Hz.
    destruct Hcons as (_ & Hnd & _).
    rewrite (filter_by_id _ row Hnd Hrow).
    by destruct Hs as [-> | ->].
  - intros row e Hcons Hrow Hid He Hne b.
    destruct (Hflip s row e Hcons Hrow Hid He Hne) as (Hr & Hact & Hwas & Hin & Hcons').
    fold r in Hr, Hact, Hin, Hcons'. fold b in Hr, Hact, Hwas, Hin.
    repeat (split; [done|]).
    destruct (Hflip (fst r) (with_schedule (Some e) (Some b) row) e)
      as (Hr2 & Hact2 & _); try done.
    simpl in Hr2, Hact2. rewrite Hr2, Hact2, Hwas.
    by destruct b.
Qed.

Lemma consistent_flip s row e :
  consistent s → row ∈ clients s → c_schedule row = Some e →
  let b := negb (on (c_schedule_enabled row)) in
  consistent
    (set_clients
       (fmap (fun r => if decide (c_id r = c_id row)
                       then with_schedule (c_schedule r) (Some b) r else r))
       (fst (if b then startJob (Int (c_id row)) e s else stopJob (Int (c_id row)) s))).
Proof.
  intros Hcons Hrow He b.
  pose proof Hcons as (Hreg & Hnd & Hlt & Hval & Hjobs & Hrows).
  destruct b.
  - destruct (startJob_frame (Int (c_id row)) e s) as [Hc _].
    assert (set_clients
              (fmap (fun r1 => if decide (c_id r1 = c_id row)
                               then with_schedule (c_schedule r1) (Some true) r1 else r1))
              (fst (startJob (Int (c_id row)) e s)) =
            set_clients
              (fmap (fun r1 => if decide (c_id r1 = c_id row)
                               then with_schedule (Some e) (Some true) r1 else r1))
              (fst (startJob (Int (c_id row)) e s))) as ->.
    { unfold set_clients. f_equal. rewrite Hc.
      apply list_fmap_ext. intros i r1 Hr1. simpl.
      case_decide as Hd; [|done].
      apply list_elem_of_lookup_2 in Hr1.
      assert (r1 = row) as -> by (by apply (ids_determine_row (clients s))).
      by rewrite He. }
    apply (consistent_start s (c_id row) e (with_schedule (Some e) (Some true)) Hcons);
      eauto.
  - apply (consistent_stop s (c_id row)
             (fun r1 => with_schedule (c_schedule r1) (Some false) r1) Hcons).
    + done.
    + by intros r1 e1 [_ ?].
    + intros r1 e1 Hr1 He1. by eapply Hval.
Qed.

Lemma delete_clients_id_eq fault id s :
  delete_clients_id fault id s =
  match fault with
  | Some msg => (fst (stopJob (parseInt id) s), Return (Response 500 (JsonError msg)))
  | None =>
      match int4_in id with
      | None =>
          (fst (stopJob (parseInt id) s),
           Return (Response 500 (JsonError
             ("invalid input syntax for type integer: " +:+ dquote +:+ id +:+ dquote))))
      | Some z =>
          (set_clients (filter (fun r => c_id r ≠ z)) (fst (stopJob (parseInt id) s)),
           Return (Response 200 JsonSuccess))
      end
  end.
Proof.
  unfold delete_clients_id, try_catch, bind. rewrite stopJob_eq; simpl.
  unfold delete_client, rejected.
  destruct fault as [msg|]; [done|].
  by destruct (int4_in id).
Qed.

Lemma post_clients_state fault name url platform s :
  fst (post_clients fault name url platform s) = s ∨
  ∃ n u p, fst (post_clients fault name url platform s) =
           State (activeJobs s) (tasks s) (console s)
                 (clients s ++ [Client (clients_id_seq s) n u p None (Some false)])
                 (clients_id_seq s + 1).
Proof.
  unfold post_clients.
  destruct (truthy name) eqn:Hn; simpl; [|by left].
  destruct (truthy url) eqn:Hu; simpl; [|by left].
  destruct (platform_listed (with_default "both" platform)) eqn:Hp; simpl; [|by left].
  unfold try_catch, bind, new_URL.
  destruct (url_parses (to_string url)); simpl.
  2:{ left. by repeat case_decide. }
  unfold insert_client, rejected. destruct fault as [msg|]; simpl.
  { left. by repeat case_decide. }
  unfold bind, gets; simpl.
  destruct (existsb _ (clients s)); simpl; [left; by repeat case_decide|].
  destruct (existsb _ (clients s)); simpl; [left; by repeat case_decide|].
  right. by eexists _, _, _.
Qed.

Lemma consistent_inactive_stop s k :
  consistent s → isActive s k = false → consistent (fst (stopJob k s)).
Proof. intros Hc Hk. by rewrite stopJob_unchanged. Qed.

Lemma handler_keeps_agreement (s : state) (c : call) :
  consistent s → admissible s c → consistent (after c s).
Proof.
  intros Hcons Hadm. destruct c as [fault name url platform|fault id
    |fault id expression enabled|fault id|fault1 fault2 id]; simpl in *.
  - destruct (post_clients_state fault name url platform s) as [->|(n & u & p & ->)];
      [done|by apply consistent_insert].
  - rewrite delete_clients_id_eq.
    destruct fault as [msg|]; simpl; [by apply consistent_inactive_stop|].
    destruct (int4_in id) as [z|]; simpl; [|by apply consistent_inactive_stop].
    rewrite Hadm. by apply consistent_delete.
  - destruct (truthy expression) eqn:Ht;
      [|unfold put_schedule; by rewrite Ht].
    destruct (cron_validate (to_string expression)) eqn:Hv;
      [|unfold put_schedule; by rewrite Ht, Hv].
    destruct expression as [| |e]; try done. simpl in Ht, Hv.
    apply negb_true_iff, String.eqb_neq in Ht.
    rewrite (put_schedule_eq fault id e enabled s Ht Hv).
    destruct fault as [msg|]; [done|].
    destruct (pg_int4 (parseInt id)) as [z|err] eqn:Hz; [|done].
    simpl. rewrite (pg_int4_Int _ _ Hz).
    destruct (on (enabled_or_true enabled)) eqn:Hon.
    + destruct (Hadm eq_refl) as (r0 & Hr0 & Hk).
      rewrite (pg_int4_Int _ _ Hz) in Hk. injection Hk as ->.
      apply consistent_start; eauto.
      intros r. split; [done|]. simpl.
      by destruct (enabled_or_true enabled) as [[]|].
    + apply consistent_stop; [done|done| |].
      * intros r e' [_ He']. simpl in He'. by rewrite He' in Hon.
      * intros r e' _ [= <-]. done.
  - rewrite delete_schedule_eq. unfold binds in Hadm.
    destruct fault as [msg|]; simpl in *; [by apply consistent_inactive_stop|].
    destruct (pg_int4 (parseInt id)) as [z|err] eqn:Hz; simpl in *;
      [|by apply consistent_inactive_stop].
    rewrite (pg_int4_Int _ _ Hz).
    apply consistent_stop; [done|done|by intros r e' [? _]|by intros r e' _ ?].
  - rewrite toggle_schedule_eq.
    destruct fault1 as [msg|]; [done|].
    destruct (pg_int4 (parseInt id)) as [z|err] eqn:Hz; [|done].
    destruct (filter (fun r => c_id r = z) (clients s)) as [|r0 rest] eqn:Hf; [done|].
    assert (r0 ∈ clients s ∧ c_id r0 = z) as [Hr0 Hid].
    { assert (r0 ∈ filter (fun r => c_id r = z) (clients s)) as Hin
        by (rewrite Hf; left).
      by apply list_elem_of_filter in Hin as [? ?]. }
    destruct (c_schedule r0) as [e|] eqn:He; [|done].
    destruct (String.eqb e ""); [done|].
    destruct fault2 as [msg|]; [done|].
    rewrite (pg_int4_Int _ _ Hz). subst z.
    pose proof (consistent_flip s r0 e Hcons Hr0 He) as Hflip. simpl in Hflip.
    by destruct (negb (on (c_schedule_enabled r0))).
Qed.

Lemma run_keeps_agreement (cs : list call) (s : state) :
  consistent s → all_admissible s cs → consistent (run s cs).
Proof.
  revert s. induction cs as [|c cs IH]; intros s Hcons Hadm; [done|].
  destruct Hadm as [Hc Hcs]. simpl. apply IH; [|done].
  by apply handler_keeps_agreement.
Qed.

Lemma consistent_active s row :
  consistent s → row ∈ clients s →
  (isActive s (Int (c_id row)) = true ↔ ∃ e, scheduled row e).
Proof.
  intros (Hreg & Hnd & Hlt & Hval & Hjobs & Hrows) Hrow. unfold isActive.
  rewrite bool_decide_eq_true. split.
  - intros Hact. destruct (Hjobs _ Hact) as (r & e & Hr & [= Hid] & Hsch & _).
    assert (row = r) as -> by (by apply (ids_determine_row (clients s))).
    by exists e.
  - intros [e Hsch]. destruct (Hrows row e Hrow Hsch) as (h & Hh & _). by exists h.
Qed.

(** X7.  Registry and store stay in agreement under the handlers.  From a
    state in which the registered jobs are exactly the stored schedules
    that are switched on, any run of client registrations and deletions
    and of schedule updates, deletions and toggles, each admissible where
    it arrives and with the store free to reject any statement, ends in
    such a state: a stored client then has an active job exactly when it
    has a schedule and the flag is on, and the job runs under the stored
    expression. *)
Theorem handlers_keep_registry_and_store_agreed (s : state) (cs : list call) :
  consistent s → all_admissible s cs →
  consistent (run s cs) ∧
  ∀ row, row ∈ clients (run s cs) →
    (isActive (run s cs) (Int (c_id row)) = true ↔ ∃ e, scheduled row e) ∧
    (∀ e, scheduled row e →
       live_timers (run s cs) (Int (c_id row)) = [Task e (Int (c_id row)) true]).
Proof.
  intros Hcons Hadm.
  pose proof (run_keeps_agreement cs s Hcons Hadm) as Hrun.
  split; [done|]. intros row Hrow.
  split; [by apply consistent_active|].
  intros e Hsch. destruct Hrun as (Hreg & _ & _ & _ & _ & Hrows).
  apply job_live; [done|]. by apply Hrows.
Qed.

Lemma restore_one_frame s row :
  clients (restore_one s row) = clients s ∧
  clients_id_seq (restore_one s row) = clients_id_seq s.
Proof.
  destruct row as [id e]. rewrite restore_one_eq.
  destruct (cron_validate e); [apply startJob_frame|].
  simpl. by destruct (stopJob_frame (Int id) s) as (_ & _ & ? & ?).
Qed.

Lemma restore_all_frame rows s :
  clients (foldl restore_one s rows) = clients s ∧
  clients_id_seq (foldl restore_one s rows) = clients_id_seq s.
Proof.
  revert s. induction rows as [|row rows IH]; intros s; [done|]. simpl.
  destruct (IH (restore_one s row)) as [-> ->]. apply restore_one_frame.
Qed.

Lemma recovery_agreement (rows : list client_row) (seq : Z) :
  NoDup (c_id <$> rows) →
  (∀ r, r ∈ rows → c_id r < seq) →
  (∀ r e, r ∈ rows → c_schedule r = Some e → cron_validate e = true) →
  consistent (fst (initSchedules None (boot rows seq))).
Proof.
  intros Hnd Hlt Hval. rewrite initSchedules_eq. simpl.
  set (s0 := boot rows seq).
  pose proof (boot_ok rows seq) as Hreg0. fold s0 in Hreg0.
  pose proof (restore_all_ok (candidates s0) s0 Hreg0) as Hreg.
  destruct (restore_all_frame (candidates s0) s0) as [Hc Hq].
  pose proof (candidates_NoDup rows Hnd) as Hnd'.
  assert (∀ r e, r ∈ rows → scheduled r e →
            job (foldl restore_one s0 (candidates s0)) (Int (c_id r)) e) as Hrows.
  { intros r e Hr [Hs He].
    assert ((c_id r, e) ∈ candidates s0) as Hin.
    { apply list_elem_of_omap. exists r. split; [done|].
      unfold enabled_schedule. by rewrite Hs, He. }
    pose proof (restore_all_row _ s0 _ _ Hreg0 Hnd' Hin) as Hrow.
    simpl in Hrow. by rewrite (Hval r e Hr Hs) in Hrow. }
  split; [exact Hreg|]. simpl. rewrite Hc, Hq. simpl.
  split; [done|]. split; [done|]. split; [done|].
  split; [|done].
  intros k Hk.
  change (is_Some (activeJobs (foldl restore_one s0 (candidates s0)) !! k)) in Hk.
  assert (∃ id, k = Int id ∧ id ∈ (candidates s0).*1) as (id & -> & Hid).
  { destruct k as [|id].
    - destruct (restore_all_other (candidates s0) s0 NaN Hreg0) as [Ha _]; [done|].
      rewrite Ha in Hk. simpl in Hk. rewrite lookup_empty in Hk. by destruct Hk.
    - destruct (decide (id ∈ (candidates s0).*1)) as [Hin|Hout]; [by exists id|].
      destruct (restore_all_other (candidates s0) s0 (Int id) Hreg0) as [Ha _].
      { by intros z [= <-]. }
      rewrite Ha in Hk. simpl in Hk. rewrite lookup_empty in Hk. by destruct Hk. }
  apply list_elem_of_fmap in Hid as ([id' e] & -> & Hin). simpl.
  apply list_elem_of_omap in Hin as (r & Hr & He).
  unfold enabled_schedule in He.
  destruct (c_schedule r) as [e0|] eqn:Hs; [|done].
  destruct (c_schedule_enabled r) as [[]|] eqn:Hen; try done.
  injection He as <- <-.
  exists r, e0. split; [done|]. split; [done|]. split; [done|].
  by apply Hrows.
Qed.

(** X8.  Recovery brings the registry into agreement with the store.  At
    boot, over stored clients with unique ids below the sequence whose
    stored expressions the validator accepts, [initSchedules] leaves the
    registered jobs exactly the stored schedules that are switched on,
    and every admissible run of requests after it keeps them so. *)
Theorem recovery_establishes_agreement
    (rows : list client_row) (seq : Z) (cs : list call) :
  NoDup (c_id <$> rows) →
  (∀ r, r ∈ rows → c_id r < seq) →
  (∀ r e, r ∈ rows → c_schedule r = Some e → cron_validate e = true) →
  let s := fst (initSchedules None (boot rows seq)) in
  consistent s ∧
  (∀ row, row ∈ rows → (isActive s (Int (c_id row)) = true ↔ ∃ e, scheduled row e)) ∧
  (all_admissible s cs → consistent (run s cs)).
Proof.
  intros Hnd Hlt Hval s.
  pose proof (recovery_agreement rows seq Hnd Hlt Hval) as Hcons. fold s in Hcons.
  split; [done|]. split.
  - intros row Hrow. apply consistent_active; [done|].
    subst s. rewrite initSchedules_eq. simpl.
    by destruct (restore_all_frame (candidates (boot rows seq)) (boot rows seq)) as [-> _].
  - by apply run_keeps_agreement.
Qed.

End ScheduleHandlers.

Section ScheduleExamples.
Import Gui Registry Schedules Consistency Sample Scenario.
#[local] Existing Instance Sample.libraries.

Lemma registered_recovered :
  consistent (fst (initSchedules None (boot registered 4))).
Proof.
  apply recovery_agreement.
  - compute_done.
  - intros r Hr. unfold registered in Hr.
    repeat (apply elem_of_cons in Hr as [->|Hr]; [simpl; lia|]).
    by apply elem_of_nil in Hr.
  - intros r e Hr He. unfold registered in Hr.
    repeat (apply elem_of_cons in Hr as [->|Hr];
            [simpl in He; by simplify_eq|]).
    by apply elem_of_nil in Hr.
Qed.

(** A schedule for a client that does not exist: the store is untouched
    and the job is registered. *)
Lemma put_schedule_installs_witness :
  let r := put_schedule None "7" (Str "*/5 * * * *") FlagUndefined (boot registered 4) in
  isActive (fst r) (Int 7) = true ∧ clients (fst r) = registered.
Proof.
  pose proof (put_schedule_installs (L := Sample.libraries)
                "7" "*/5 * * * *" FlagUndefined (boot registered 4) 7
                ltac:(done) eq_refl eq_refl (boot_ok registered 4))
    as (_ & Hact & _ & _ & _ & Habsent).
  split; [exact Hact|]. apply Habsent.
  intros r Hr. unfold registered in Hr.
  repeat (apply elem_of_cons in Hr as [->|Hr]; [done|]).
  by apply elem_of_nil in Hr.
Defined.

(** Clearing the schedule of client 1 after recovery. *)
Lemma delete_schedule_clears_witness :
  let s := fst (initSchedules None (boot registered 4)) in
  let r := delete_schedule None "1" s in
  isActive s (Int 1) = true ∧
  snd r = Return (Reply 200 Success) ∧
  isActive (fst r) (Int 1) = false ∧
  delete_schedule None "1" (fst r) = (fst r, Return (Reply 200 Success)).
Proof.
  pose proof (delete_schedule_clears None "1"
                (fst (initSchedules None (boot registered 4))))
    as (_ & Hinactive & Hdone).
  destruct (Hdone 1 eq_refl eq_refl) as (Hreply & _ & Hagain).
  split; [reflexivity|]. split; [exact Hreply|]. split; [exact Hinactive|exact Hagain].
Defined.

(** Toggling client 2, whose schedule is switched off, after recovery. *)
Lemma toggle_schedule_flips_witness :
  let s := fst (initSchedules None (boot registered 4)) in
  let r := toggle_schedule None None "2" s in
  snd r = Return (Reply 200 (Toggled true true)) ∧
  isActive s (Int 2) = false ∧
  isActive (fst r) (Int 2) = true ∧
  isActive (fst (toggle_schedule None None "2" (fst r))) (Int 2) = false.
Proof.
  pose proof (toggle_schedule_flips (L := Sample.libraries) "2"
                (fst (initSchedules None (boot registered 4))) 2 eq_refl)
    as (_ & _ & Hflip).
  assert (Client 2 "two" "https://two.example" "mobile" (Some "0 3 * * *") (Some false)
            ∈ clients (fst (initSchedules None (boot registered 4)))) as Hrow
    by compute_done.
  destruct (Hflip _ "0 3 * * *" registered_recovered Hrow eq_refl eq_refl ltac:(done))
    as (Hreply & Hact & Hwas & _ & _ & _ & Hback).
  split; [exact Hreply|]. split; [exact Hwas|]. split; [exact Hact|].
  exact (eq_trans Hback Hwas).
Defined.

Lemma requests_admissible :
  all_admissible (fst (initSchedules None (boot registered 4))) requests.
Proof.
  simpl. split; [done|]. split; [done|]. split; [done|]. split; [|done].
  reflexivity.
Qed.

Lemma handlers_keep_registry_and_store_agreed_witness :
  let s := run (fst (initSchedules None (boot registered 4))) requests in
  consistent s ∧
  c_id <$> clients s = [1; 2; 4] ∧
  isActive s (Int 1) = false ∧
  isActive s (Int 2) = true.
Proof.
  destruct (handlers_keep_registry_and_store_agreed (L := Sample.libraries)
              (fst (initSchedules None (boot registered 4))) requests
              registered_recovered requests_admissible) as [Hcons _].
  split; [exact Hcons|]. split; [reflexivity|]. split; reflexivity.
Defined.

Lemma recovery_establishes_agreement_witness :
  let s := fst (initSchedules None (boot registered 4)) in
  consistent s ∧ consistent (run s requests).
Proof.
  destruct (recovery_establishes_agreement (L := Sample.libraries) registered 4 requests)
    as (Hcons & _ & Hrun).
  - compute_done.
  - intros r Hr. unfold registered in Hr.
    repeat (apply elem_of_cons in Hr as [->|Hr]; [simpl; lia|]).
    by apply elem_of_nil in Hr.
  - intros r e Hr He. unfold registered in Hr.
    repeat (apply elem_of_cons in Hr as [->|Hr];
            [simpl in He; by simplify_eq|]).
    by apply elem_of_nil in Hr.
  - split; [exact Hcons|]. apply Hrun, requests_admissible.
Defined.

End ScheduleExamples.

(* ===================================================================== *)
(** ** Waiting for the store at start-up *)
(* ===================================================================== *)

Section WaitForDb.
Import Boot.

Lemma wait_loop_step up retries delay n i s :
  wait_loop up retries delay (S n) i s =
  if up i
  then (State (S (queries s)) (slept s) (printed s ++ [Connected]), Return tt)
  else wait_loop up retries delay n (S i)
         (State (S (queries s)) (slept s + delay)
                (printed s ++ [Waiting (i + 1) retries])).
Proof.
  simpl. unfold bind at 1, try_catch, bind at 1, query.
  destruct (up i); reflexivity.
Qed.

Lemma wait_loop_connects up retries delay n i k s :
  (k < n)%nat → up (i + k)%nat = true →
  (∀ j, (j < k)%nat → up (i + j)%nat = false) →
  wait_loop up retries delay n i s =
  (State (queries s + k + 1) (slept s + Z.of_nat k * delay)
         (printed s ++ ((fun a => Waiting a retries) <$> seq (i + 1) k) ++ [Connected]),
   Return tt).
Proof.
  revert i k s. induction n as [|n IH]; intros i k s Hk Hup Hdown; [lia|].
  rewrite wait_loop_step. destruct k as [|k].
  - rewrite Nat.add_0_r in Hup. rewrite Hup. simpl.
    do 2 f_equal; [lia|lia].
  - pose proof (Hdown 0%nat ltac:(lia)) as H0. rewrite Nat.add_0_r in H0. rewrite H0.
    rewrite (IH (S i) k); simpl.
    + do 2 f_equal; [lia|lia|by rewrite <- app_assoc].
    + lia.
    + by replace (S (i + k)) with (i + S k)%nat by lia.
    + intros j Hj. replace (S (i + j)) with (i + S j)%nat by lia. apply Hdown. lia.
Qed.

Lemma wait_loop_gives_up up retries delay n i s :
  (∀ j, (j < n)%nat → up (i + j)%nat = false) →
  wait_loop up retries delay n i s =
  (State (queries s + n) (slept s + Z.of_nat n * delay)
         (printed s ++ ((fun a => Waiting a retries) <$> seq (i + 1) n)),
   Throw (new_Error "Could not connect to database")).
Proof.
  revert i s. induction n as [|n IH]; intros i s Hdown.
  - simpl. unfold throw. destruct s. simpl. do 2 f_equal; [lia|lia|by rewrite app_nil_r].
  - rewrite wait_loop_step.
    pose proof (Hdown 0%nat ltac:(lia)) as H0. rewrite Nat.add_0_r in H0. rewrite H0.
    rewrite (IH (S i)); simpl.
    + do 2 f_equal; [lia|lia|by rewrite <- app_assoc].
    + intros j Hj. replace (S (i + j)) with (i + S j)%nat by lia. apply Hdown. lia.
Qed.

(** X9.  [waitForDb] queries the store until the first answer and gives up
    after [retries] queries.  When the query of iteration [k] is the first
    answered, with [k] below [retries], it returns after [k + 1] queries,
    having slept [k] times and printed [k] waiting lines, numbered from 1,
    and the connected line.  When none of the first [retries] queries is
    answered it throws after exactly [retries] queries and as many sleeps;
    with [retries] at 0 it throws without a query. *)
Theorem waitForDb_attempts (up : nat → bool) (retries : nat) (delay : Z) (s : state) :
  let r := waitForDb up retries delay s in
  (∀ k, (k < retries)%nat → up k = true → (∀ j, (j < k)%nat → up j = false) →
     r = (State (queries s + k + 1) (slept s + Z.of_nat k * delay)
                (printed s ++ ((fun a => Waiting a retries) <$> seq 1 k) ++ [Connected]),
          Return tt)) ∧
  ((∀ j, (j < retries)%nat → up j = false) →
     r = (State (queries s + retries) (slept s + Z.of_nat retries * delay)
                (printed s ++ ((fun a => Waiting a retries) <$> seq 1 retries)),
          Throw (new_Error "Could not connect to database"))) ∧
  (queries (fst r) ≤ queries s + retries)%nat.
Proof.
  intros r. subst r. unfold waitForDb.
  split; [|split].
  - intros k Hk Hup Hdown. by apply (wait_loop_connects up retries delay retries 0 k).
  - intros Hdown. by apply (wait_loop_gives_up up retries delay retries 0).
  - generalize 0%nat at 1 as i. generalize retries at 2 3 as n. revert s.
    intros s n. revert s. induction n as [|n IH]; intros s i; [simpl; lia|].
    rewrite wait_loop_step. destruct (up i); simpl; [lia|].
    etrans; [apply IH|]. simpl. lia.
Qed.

End WaitForDb.

Section WaitForDbExamples.
Import Boot.

(** A store that answers the third query, under the defaults of ten
    retries three seconds apart. *)
Lemma waitForDb_attempts_witness :
  waitForDb (fun i => bool_decide (2 ≤ i)%nat) 10 3000 (State 0 0 []) =
  (State 3 6000 [Waiting 1 10; Waiting 2 10; Connected], Return tt).
Proof.
  refine (proj1 (waitForDb_attempts (fun i => bool_decide (2 ≤ i)%nat) 10 3000
                   (State 0 0 [])) 2%nat _ eq_refl _).
  - lia.
  - intros j Hj. apply bool_decide_eq_false. lia.
Defined.

End WaitForDbExamples.

(* ===================================================================== *)
(** ** The audits table over many invocations *)
(* ===================================================================== *)

Section AuditTable.
Import Lighthouse Runs Shapes.
Context `{L : Libraries}.

Lemma form_factor_of_cases req : form_factor_of req ∈ ["mobile"; "desktop"].
Proof. unfold form_factor_of. case_decide; compute_done. Qed.

(** What one invocation does to the store: nothing, or one new row under
    the id the sequence hands out, in one of the three shapes. *)
Lemma audit_effect fs engine req s :
  store_ok s →
  let s' := fst (audit fs engine req s) in
  let row0 := running_row (audits_id_seq s) (to_string (client_id req))
                          (form_factor_of req) in
  s' = s ∨
  ∃ row tr,
    s' = State (audits s ++ [row]) (audits_id_seq s + 1) (history s ++ tr) ∧
    (row = row0 ∨
     (∃ report, engine = Return report ∧
        row = set_completed (extract_scores (categories report)) report row0) ∨
     (∃ msg, row = set_failed msg row0)).
Proof.
  intros Hok s' row0. subst s'. rewrite audit_unfold.
  destruct (truthy (url req)); simpl; [|by left].
  destruct (url_parses (to_string (url req))); simpl; [|by left].
  assert (id_truthy (Some (audits_id_seq s)) = Some (audits_id_seq s)) as Hid.
  { unfold id_truthy. destruct Hok as [Hpos _]. rewrite decide_False; [done|lia]. }
  assert (∀ err,
            let s1 := State (audits s ++ [row0]) (audits_id_seq s + 1)
                            (history s ++ [(audits_id_seq s, "running")]) in
            ∃ row tr,
              fst (mark_failed fs (Some (audits_id_seq s)) err s1) =
                State (audits s ++ [row]) (audits_id_seq s + 1) (history s ++ tr) ∧
              (row = row0 ∨ ∃ msg, row = set_failed msg row0)) as Hfail.
  { intros err s1. subst s1. unfold mark_failed. rewrite Hid.
    unfold try_catch, update_failed.
    destruct (update_failed_fault fs) as [m|]; simpl.
    - exists row0, [(audits_id_seq s, "running")]. split; [done|by left].
    - rewrite (update_after_insert s row0 _ "failed" Hok eq_refl); simpl.
      eexists _, _. split; [done|]. right. by eexists. }
  unfold create_record.
  destruct (truthy (client_id req)) eqn:Hc; simpl.
  2:{ destruct engine as [report|err]; simpl.
      - unfold save_result; simpl. rewrite Hc. by left.
      - by left. }
  unfold try_catch at 1, bind at 1, insert_running, rejected.
  destruct (insert_running_fault fs) as [m|]; simpl.
  - (* the running insert is rejected *)
    destruct engine as [report|err]; simpl; [|by left].
    unfold save_result; simpl. rewrite Hc.
    unfold bind, insert_completed, rejected.
    destruct (insert_completed_fault fs) as [m'|]; simpl; [by left|].
    right. eexists _, _. split; [done|]. right. left. by exists report.
  - (* the running row exists *)
    fold row0.
    destruct engine as [report|err]; simpl.
    + unfold save_result. rewrite Hid. unfold bind, update_completed.
      destruct (update_completed_fault fs) as [m'|]; simpl.
      * right. destruct (Hfail (store_error m')) as (row & tr & Hs1 & Hrow).
        exists row, tr. split; [exact Hs1|]. destruct Hrow as [->|[msg ->]]; [by left|].
        right. right. by exists msg.
      * rewrite (update_after_insert s row0 _ "completed" Hok eq_refl); simpl.
        right. eexists _, _. split; [done|]. right. left. by exists report.
    + right. destruct (Hfail err) as (row & tr & Hs1 & Hrow).
      exists row, tr. split; [exact Hs1|]. destruct Hrow as [->|[msg ->]]; [by left|].
      right. right. by exists msg.
Qed.

Lemma audits_ok_step fs engine req s :
  audits_ok s →
  audits_ok (fst (audit fs engine req s)) ∧
  ∃ new, audits (fst (audit fs engine req s)) = audits s ++ new ∧ (length new ≤ 1)%nat.
Proof.
  intros (Hok & Hnd & Hshape).
  destruct (audit_effect fs engine req s Hok) as [->|(row & tr & -> & Hrow)].
  { split; [done|]. exists []. split; [by rewrite app_nil_r|simpl; lia]. }
  assert (a_id row = audits_id_seq s ∧ well_shaped row) as [Hid Hws].
  { pose proof (form_factor_of_cases req) as Hff.
    destruct Hrow as [->|[(report & _ & ->)|(msg & ->)]]; (split; [done|]);
      (split; [done|]).
    - left. repeat split; try done. unfold persisted_scores; simpl. by repeat constructor.
    - right. left. repeat split; try done.
      unfold persisted_scores; simpl. by repeat constructor.
    - right. right. repeat split; try done.
      unfold persisted_scores; simpl. by repeat constructor. }
  split; [|exists [row]; split; [done|simpl; lia]].
  destruct Hok as [Hpos Hlt].
  split; [split|split]; simpl.
  - lia.
  - intros r [Hr|Hr%list_elem_of_singleton]%elem_of_app.
    + specialize (Hlt r Hr). lia.
    + subst r. lia.
  - rewrite fmap_app. apply NoDup_app. split; [done|]. split; [|apply NoDup_singleton].
    intros z (r & -> & Hr)%list_elem_of_fmap Hin. simpl in Hin.
    apply list_elem_of_singleton in Hin. specialize (Hlt r Hr). lia.
  - intros r [Hr|Hr%list_elem_of_singleton]%elem_of_app; [by apply Hshape|by subst r].
Qed.

(** X10.  The audits table keeps its shape and its past.  From a table
    whose rows have distinct ids below the sequence and are each running
    with nothing filled in, completed with the five scores and the report,
    or failed with the error message only, any series of invocations of
    the audit endpoint, whatever the requests, the engine and the store
    do, leaves such a table; the rows it held are still there, in place
    and unchanged, and each invocation has added one row at most. *)
Theorem audits_table_keeps_shape (s : state) (calls : list invocation) :
  audits_ok s →
  audits_ok (serve s calls) ∧
  ∃ new, audits (serve s calls) = audits s ++ new ∧ (length new ≤ length calls)%nat.
Proof.
  revert s. induction calls as [|[fs engine req] calls IH]; intros s Hok; simpl.
  { split; [done|]. exists []. split; [by rewrite app_nil_r|simpl; lia]. }
  destruct (audits_ok_step fs engine req s Hok) as (Hok1 & new1 & Hnew1 & Hlen1).
  destruct (IH _ Hok1) as (Hok2 & new2 & Hnew2 & Hlen2).
  split; [done|]. exists (new1 ++ new2). split.
  - by rewrite Hnew2, Hnew1, app_assoc.
  - rewrite length_app. lia.
Qed.

Lemma filter_by_key {A} (key : A → Z) (l : list A) (x : A) :
  NoDup (key <$> l) → x ∈ l → filter (fun y => key y = key x) l = [x].
Proof.
  induction l as [|y l IH]; intros Hnd Hin; [by apply elem_of_nil in Hin|].
  simpl in Hnd. apply NoDup_cons in Hnd as [Hfresh Hnd].
  rewrite filter_cons. apply elem_of_cons in Hin as [->|Hin].
  - rewrite decide_True by done. f_equal.
    apply filter_none. intros y' Hy Heq. apply Hfresh. rewrite <- Heq.
    by apply list_elem_of_fmap_2.
  - rewrite decide_False; [by apply IH|].
    intros Heq. apply Hfresh. rewrite Heq. by apply list_elem_of_fmap_2.
Qed.

Lemma get_report_eq fault id s :
  get_report fault id s =
  (s, Return
        match fault with
        | Some msg => NoReport 500 msg
        | None =>
            match int4_in id with
            | None => NoReport 500 ("invalid input syntax for type integer: "
                                    +:+ dquote +:+ id +:+ dquote)
            | Some z =>
                match filter (fun r => a_id r = z) (audits s) with
                | [] => NoReport 404 "Audit not found"
                | row :: _ =>
                    match a_report_json row with
                    | None => NoReport 404 "No report saved for this audit"
                    | Some report => Report report
                    end
                end
            end
        end).
Proof.
  unfold get_report, try_catch, bind, rejected.
  destruct fault as [msg|]; [done|].
  destruct (int4_in id) as [z|]; [|done].
  unfold gets; simpl.
  destruct (filter (fun r => a_id r = z) (audits s)) as [|row rest]; [done|].
  simpl. by destruct (a_report_json row).
Qed.

(** X11.  [GET /api/audits/:id/report] reads without writing and always
    answers.  Over a table of the shapes above, when the store answers and
    reads the id as an integer: the report is served exactly for a
    completed run, and it is the report stored with that run; a run that
    is running or failed is answered 404 for having no report; an id no
    run has is answered 404 for the run. *)
Theorem get_report_serves_completed (fault : option string) (id : string) (s : state) :
  let r := get_report fault id s in
  fst r = s ∧
  (∃ reply, snd r = Return reply) ∧
  (∀ z, audits_ok s → fault = None → int4_in id = Some z →
     (∀ row, row ∈ audits s → a_id row = z →
        (a_status row = "completed" →
           ∃ report, a_report_json row = Some report ∧ snd r = Return (Report report)) ∧
        (a_status row ≠ "completed" →
           snd r = Return (NoReport 404 "No report saved for this audit"))) ∧
     ((∀ row, row ∈ audits s → a_id row ≠ z) →
        snd r = Return (NoReport 404 "Audit not found"))).
Proof.
  intros r. subst r. rewrite get_report_eq. simpl.
  split; [done|]. split; [by eexists|].
  intros z (_ & Hnd & Hshape) -> ->. split.
  - intros row Hrow <-.
    rewrite (filter_by_key a_id (audits s) row Hnd Hrow).
    destruct (Hshape row Hrow) as [_ [(Hst & _ & Hrep & _)|[(Hst & _ & Hrep & _)
                                                            |(Hst & _ & Hrep & _)]]].
    + rewrite Hrep, Hst. split; [done|]. done.
    + destruct Hrep as [report Hrep]. rewrite Hrep. split; [by exists report|].
      by rewrite Hst.
    + rewrite Hrep, Hst. split; [done|]. done.
  - intros Hno. by rewrite (filter_none _ (audits s)) by (intros row Hrow; by apply Hno).
Qed.

End AuditTable.

Section AuditTableExamples.
Import Lighthouse Runs Shapes Sample.
#[local] Existing Instance Sample.libraries.

Lemma fresh_audits_ok : audits_ok fresh.
Proof.
  split; [apply fresh_ok|]. split; [constructor|].
  intros r Hr. by apply elem_of_nil in Hr.
Qed.

(** Three invocations on an empty table: one completes, one fails in the
    engine, one names no client. *)
Lemma audits_table_keeps_shape_witness :
  let calls := [ Invocation no_faults (Return report) with_client;
                 Invocation no_faults (Throw (new_Error "navigation timeout")) with_client;
                 Invocation no_faults (Return report) without_client ] in
  audits_ok (serve fresh calls) ∧
  a_status <$> audits (serve fresh calls) = ["completed"; "failed"].
Proof.
  intros calls.
  destruct (audits_table_keeps_shape (L := Sample.libraries) fresh calls fresh_audits_ok)
    as [Hok _].
  split; [exact Hok|reflexivity].
Defined.

(** The report of the run that completed is served; the run that failed
    has none. *)
Lemma get_report_serves_completed_witness :
  let s := serve fresh
             [ Invocation no_faults (Return report) with_client;
               Invocation no_faults (Throw (new_Error "navigation timeout")) with_client ] in
  snd (get_report None "1" s) = Return (Report report) ∧
  snd (get_report None "2" s) = Return (NoReport 404 "No report saved for this audit") ∧
  snd (get_report None "3" s) = Return (NoReport 404 "Audit not found").
Proof.
  intros s.
  assert (audits_ok s) as Hok.
  { apply (audits_table_keeps_shape (L := Sample.libraries)), fresh_audits_ok. }
  pose proof (get_report_serves_completed (L := Sample.libraries) None "2" s)
    as (_ & _ & Hserve).
  destruct (Hserve 2 Hok eq_refl eq_refl) as [Hrow _].
  split; [reflexivity|]. split; [|reflexivity].
  refine (proj2 (Hrow (set_failed "navigation timeout" (running_row 2 "1" "mobile")) _ eq_refl) _);
    [vm_compute; apply list_elem_of_further, list_elem_of_here|done].
Defined.

End AuditTableExamples.

(* ===================================================================== *)
(** ** The browser of an audit *)
(* ===================================================================== *)

Section BrowserFacts.
Import Lighthouse Runs Browser.
Context `{L : Libraries}.

Lemma create_record_returns fs req ff s :
  ∃ auditId, snd (create_record fs req ff s) = Return auditId.
Proof.
  unfold create_record. destruct (truthy (client_id req)); [|by eexists].
  unfold try_catch, bind, insert_running, rejected.
  destruct (insert_running_fault fs); by eexists.
Qed.

Lemma filter_agree {A} (P Q : A → Prop) `{∀ x, Decision (P x)} `{∀ x, Decision (Q x)}
    (l : list A) :
  (∀ x, x ∈ l → P x ↔ Q x) → filter P l = filter Q l.
Proof.
  induction l as [|x l IH]; intros Hpq; [done|].
  rewrite !filter_cons.
  assert (filter P l = filter Q l) as -> by (apply IH; intros y Hy; apply Hpq; by right).
  destruct (Hpq x (list_elem_of_here _ _)) as [H1 H2].
  destruct (decide (P x)), (decide (Q x)); try done; [by destruct n; auto|by destruct n; auto].
Qed.

Lemma live_after_kill (p : process) (s : Lighthouse.state) (c : option nat) :
  live (Process s (S (launched p)) (killed p ++ [launched p]) c) = live p.
Proof.
  unfold live. cbn [launched killed]. rewrite seq_S, filter_app. cbn [Nat.add].
  rewrite filter_cons_False, filter_nil, app_nil_r.
  - apply filter_agree. intros h Hh%elem_of_seq.
    rewrite not_elem_of_app, list_elem_of_singleton. split; [by intros [? _]|].
    intros Hk. split; [done|lia].
  - intros Hn. apply Hn, elem_of_app. right. left.
Qed.

(** X12.  The browser of an audit is killed on every way out.  With the
    browser in the picture the handler does to the store, and answers,
    what it does without it, the engine's outcome being the launch error
    or else what Lighthouse comes to on the launched browser under the
    configuration of the form factor audited.  It launches a browser only
    for a well-formed url, one at most, and calls [kill] on that browser
    before it returns, whether the audit succeeds, Lighthouse throws or
    the store rejects a statement; when the launch fails there is nothing
    to kill.  The browsers launched and not killed are the same after the
    call as before. *)
Theorem audit_kills_its_browser
    (env : environment) (fs : faults) (req : request) (p : process) :
  let r := Browser.audit env fs req p in
  let a := Lighthouse.audit fs (engine_outcome env req (launched p)) req (store p) in
  let launches :=
    truthy (url req) && url_parses (to_string (url req))
    && bool_decide (launch_fault env = None) in
  store (fst r) = fst a ∧
  snd r = snd a ∧
  launched (fst r) = (if launches then S (launched p) else launched p) ∧
  killed (fst r) = (if launches then killed p ++ [launched p] else killed p) ∧
  live (fst r) = live p.
Proof.
  intros r a launches. subst r a launches.
  rewrite audit_unfold. unfold Browser.audit. fold (form_factor_of req).
  destruct (truthy (url req)); simpl; [|done].
  destruct (url_parses (to_string (url req))); simpl; [|done].
  destruct (create_record_returns fs req (form_factor_of req) (store p)) as [auditId Hc].
  unfold bind, on_store, finally, try_catch, launch, rejected, set_chrome, modify,
    gets, ret, kill, throw, engine_outcome. simpl.
  destruct (create_record fs req (form_factor_of req) (store p)) as [s1 o1] eqn:Hcr.
  simpl in Hc. subst o1. simpl.
  destruct (launch_fault env) as [msg|]; simpl.
  - (* the launch fails: nothing to kill *)
    pose proof (mark_failed_returns fs auditId (store_error msg) s1) as Hm.
    destruct (mark_failed fs auditId (store_error msg) s1) as [s2 o2]. simpl in *.
    subst o2. simpl. done.
  - destruct (run env (to_string (url req)) (launched p)
                  (getLighthouseConfig (form_factor_of req))) as [report|err]; simpl.
    + destruct (save_result fs req (form_factor_of req) auditId
                  (extract_scores (categories report)) report s1) as [s2 [aid|e]]; simpl.
      * repeat split; try done. apply (live_after_kill p).
      * pose proof (mark_failed_returns fs auditId e s2) as Hm.
        destruct (mark_failed fs auditId e s2) as [s3 o3]. simpl in *. subst o3.
        simpl. repeat split; try done. apply (live_after_kill p).
    + pose proof (mark_failed_returns fs auditId err s1) as Hm.
      destruct (mark_failed fs auditId err s1) as [s3 o3]. simpl in *. subst o3.
      simpl. repeat split; try done. apply (live_after_kill p).
Qed.


End BrowserFacts.

Section BrowserExamples.
Import Lighthouse Runs Browser Sample.
#[local] Existing Instance Sample.libraries.

(** An audit whose Lighthouse run throws, in a process that has launched
    and killed two browsers: the third is launched and killed. *)
Lemma audit_kills_its_browser_witness :
  let env := Environment None (fun _ _ _ => Throw (new_Error "navigation timeout")) in
  let r := Browser.audit env no_faults with_client (Process fresh 2 [0; 1]%nat None) in
  launched (fst r) = 3%nat ∧ killed (fst r) = [0; 1; 2]%nat ∧ live (fst r) = [].
Proof.
  intros env r.
  destruct (audit_kills_its_browser (L := Sample.libraries) env no_faults with_client
              (Process fresh 2 [0; 1]%nat None)) as (_ & _ & Hl & Hk & Hlive).
  split; [exact Hl|]. split; [exact Hk|exact Hlive].
Defined.

End BrowserExamples.

(* ===================================================================== *)
(** ** From the dashboard to the engine *)
(* ===================================================================== *)

Section DispatchFacts.
Import Gui Registry Schedules Consistency Lighthouse Runs Dispatch.
Context `{L : Libraries}.

Lemma audit_returns fs o req s :
  ∃ resp, snd (Lighthouse.audit fs o req s) = Return resp ∧
          Lighthouse.status resp ∈ [200; 400; 500].
Proof.
  rewrite audit_unfold.
  destruct (truthy (url req)); simpl; [|eexists; split; [done|compute_done]].
  destruct (url_parses (to_string (url req))); simpl; [|eexists; split; [done|compute_done]].
  destruct (create_record_returns fs req (form_factor_of req) s) as [auditId ->].
  destruct o as [report|err]; simpl.
  - destruct (save_result _ _ _ _ _ _ _) as [s2 [aid|e]]; simpl;
      eexists; (split; [done|compute_done]).
  - eexists; split; [done|compute_done].
Qed.

Lemma select_client_eq fault k s :
  select_client fault k s =
  (s, match fault with
      | Some msg => Throw (store_error msg)
      | None =>
          match pg_int4 k with
          | Return z => Return (filter (fun r => c_id r = z) (clients s))
          | Throw e => Throw e
          end
      end).
Proof.
  unfold select_client, where_id, rejected. destruct fault; [done|].
  by destruct (pg_int4 k).
Qed.

Lemma fetch_eq l req p :
  fetch l req p =
  match refused l with
  | Some msg => (p, Throw (store_error msg))
  | None =>
      let served := Lighthouse.audit (store_faults l) (lighthouse l) req (engine p) in
      (System (dashboard p) (fst served) (requests p ++ [req]) (printed p),
       match snd served with
       | Return resp =>
           match lost l with
           | Some msg => Throw (store_error msg)
           | None => Return resp
           end
       | Throw e => Throw e
       end)
  end.
Proof.
  unfold fetch, rejected. destruct (refused l); [done|].
  unfold bind, modify, on_engine; simpl.
  destruct (Lighthouse.audit _ _ _ _) as [s1 [resp|e]]; simpl; [|done].
  by destruct (lost l).
Qed.

Lemma head_filter_id (l : list client_row) z row rows :
  filter (fun r => c_id r = z) l = row :: rows → row ∈ l ∧ c_id row = z.
Proof.
  intros Hf. assert (row ∈ filter (fun r => c_id r = z) l) as Hin by (rewrite Hf; left).
  apply list_elem_of_filter in Hin as [? ?]. done.
Qed.

Lemma status_ok (resp : Lighthouse.response) :
  Lighthouse.status resp ∈ [200; 400; 500] →
  response_ok resp = bool_decide (Lighthouse.status resp = 200).
Proof.
  unfold response_ok. intros Hs.
  repeat (apply elem_of_cons in Hs as [->|Hs]); [done..|by apply elem_of_nil in Hs].
Qed.

Lemma pg_int4_Int_inv k z : pg_int4 k = Return z → k = Int z.
Proof.
  destruct k as [|z']; simpl; [done|].
  by destruct (_ && _); intros [= ->].
Qed.

(** What [runAuditForClient] comes to. *)
Lemma runAuditForClient_eq fault l k requested p :
  runAuditForClient fault l k requested p =
  match fault with
  | Some msg => (p, Throw (store_error msg))
  | None =>
      match pg_int4 k with
      | Throw e => (p, Throw e)
      | Return z =>
          match filter (fun r => c_id r = z) (clients (dashboard p)) with
          | [] => (p, Throw (new_Error "Client not found"))
          | row :: _ =>
              let req := endpoint_query (c_url row) k
                           (resolveFormFactor (c_platform row) requested) in
              match fetch l req p with
              | (p', Return resp) =>
                  if response_ok resp then (p', Return (Lighthouse.json resp))
                  else (p', Throw (new_Error
                              (or_string (data_error (Lighthouse.json resp)) "Audit failed")))
              | (p', Throw e) => (p', Throw e)
              end
          end
      end
  end.
Proof.
  unfold runAuditForClient, bind at 1, on_dashboard. rewrite select_client_eq. simpl.
  destruct p as [d e rq pr]; simpl.
  destruct fault; [done|]. destruct (pg_int4 k); [|done].
  destruct (filter _ _) as [|row rows]; [done|].
  unfold bind. destruct (fetch _ _ _) as [p' [resp|err]]; [|done].
  by destruct (response_ok resp).
Qed.

(** X14.  A manual audit reaches the engine once, for the stored client.
    [POST /api/clients/:id/audit] never throws and leaves the registry and
    the clients as they are.  Either it does not reach the engine and
    answers 500 (with [Client not found], not a 404, when the store
    reads the id and holds no such client); or it sends one request, for
    a stored client with that id: the client's url, its id and the form
    factor its platform fixes ([mobile] or [desktop]), the requested one
    otherwise.  The engine serves it; the dashboard hands on a 200 with
    the engine's body unchanged, and turns any other answer, or a lost
    one, into a 500 with the error message. *)
Theorem post_audit_dispatch
    (fault : option string) (l : link) (id : string) (ff : field) (p : system) :
  let r := post_audit fault l id ff p in
  dashboard (fst r) = dashboard p ∧
  printed (fst r) = printed p ∧
  ((requests (fst r) = requests p ∧ engine (fst r) = engine p ∧
    ∃ msg, snd r = Return (Answer 500 (Err msg)) ∧
      (fault = None → binds (parseInt id) = true →
       (∀ row, row ∈ clients (dashboard p) → parseInt id ≠ Int (c_id row)) →
       msg = "Client not found")) ∨
   (∃ row, row ∈ clients (dashboard p) ∧ parseInt id = Int (c_id row) ∧
      let req := Lighthouse.Request (Str (c_url row)) (Str (pretty (c_id row)))
                   (Str (resolveFormFactor (c_platform row) (Some (requested_of ff)))) in
      let served := Lighthouse.audit (store_faults l) (lighthouse l) req (engine p) in
      requests (fst r) = requests p ++ [req] ∧
      engine (fst r) = fst served ∧
      ∃ resp, snd served = Return resp ∧
        snd r = Return
          match lost l with
          | Some msg => Answer 500 (Err msg)
          | None =>
              if bool_decide (Lighthouse.status resp = 200)
              then Answer 200 (Data (Lighthouse.json resp))
              else Answer 500
                     (Err (or_string (data_error (Lighthouse.json resp)) "Audit failed"))
          end)).
Proof.
  intros r. subst r. unfold post_audit, try_catch, bind.
  rewrite runAuditForClient_eq.
  destruct fault as [msg|].
  { simpl. split; [done|]. split; [done|]. left. repeat split. by eexists. }
  unfold binds. destruct (pg_int4 (parseInt id)) as [z|e] eqn:Hz.
  2:{ simpl. split; [done|]. split; [done|]. left. repeat split. by eexists. }
  apply pg_int4_Int_inv in Hz as Hk.
  destruct (filter _ _) as [|row rows] eqn:Hrows.
  { simpl. split; [done|]. split; [done|]. left. repeat split. by eexists. }
  apply head_filter_id in Hrows as [Hin Hid]. subst z.
  rewrite fetch_eq. destruct (refused l) as [msg|] eqn:Href.
  { simpl. split; [done|]. split; [done|]. left. repeat split.
    eexists. split; [done|]. intros _ _ Hno. by destruct (Hno row Hin). }
  unfold endpoint_query, number_to_string. rewrite Hk. cbn zeta.
  destruct (audit_returns (store_faults l) (lighthouse l)
              (Lighthouse.Request (Str (c_url row)) (Str (pretty (c_id row)))
                 (Str (resolveFormFactor (c_platform row) (Some (requested_of ff)))))
              (engine p)) as (resp & Hresp & Hstatus).
  rewrite Hresp.
  destruct (lost l) as [msg|] eqn:Hlost.
  { simpl. split; [done|]. split; [done|]. right. exists row.
    split; [done|]. split; [done|]. split; [done|]. split; [done|].
    exists resp. by rewrite Hresp. }
  rewrite (status_ok resp Hstatus).
  destruct (bool_decide (Lighthouse.status resp = 200)) eqn:Hok; simpl.
  - split; [done|]. split; [done|]. right. exists row.
    split; [done|]. split; [done|]. split; [done|]. split; [done|].
    exists resp. by rewrite Hresp, Hok.
  - split; [done|]. split; [done|]. right. exists row.
    split; [done|]. split; [done|]. split; [done|]. split; [done|].
    exists resp. by rewrite Hresp, Hok.
Qed.

(** What one run of [runAuditForClient] touches. *)
Lemma runAuditForClient_footprint fault l k requested p :
  let r := runAuditForClient fault l k requested p in
  dashboard (fst r) = dashboard p ∧ printed (fst r) = printed p ∧
  ((requests (fst r) = requests p ∧ engine (fst r) = engine p ∧
    ((∃ row, row ∈ clients (dashboard p) ∧ k = Int (c_id row)) →
     fault = None → binds k = true → is_Some (refused l))) ∨
   (∃ row rows z, fault = None ∧ pg_int4 k = Return z ∧
      filter (fun r => c_id r = z) (clients (dashboard p)) = row :: rows ∧
      let req := endpoint_query (c_url row) k (resolveFormFactor (c_platform row) requested) in
      requests (fst r) = requests p ++ [req] ∧
      engine (fst r) =
        fst (Lighthouse.audit (store_faults l) (lighthouse l) req (engine p)))).
Proof.
  intros r. subst r. rewrite runAuditForClient_eq.
  destruct fault as [msg|]; [simpl; split; [done|]; split; [done|]; left; by repeat split|].
  unfold binds.
  destruct (pg_int4 k) as [z|e] eqn:Hz;
    [|simpl; split; [done|]; split; [done|]; left; by repeat split].
  apply pg_int4_Int_inv in Hz as Hk.
  destruct (filter _ _) as [|row rows] eqn:Hrows.
  { simpl. split; [done|]. split; [done|]. left. repeat split.
    intros (row & Hin & ->) _ _. injection Hk as <-.
    assert (row ∈ filter (fun r => c_id r = c_id row) (clients (dashboard p))) as Hf
      by (by apply list_elem_of_filter).
    rewrite Hrows in Hf. by apply elem_of_nil in Hf. }
  rewrite fetch_eq. destruct (refused l) as [msg|] eqn:Href.
  { simpl. split; [done|]. split; [done|]. left. by repeat split. }
  cbn zeta.
  destruct (audit_returns (store_faults l) (lighthouse l)
              (endpoint_query (c_url row) k (resolveFormFactor (c_platform row) requested))
              (engine p)) as (resp & Hresp & _).
  rewrite Hresp.
  destruct (lost l) as [msg|].
  { simpl. split; [done|]. split; [done|]. right. by exists row, rows, z. }
  destruct (response_ok resp); simpl;
    (split; [done|]; split; [done|]; right; by exists row, rows, z).
Qed.

Lemma resolveFormFactor_default platform :
  resolveFormFactor platform None =
  if decide (platform = "desktop") then "desktop" else "mobile".
Proof. unfold resolveFormFactor. simpl. by repeat case_decide; simplify_eq. Qed.

Lemma callback_eq fault l k p :
  callback fault l k p =
  let p1 := System (dashboard p) (engine p) (requests p) (printed p ++ [LogFiring k]) in
  let a := runAuditForClient fault l k None p1 in
  (match snd a with
   | Return _ => fst a
   | Throw err =>
       System (dashboard (fst a)) (engine (fst a)) (requests (fst a))
              (printed (fst a) ++ [ErrScheduledFailed k (message err)])
   end, Return tt).
Proof.
  unfold callback, bind at 1, console at 1, modify. cbn zeta.
  unfold try_catch, bind.
  destruct (runAuditForClient _ _ _ _ _) as [p2 [b|err]]; simpl; done.
Qed.

(** X15.  A timer that comes due never fails the process and audits
    mobile unless the client is desktop.  The callback of a scheduled task
    returns whatever the store, the engine and the network do (an error
    is printed, not thrown), and it leaves the registry and the clients
    as they are.  A stopped task does nothing.  A running one prints that
    it fires, sends the engine at most one request, for a stored client
    with the id of the task, and asks for the desktop form factor when
    the client's platform is desktop and for mobile otherwise: a client
    on both platforms is audited on mobile only. *)
Theorem tick_never_throws
    (fault : option string) (l : link) (h : nat) (p : system) :
  let r := tick fault l h p in
  snd r = Return tt ∧
  dashboard (fst r) = dashboard p ∧
  ((fst r = p ∧ ∀ t, tasks (dashboard p) !! h = Some t → running t = false) ∨
   (∃ t lines reqs,
      tasks (dashboard p) !! h = Some t ∧ running t = true ∧
      printed (fst r) = printed p ++ LogFiring (client t) :: lines ∧
      (lines = [] ∨ ∃ msg, lines = [ErrScheduledFailed (client t) msg]) ∧
      requests (fst r) = requests p ++ reqs ∧
      (reqs = [] ∧ engine (fst r) = engine p ∨
       ∃ row, row ∈ clients (dashboard p) ∧ client t = Int (c_id row) ∧
         reqs = [Lighthouse.Request (Str (c_url row)) (Str (pretty (c_id row)))
                   (Str (if decide (c_platform row = "desktop")
                         then "desktop" else "mobile"))]))).
Proof.
  intros r. subst r. unfold tick, bind, gets. cbn beta iota.
  destruct (tasks (dashboard p) !! h) as [t|] eqn:Ht;
    [|split; [done|]; split; [done|]; left; by split].
  destruct (running t) eqn:Hrun;
    [|split; [done|]; split; [done|]; left; split; [done|]; by intros ? [= <-]].
  rewrite callback_eq. cbn zeta.
  set (p1 := System (dashboard p) (engine p) (requests p)
                    (printed p ++ [LogFiring (client t)])).
  pose proof (runAuditForClient_footprint fault l (client t) None p1) as Hfoot.
  cbn zeta in Hfoot. destruct Hfoot as (Hd & Hp & Hcases).
  destruct (runAuditForClient fault l (client t) None p1) as [p2 o] eqn:Hrun2.
  simpl in *.
  assert (∃ lines,
            printed (match o with
                     | Return _ => p2
                     | Throw err =>
                         System (dashboard p2) (engine p2) (requests p2)
                           (printed p2 ++ [ErrScheduledFailed (client t) (message err)])
                     end) = printed p ++ LogFiring (client t) :: lines ∧
            (lines = [] ∨ ∃ msg, lines = [ErrScheduledFailed (client t) msg]))
    as (lines & Hlines & Hshape).
  { destruct o as [b|err]; simpl; rewrite Hp.
    - exists []. split; [done|by left].
    - exists [ErrScheduledFailed (client t) (message err)].
      split; [by rewrite <- app_assoc|right; by eexists]. }
  split; [done|]. split; [by destruct o|]. right.
  destruct Hcases as [(Hreq & Heng & _)|(row & rows & z & _ & Hz & Hrows & Hreq & Heng)].
  - exists t, lines, []. split; [done|]. split; [done|]. split; [done|]. split; [done|].
    split; [destruct o; simpl; by rewrite Hreq, app_nil_r|].
    left. split; [done|]. by destruct o.
  - apply pg_int4_Int_inv in Hz as Hk. apply head_filter_id in Hrows as [Hin Hid].
    subst z. unfold endpoint_query, number_to_string in Hreq. rewrite Hk in Hreq.
    rewrite resolveFormFactor_default in Hreq.
    eexists t, lines, _. split; [done|]. split; [done|]. split; [done|]. split; [done|].
    split; [destruct o; simpl; exact Hreq|].
    right. by exists row.
Qed.

(** X16.  A live timer always finds its client.  While registry and store
    agree, a running task that comes due belongs to a stored client whose
    schedule is switched on under the expression of the task; when the
    store answers and the engine is reachable the callback sends exactly
    one request, for that client, and the engine serves it. *)
Theorem live_timer_audits_its_client
    (l : link) (h : nat) (t : ScheduledTask) (p : system) :
  consistent (dashboard p) →
  tasks (dashboard p) !! h = Some t → running t = true →
  binds (client t) = true → refused l = None →
  let r := tick None l h p in
  ∃ row, row ∈ clients (dashboard p) ∧ client t = Int (c_id row) ∧
    scheduled row (expression t) ∧
    let req := Lighthouse.Request (Str (c_url row)) (Str (pretty (c_id row)))
                 (Str (if decide (c_platform row = "desktop")
                       then "desktop" else "mobile")) in
    requests (fst r) = requests p ++ [req] ∧
    engine (fst r) = fst (Lighthouse.audit (store_faults l) (lighthouse l) req (engine p)).
Proof.
  intros (Hreg & Hnd & _ & _ & Hjobs & _) Ht Hrun Hbinds Href r.
  destruct Hreg as [Hreg1 Hreg2].
  pose proof (Hreg2 h t Ht Hrun) as Hact.
  destruct (Hjobs (client t) (ex_intro _ h Hact)) as (row & e & Hin & Hk & Hsch & Hjob).
  destruct Hjob as (h' & Hact' & Ht').
  assert (h' = h) as -> by congruence.
  assert (t = Task e (client t) true) as Het by congruence.
  exists row. split; [done|]. split; [done|].
  split; [by rewrite Het|].
  subst r. unfold tick, bind, gets. cbn beta iota. rewrite Ht, Hrun.
  rewrite callback_eq. cbn zeta.
  set (p1 := System (dashboard p) (engine p) (requests p)
                    (printed p ++ [LogFiring (client t)])).
  pose proof (runAuditForClient_footprint None l (client t) None p1) as Hfoot.
  cbn zeta in Hfoot. destruct Hfoot as (Hd & Hp & Hcases).
  destruct (runAuditForClient None l (client t) None p1) as [p2 o] eqn:Hrun2.
  simpl in *.
  destruct Hcases as [(_ & _ & Hno)|(row' & rows & z & _ & Hz & Hrows & Hreq & Heng)].
  - destruct Hno as [msg Hmsg]; [by exists row|done|done|congruence].
  - apply pg_int4_Int_inv in Hz as Hk'.
    assert (z = c_id row) as -> by congruence.
    rewrite (filter_by_id _ row Hnd Hin) in Hrows. injection Hrows as <- <-.
    unfold endpoint_query, number_to_string in Hreq, Heng. rewrite Hk in Hreq, Heng.
    rewrite resolveFormFactor_default in Hreq, Heng.
    split; [by destruct o|by destruct o].
Qed.

Lemma pretty_N_go_nonempty (x : N) (s : string) : s ≠ "" → pretty_N_go x s ≠ "".
Proof.
  revert s. induction (N.lt_wf_0 x) as [x _ IH]; intros s Hs.
  assert (x = 0 ∨ 0 < x)%N as [->|Hpos] by lia.
  - by rewrite pretty_N_go_0.
  - rewrite pretty_N_go_step by done. apply IH; [by apply N.div_lt|done].
Qed.

Lemma pretty_N_nonempty (x : N) : pretty x ≠ "".
Proof.
  unfold pretty, pretty_N. case_decide; [done|].
  rewrite pretty_N_go_step by lia. by apply pretty_N_go_nonempty.
Qed.

(** An id in a template literal is never the empty string. *)
Lemma pretty_Z_nonempty (z : Z) : pretty z ≠ "".
Proof.
  destruct z as [|x|x]; [done|apply pretty_N_nonempty|done].
Qed.

Lemma truthy_Str (s : string) : s ≠ "" → truthy (Str s) = true.
Proof. intros Hs. simpl. by destruct s. Qed.

(** The form factor the dashboard resolves is the one the engine reads
    back from the query. *)
Lemma form_factor_round_trip u c platform ff :
  let formFactor := resolveFormFactor platform (Some (requested_of ff)) in
  formFactor ∈ ["mobile"; "desktop"] ∧
  form_factor_of (Lighthouse.Request u c (Str formFactor)) = formFactor.
Proof.
  unfold resolveFormFactor, requested_of, form_factor_of. simpl.
  repeat case_decide; simplify_eq; split; (done || compute_done).
Qed.

(** The engine's handler when the store takes every statement. *)
Lemma audit_no_faults o req s :
  truthy (url req) = true → url_parses (to_string (url req)) = true →
  truthy (client_id req) = true → store_ok s →
  let id := audits_id_seq s in
  let row0 := running_row id (to_string (client_id req)) (form_factor_of req) in
  Lighthouse.audit no_faults o req s =
  match o with
  | Return report =>
      let sc := extract_scores (categories report) in
      (Lighthouse.State (audits s ++ [set_completed sc report row0]) (id + 1)
         (history s ++ [(id, "running"); (id, "completed")]),
       Return (Lighthouse.Response 200
                 (JsonAudit (to_string (url req)) (form_factor_of req) sc (Some id))))
  | Throw err =>
      (Lighthouse.State (audits s ++ [set_failed (message err) row0]) (id + 1)
         (history s ++ [(id, "running"); (id, "failed")]),
       Return (Lighthouse.Response 500 (JsonFailure (message err))))
  end.
Proof.
  intros Hurl Hparse Hc Hok id row0.
  assert (id_truthy (Some id) = Some id) as Hid.
  { unfold id_truthy. destruct Hok as [Hpos _]. rewrite decide_False; [done|].
    subst id. lia. }
  rewrite audit_unfold, Hurl, Hparse. simpl.
  rewrite (create_record_ok no_faults req (form_factor_of req) s Hc eq_refl). simpl.
  fold id row0.
  destruct o as [report|err]; simpl.
  - unfold save_result. rewrite Hid. unfold bind, update_completed. simpl.
    subst id. by rewrite (update_after_insert s row0 _ "completed" Hok eq_refl).
  - unfold mark_failed. rewrite Hid. unfold try_catch, update_failed. simpl.
    subst id. by rewrite (update_after_insert s row0 _ "failed" Hok eq_refl).
Qed.

(** X17.  A manual audit, end to end.  For a stored client whose url is
    well formed, when store and network play along, [POST
    /api/clients/:id/audit] leaves exactly one new row in [audits]: it is
    the client's, under the form factor the dashboard resolved (the
    engine reads the same one back from the query, [mobile] or
    [desktop]).  When Lighthouse returns, the row is completed with the
    scores and the report, and the dashboard answers 200 with the
    engine's body: the url, the form factor, the scores and the id of the
    row.  When Lighthouse throws, the row is failed with the message and
    the dashboard answers 500 with it, or with [Audit failed] when the
    message is empty. *)
Theorem manual_audit_end_to_end
    (id : string) (ff : field) (row : client_row) (o : outcome lhr) (p : system) :
  NoDup (c_id <$> clients (dashboard p)) →
  row ∈ clients (dashboard p) →
  parseInt id = Int (c_id row) → binds (Int (c_id row)) = true →
  c_url row ≠ "" → url_parses (c_url row) = true →
  store_ok (engine p) →
  let formFactor := resolveFormFactor (c_platform row) (Some (requested_of ff)) in
  let auditId := audits_id_seq (engine p) in
  let row0 := running_row auditId (pretty (c_id row)) formFactor in
  let r := post_audit None (Link None no_faults o None) id ff p in
  formFactor ∈ ["mobile"; "desktop"] ∧
  dashboard (fst r) = dashboard p ∧
  match o with
  | Return report =>
      let sc := extract_scores (categories report) in
      snd r = Return (Answer 200 (Data (JsonAudit (c_url row) formFactor sc (Some auditId)))) ∧
      audits (engine (fst r)) = audits (engine p) ++ [set_completed sc report row0]
  | Throw err =>
      snd r = Return (Answer 500
                (Err (if decide (message err = "") then "Audit failed" else message err))) ∧
      audits (engine (fst r)) = audits (engine p) ++ [set_failed (message err) row0]
  end.
Proof.
  intros Hnd Hin Hid Hbinds Hurl Hparse Hok formFactor auditId row0 r.
  destruct (form_factor_round_trip (Str (c_url row)) (Str (pretty (c_id row)))
              (c_platform row) ff) as [Hff Hback].
  fold formFactor in Hff, Hback.
  split; [done|].
  subst r. unfold post_audit, try_catch, bind. rewrite runAuditForClient_eq.
  rewrite Hid. unfold binds in Hbinds.
  destruct (pg_int4 (Int (c_id row))) as [z|e] eqn:Hz; [|done].
  apply pg_int4_Int_inv in Hz. injection Hz as <-.
  rewrite (filter_by_id _ row Hnd Hin). cbn zeta. rewrite fetch_eq. simpl.
  unfold endpoint_query, number_to_string. fold formFactor.
  rewrite (audit_no_faults o _ (engine p));
    [|by apply truthy_Str|done|apply truthy_Str, pretty_Z_nonempty|done].
  simpl. rewrite Hback. fold auditId row0.
  destruct o as [report|err]; simpl; [done|].
  split; [done|]. split; [|done].
  unfold or_string. simpl. by destruct (message err).
Qed.

End DispatchFacts.

Section DispatchExamples.
Import Gui Registry Schedules Consistency Lighthouse Runs Dispatch Sample.
#[local] Existing Instance Sample.libraries.

(** After recovery the timer of client 1, stored on both platforms, comes
    due. *)
Lemma live_timer_audits_its_client_witness :
  let p := System (fst (initSchedules None (boot registered 4))) fresh [] [] in
  let l := Link None no_faults (Return report) None in
  let r := tick None l 0 p in
  ∃ row, row ∈ registered ∧ Int 1 = Int (c_id row) ∧
    scheduled row "*/5 * * * *" ∧
    let req := Lighthouse.Request (Str (c_url row)) (Str (pretty (c_id row)))
                 (Str (if decide (c_platform row = "desktop")
                       then "desktop" else "mobile")) in
    requests (fst r) = [req] ∧
    engine (fst r) = fst (Lighthouse.audit no_faults (Return report) req fresh).
Proof.
  exact (live_timer_audits_its_client (L := Sample.libraries)
           (Link None no_faults (Return report) None) 0
           (Task "*/5 * * * *" (Int 1) true)
           (System (fst (initSchedules None (boot registered 4))) fresh [] [])
           registered_recovered eq_refl eq_refl eq_refl eq_refl).
Defined.

(** A manual audit of client 3, stored as desktop, with no form factor in
    the body. *)
Lemma manual_audit_end_to_end_witness :
  let p := System (boot registered 4) fresh [] [] in
  let r := post_audit None (Link None no_faults (Return report) None) "3" Undefined p in
  snd r = Return (Answer 200 (Data (JsonAudit "https://three.example" "desktop"
                                      (Scores 90 0 0 0 0) (Some 1)))) ∧
  a_client_id <$> audits (engine (fst r)) = ["3"] ∧
  a_status <$> audits (engine (fst r)) = ["completed"].
Proof.
  intros p r.
  assert (store_ok fresh) as Hfresh.
  { split; [simpl; lia|]. intros x Hx. by apply elem_of_nil in Hx. }
  destruct (manual_audit_end_to_end (L := Sample.libraries) "3" Undefined
              (Client 3 "three" "https://three.example" "desktop" None (Some false))
              (Return report) p
              ltac:(compute_done) ltac:(compute_done) eq_refl eq_refl
              ltac:(done) eq_refl Hfresh) as (_ & _ & Hreply & Haudits).
  split; [exact Hreply|]. fold r in Haudits. by rewrite Haudits.
Defined.

End DispatchExamples.

(* ===================================================================== *)
(** ** What the dashboard shows of the registry *)
(* ===================================================================== *)

Section ListingFacts.
Import Gui Registry Schedules Consistency Listing.
Context `{L : Libraries}.

(** X18.  The list of schedules shows the registry as the store has it.
    [GET /api/schedules] reads without writing; a rejected query is
    answered 500.  Otherwise it lists exactly the clients that have a
    schedule, each once, with [job_active] saying whether a job is
    registered for it; and while registry and store agree, [job_active]
    is true exactly for the schedules that are switched on. *)
Theorem get_schedules_shows_agreement
    (sort : list client_row → list client_row) (fault : option string) (s : state) :
  (∀ l, sort l ≡ₚ l) →
  let r := get_schedules sort fault s in
  fst r = s ∧
  (∀ msg, fault = Some msg → snd r = Return (Failed 500 msg)) ∧
  (fault = None →
   ∃ rows, snd r = Return (Rows rows) ∧
     rows.*1 ≡ₚ filter (fun r => is_Some (c_schedule r)) (clients s) ∧
     (∀ row b, (row, b) ∈ rows → b = isActive s (Int (c_id row))) ∧
     (consistent s → ∀ row b, (row, b) ∈ rows → b = on (c_schedule_enabled row))).
Proof.
  intros Hsort r. subst r.
  unfold get_schedules, select_schedules, try_catch, bind, rejected.
  destruct fault as [msg|]; simpl.
  { split; [done|]. split; [by intros ? [= <-]|done]. }
  split; [done|]. split; [done|]. intros _.
  eexists. split; [done|].
  assert (∀ row b,
            (row, b) ∈ (fun r => (r, isActive s (Int (c_id r)))) <$>
                         sort (filter (fun r => is_Some (c_schedule r)) (clients s)) →
            b = isActive s (Int (c_id row)) ∧ row ∈ clients s ∧ is_Some (c_schedule row))
    as Hrows.
  { intros row b (r0 & [= -> ->] & Hin)%list_elem_of_fmap.
    split; [done|]. rewrite Hsort in Hin. by apply list_elem_of_filter in Hin as [? ?]. }
  split; [|split].
  - rewrite <- list_fmap_compose. rewrite <- (Hsort (filter _ _)) at 2.
    by rewrite list_fmap_id.
  - intros row b Hin. by apply Hrows.
  - intros Hcons row b Hin. destruct (Hrows row b Hin) as (-> & Hrow & [e He]).
    pose proof (consistent_active s row Hcons Hrow) as Hact.
    destruct (isActive s (Int (c_id row))).
    + destruct Hact as [Hact _]. destruct (Hact eq_refl) as (e' & _ & Hen).
      by rewrite Hen.
    + destruct (c_schedule_enabled row) as [[]|] eqn:Hen; try done.
      destruct Hact as [_ Hact]. simpl. apply Hact. by exists e.
Qed.

End ListingFacts.

Section ListingExamples.
Import Gui Registry Schedules Consistency Listing Sample.
#[local] Existing Instance Sample.libraries.

(** The list after recovery, in the order of the table. *)
Lemma get_schedules_shows_agreement_witness :
  let s := fst (initSchedules None (boot registered 4)) in
  snd (get_schedules (fun l => l) None s) =
  Return (Rows
    [ (Client 1 "one" "https://one.example" "both" (Some "*/5 * * * *") (Some true), true);
      (Client 2 "two" "https://two.example" "mobile" (Some "0 3 * * *") (Some false), false) ]).
Proof.
  intros s.
  destruct (get_schedules_shows_agreement (L := Sample.libraries) (fun l => l) None s
              ltac:(done)) as (_ & _ & Hrows).
  destruct (Hrows eq_refl) as (rows & Hreply & _). rewrite Hreply.
  injection Hreply as <-. reflexivity.
Defined.

End ListingExamples.

(* ===================================================================== *)
(** ** Start-up *)
(* ===================================================================== *)

Section StartupFacts.
Import Boot Startup.
Context `{L : Libraries}.






End StartupFacts.
